(** * Picture buffers of upipe: geometry checks, resize, copy and replace

    A shallow embedding of [include/upipe/ubuf_pic.h].  The inline
    functions of the header are translated one by one; the buffer manager
    they talk to ([ubuf_alloc], [ubuf_control], [ubuf_free] of
    [upipe/ubuf.h]) is an interface, given here as a type class, and every
    call to it is recorded in the list of events a computation emits. *)

From Stdlib Require Import ZArith List String Bool Lia.
From Stdlib.Strings Require Import Byte.
Import ListNotations.
Open Scope Z_scope.

(** ** C integers

    The header computes with [int] (32 bits, signed), [size_t] (64 bits,
    unsigned) and [uint8_t].  Values are integers of [Z]; a conversion to a
    C type is written out as the wrap-around it performs.  Overflow of a
    signed operation is undefined in C: the model wraps there as well, and
    the theorems that need an exact sum bound the operands. *)

Definition INT_MIN : Z := - 2 ^ 31.
Definition INT_MAX : Z := 2 ^ 31 - 1.
Definition SIZE_MAX : Z := 2 ^ 64 - 1.

(** Conversion to [int]. *)
Definition to_int (z : Z) : Z := (z + 2 ^ 31) mod 2 ^ 32 - 2 ^ 31.

(** Conversion to [size_t]. *)
Definition to_size (z : Z) : Z := z mod 2 ^ 64.

(** [a + b], [a - b], [- a] and [a * b] on [int]. *)
Definition int_add (a b : Z) : Z := to_int (a + b).
Definition int_sub (a b : Z) : Z := to_int (a - b).
Definition int_neg (a : Z) : Z := to_int (- a).
Definition int_mul (a b : Z) : Z := to_int (a * b).

(** [a % b] and [a / b] on [int] truncate towards zero.  A zero divisor is
    undefined in C; [Z.rem a 0 = a] and [Z.quot a 0 = 0] here. *)
Definition int_rem (a b : Z) : Z := Z.rem a b.
Definition int_div (a b : Z) : Z := Z.quot a b.

(** [x % m] used as a condition. *)
Definition nonzero (z : Z) : bool := negb (z =? 0).

Definition is_int (z : Z) : Prop := INT_MIN <= z <= INT_MAX.
Definition is_size (z : Z) : Prop := 0 <= z <= SIZE_MAX.
Definition is_uint8 (z : Z) : Prop := 0 <= z <= 255.

(** ** Buffers, commands and events *)

(** [struct ubuf *]: the identity of a buffer. *)
Definition ubuf := nat.

(** The four in-out arguments of the offset check: a picture area. *)
Record area := Area {
  hoffset : Z;
  voffset : Z;
  hsize : Z;
  vsize : Z
}.

(** The picture commands of [ubuf_control], with their input arguments. *)
Inductive ubuf_command :=
| UBUF_SIZE_PICTURE
| UBUF_ITERATE_PICTURE_PLANE (chroma : option string)
| UBUF_SIZE_PICTURE_PLANE (chroma : string)
| UBUF_READ_PICTURE_PLANE (chroma : string) (a : area)
| UBUF_WRITE_PICTURE_PLANE (chroma : string) (a : area)
| UBUF_UNMAP_PICTURE_PLANE (chroma : string) (a : area)
| UBUF_RESIZE_PICTURE (hskip vskip new_hsize new_vsize : Z).

(** What a successful command writes through its reference arguments. *)
Inductive ubuf_answer :=
| ANS_SIZE (hsize vsize macropixel : Z)
| ANS_CHROMA (chroma : option string)
| ANS_PLANE (stride hsub vsub macropixel_size : Z)
| ANS_BUFFER (buffer : Z)
| ANS_DONE.

(** The buffer manager.  [W] is its state.  [mgr_control] answers [None]
    when [ubase_err_check] of the returned code is false; an answer of
    another kind than the command asks for is taken as an error by the
    functions that read it.  The manager hands out buffers and addresses;
    the octets themselves are only moved by [memcpy]. *)
Class ubuf_mgr (W : Type) := {
  mgr_alloc_picture : Z -> Z -> W -> option ubuf * W;
  mgr_control : ubuf -> ubuf_command -> W -> option ubuf_answer * W;
  mgr_free : ubuf -> W -> W
}.

(** A call that leaves the header. *)
Inductive event :=
| EvAlloc (hsize vsize : Z) (r : option ubuf)
| EvControl (u : ubuf) (c : ubuf_command) (r : option ubuf_answer)
| EvFree (u : ubuf)
| EvMemcpy (dst src n : Z).

(** Octets in memory, by address. *)
Definition memory := Z -> byte.

(** [memcpy(dst, src, n)] on areas that do not overlap. *)
Definition mem_copy (m : memory) (dst src n : Z) : memory :=
  fun a => if (dst <=? a) && (a <? dst + n) then m (src + (a - dst)) else m a.

(** ** Computations: manager state and memory threaded, events emitted *)

Section Embedding.

Context {W : Type} {mgr : ubuf_mgr W}.

Record state := State {
  st_mgr : W;
  st_mem : memory
}.

Definition M (A : Type) : Type := state -> A * state * list event.

Definition ret {A} (a : A) : M A := fun s => (a, s, []).

Definition bind {A B} (m : M A) (f : A -> M B) : M B := fun s =>
  let '(a, s1, e1) := m s in
  let '(b, s2, e2) := f a s1 in
  (b, s2, e1 ++ e2).

Notation "x <- m ;; k" := (bind m (fun x => k))
  (at level 61, m at next level, right associativity).

Definition ubuf_alloc_picture (hsize vsize : Z) : M (option ubuf) := fun s =>
  let '(r, w) := mgr_alloc_picture hsize vsize (st_mgr s) in
  (r, State w (st_mem s), [EvAlloc hsize vsize r]).

Definition ubuf_control (u : ubuf) (c : ubuf_command) : M (option ubuf_answer) :=
  fun s =>
  let '(r, w) := mgr_control u c (st_mgr s) in
  (r, State w (st_mem s), [EvControl u c r]).

Definition ubuf_free (u : ubuf) : M unit := fun s =>
  (tt, State (mgr_free u (st_mgr s)) (st_mem s), [EvFree u]).

Definition memcpy (dst src n : Z) : M unit := fun s =>
  (tt, State (st_mgr s) (mem_copy (st_mem s) dst src n), [EvMemcpy dst src n]).

(** ** The header, function by function *)

(** [ubuf_pic_alloc]: [ubuf_alloc(mgr, UBUF_ALLOC_PICTURE, hsize, vsize)]. *)
Definition ubuf_pic_alloc (hsize vsize : Z) : M (option ubuf) :=
  ubuf_alloc_picture hsize vsize.

(** [ubuf_pic_size]: horizontal size, vertical size and macropixel. *)
Definition ubuf_pic_size (u : ubuf) : M (option (Z * Z * Z)) :=
  r <- ubuf_control u UBUF_SIZE_PICTURE ;;
  ret match r with
      | Some (ANS_SIZE h v m) => Some (h, v, m)
      | _ => None
      end.

(** [ubuf_pic_plane_iterate]: the outer [option] is the returned boolean,
    the inner one is [*chroma_p] after the call. *)
Definition ubuf_pic_plane_iterate (u : ubuf) (chroma : option string)
  : M (option (option string)) :=
  r <- ubuf_control u (UBUF_ITERATE_PICTURE_PLANE chroma) ;;
  ret match r with
      | Some (ANS_CHROMA c) => Some c
      | _ => None
      end.

(** [ubuf_pic_plane_size]: stride, hsub, vsub and macropixel size. *)
Definition ubuf_pic_plane_size (u : ubuf) (chroma : string)
  : M (option (Z * Z * Z * Z)) :=
  r <- ubuf_control u (UBUF_SIZE_PICTURE_PLANE chroma) ;;
  ret match r with
      | Some (ANS_PLANE stride hsub vsub mps) => Some (stride, hsub, vsub, mps)
      | _ => None
      end.

(** Lines 140-143: the test made on the arguments as they are passed. *)
Definition offset_out_of_picture (ubuf_hsize ubuf_vsize : Z) (a : area) : bool :=
  (hoffset a >? to_int ubuf_hsize) || (voffset a >? to_int ubuf_vsize) ||
  (int_add (hoffset a) (hsize a) >? to_int ubuf_hsize) ||
  (int_add (voffset a) (vsize a) >? to_int ubuf_vsize).

(** Lines 145-152: negative offsets count from the end, a size of -1 runs
    to the end.  [*hoffset_p += ubuf_hsize] and
    [*hsize_p = ubuf_hsize - *hoffset_p] are computed on [size_t] and
    stored in an [int]. *)
Definition resolve_offset (ubuf_hsize ubuf_vsize : Z) (a : area) : area :=
  let hoffset1 :=
    if hoffset a <? 0 then to_int (to_size (to_size (hoffset a) + ubuf_hsize))
    else hoffset a in
  let voffset1 :=
    if voffset a <? 0 then to_int (to_size (to_size (voffset a) + ubuf_vsize))
    else voffset a in
  let hsize1 :=
    if hsize a =? -1 then to_int (to_size (ubuf_hsize - to_size hoffset1))
    else hsize a in
  let vsize1 :=
    if vsize a =? -1 then to_int (to_size (ubuf_vsize - to_size voffset1))
    else vsize a in
  Area hoffset1 voffset1 hsize1 vsize1.

(** Line 153. *)
Definition off_macropixel (macropixel : Z) (a : area) : bool :=
  nonzero (int_rem (hoffset a) macropixel) ||
  nonzero (int_rem (hsize a) macropixel).

(** Lines 158-159. *)
Definition off_subsampling (hsub vsub : Z) (a : area) : bool :=
  nonzero (int_rem (hoffset a) hsub) || nonzero (int_rem (hsize a) hsub) ||
  nonzero (int_rem (voffset a) vsub) || nonzero (int_rem (vsize a) vsub).

(** [ubuf_pic_plane_check_offset].  The result is the returned boolean and
    the four integers as the call leaves them behind the references. *)
Definition ubuf_pic_plane_check_offset (u : ubuf) (chroma : string) (a : area)
  : M (bool * area) :=
  sz <- ubuf_pic_size u ;;
  match sz with
  | None => ret (false, a)
  | Some (ubuf_hsize, ubuf_vsize, macropixel) =>
    if offset_out_of_picture ubuf_hsize ubuf_vsize a then ret (false, a)
    else
      let a1 := resolve_offset ubuf_hsize ubuf_vsize a in
      if off_macropixel macropixel a1 then ret (false, a1)
      else
        ps <- ubuf_pic_plane_size u chroma ;;
        match ps with
        | None => ret (false, a1)
        | Some (_, hsub, vsub, _) =>
          if off_subsampling hsub vsub a1 then ret (false, a1)
          else ret (true, a1)
        end
  end.

(** [ubuf_pic_plane_read]: the pointer written to [*buffer_p], or [None]
    for a returned [false]. *)
Definition ubuf_pic_plane_read (u : ubuf) (chroma : string) (a : area)
  : M (option Z) :=
  ck <- ubuf_pic_plane_check_offset u chroma a ;;
  if negb (fst ck) then ret None
  else
    r <- ubuf_control u (UBUF_READ_PICTURE_PLANE chroma (snd ck)) ;;
    ret match r with
        | Some (ANS_BUFFER p) => Some p
        | _ => None
        end.

(** [ubuf_pic_plane_write]. *)
Definition ubuf_pic_plane_write (u : ubuf) (chroma : string) (a : area)
  : M (option Z) :=
  ck <- ubuf_pic_plane_check_offset u chroma a ;;
  if negb (fst ck) then ret None
  else
    r <- ubuf_control u (UBUF_WRITE_PICTURE_PLANE chroma (snd ck)) ;;
    ret match r with
        | Some (ANS_BUFFER p) => Some p
        | _ => None
        end.

(** [ubuf_pic_plane_unmap]. *)
Definition ubuf_pic_plane_unmap (u : ubuf) (chroma : string) (a : area)
  : M bool :=
  ck <- ubuf_pic_plane_check_offset u chroma a ;;
  if negb (fst ck) then ret false
  else
    r <- ubuf_control u (UBUF_UNMAP_PICTURE_PLANE chroma (snd ck)) ;;
    ret match r with
        | Some _ => true
        | None => false
        end.

(** What [ubuf_pic_check_resize] leaves behind its seven references when
    it returns [true]. *)
Record resize_geometry := ResizeGeometry {
  rs_hskip : Z;
  rs_vskip : Z;
  rs_new_hsize : Z;
  rs_new_vsize : Z;
  rs_ubuf_hsize : Z;
  rs_ubuf_vsize : Z;
  rs_macropixel : Z
}.

(** Lines 277-280: a new size of -1 keeps the far edge. *)
Definition resolve_new_size (ubuf_size skip new_size : Z) : Z :=
  if new_size =? -1 then to_int (to_size (ubuf_size - to_size skip))
  else new_size.

(** Lines 283-285. *)
Definition resize_off_macropixel (macropixel hskip new_hsize : Z) : bool :=
  ((hskip <? 0) && nonzero (int_rem (int_neg hskip) macropixel)) ||
  ((hskip >? 0) && nonzero (int_rem hskip macropixel)) ||
  nonzero (int_rem new_hsize macropixel).

(** [ubuf_pic_check_resize]; [None] is a returned [false]. *)
Definition ubuf_pic_check_resize (u : ubuf) (hskip vskip new_hsize new_vsize : Z)
  : M (option resize_geometry) :=
  sz <- ubuf_pic_size u ;;
  match sz with
  | None => ret None
  | Some (ubuf_hsize, ubuf_vsize, macropixel) =>
    if (hskip >? to_int ubuf_hsize) || (vskip >? to_int ubuf_vsize)
    then ret None
    else
      let new_hsize1 := resolve_new_size ubuf_hsize hskip new_hsize in
      let new_vsize1 := resolve_new_size ubuf_vsize vskip new_vsize in
      if (new_hsize1 <? int_neg hskip) || (new_vsize1 <? int_neg vskip)
      then ret None
      else if resize_off_macropixel macropixel hskip new_hsize1
      then ret None
      else ret (Some (ResizeGeometry hskip vskip new_hsize1 new_vsize1
                        ubuf_hsize ubuf_vsize macropixel))
  end.

(** [ubuf_pic_resize]. *)
Definition ubuf_pic_resize (u : ubuf) (hskip vskip new_hsize new_vsize : Z)
  : M bool :=
  ck <- ubuf_pic_check_resize u hskip vskip new_hsize new_vsize ;;
  match ck with
  | None => ret false
  | Some g =>
    r <- ubuf_control u (UBUF_RESIZE_PICTURE (rs_hskip g) (rs_vskip g)
                           (rs_new_hsize g) (rs_new_vsize g)) ;;
    ret match r with
        | Some _ => true
        | None => false
        end
  end.

(** Lines 367-389 of [ubuf_pic_copy], for one axis: where the copied part
    starts in the new buffer, where it starts in the old one, and how long
    it is.  The comparison of the two candidate lengths is made on
    [size_t], since its right-hand side is one. *)
Definition extract_offset (skip : Z) : Z :=
  if skip <? 0 then int_neg skip else 0.

Definition extract_skip (skip : Z) : Z :=
  if skip <? 0 then 0 else skip.

Definition extract_size (skip new_size ubuf_size : Z) : Z :=
  let wanted := int_sub new_size (extract_offset skip) in
  let present := to_size (ubuf_size - to_size (extract_skip skip)) in
  to_int (if to_size wanted <=? present then to_size wanted else present).

(** Lines 430-434: the loop over the lines of one plane. *)
Fixpoint copy_lines (n : nat) (new_buffer buffer plane_hsize new_stride stride : Z)
  : M unit :=
  match n with
  | O => ret tt
  | S n' =>
    _ <- memcpy new_buffer buffer (to_size plane_hsize) ;;
    copy_lines n' (new_buffer + new_stride) (buffer + stride)
               plane_hsize new_stride stride
  end.

(** Line 427 and line 428. *)
Definition plane_hsize_of (extract_hsize hsub macropixel macropixel_size : Z) : Z :=
  int_mul (int_div (int_div extract_hsize hsub) macropixel) macropixel_size.

Definition plane_vsize_of (extract_vsize vsub : Z) : Z :=
  int_div extract_vsize vsub.

(** Lines 393-443: the body of the loop over the planes.  [true] when the
    plane was copied, [false] for [goto ubuf_pic_copy_err]. *)
Definition copy_plane (u new_ubuf : ubuf) (macropixel : Z)
    (to_area from_area : area) (chroma : string) : M bool :=
  ps <- ubuf_pic_plane_size u chroma ;;
  match ps with
  | None => ret false
  | Some (stride, hsub, vsub, macropixel_size) =>
    nps <- ubuf_pic_plane_size new_ubuf chroma ;;
    match nps with
    | None => ret false
    | Some (new_stride, new_hsub, new_vsub, new_macropixel_size) =>
      if negb (hsub =? new_hsub) || negb (vsub =? new_vsub) ||
         negb (macropixel_size =? new_macropixel_size)
      then ret false
      else
        wr <- ubuf_pic_plane_write new_ubuf chroma to_area ;;
        match wr with
        | None => ret false
        | Some new_buffer =>
          rd <- ubuf_pic_plane_read u chroma from_area ;;
          match rd with
          | None =>
            _ <- ubuf_pic_plane_unmap new_ubuf chroma to_area ;;
            ret false
          | Some buffer =>
            let plane_hsize :=
              plane_hsize_of (hsize to_area) hsub macropixel macropixel_size in
            let plane_vsize := plane_vsize_of (vsize to_area) vsub in
            _ <- copy_lines (Z.to_nat plane_vsize) new_buffer buffer
                            plane_hsize new_stride stride ;;
            ret1 <- ubuf_pic_plane_unmap new_ubuf chroma to_area ;;
            ret2 <- ubuf_pic_plane_unmap u chroma from_area ;;
            ret (ret2 && ret1)
          end
        end
    end
  end.

(** Line 392: [while (ubuf_pic_plane_iterate(ubuf, &chroma) && chroma != NULL)].
    The manager decides how long the iteration lasts, so the loop runs on
    fuel: [None] when the fuel is spent, [Some true] when the loop was
    left by its condition, [Some false] when its body jumped to the error
    label. *)
Fixpoint copy_planes (fuel : nat) (u new_ubuf : ubuf) (macropixel : Z)
    (to_area from_area : area) (chroma : option string) : M (option bool) :=
  match fuel with
  | O => ret None
  | S fuel' =>
    it <- ubuf_pic_plane_iterate u chroma ;;
    match it with
    | Some (Some c) =>
      ok <- copy_plane u new_ubuf macropixel to_area from_area c ;;
      if ok
      then copy_planes fuel' u new_ubuf macropixel to_area from_area (Some c)
      else ret (Some false)
    | _ => ret (Some true)
    end
  end.

(** The area written in the new buffer and the area read in the old one. *)
Definition copy_to_area (g : resize_geometry) : area :=
  Area (extract_offset (rs_hskip g)) (extract_offset (rs_vskip g))
       (extract_size (rs_hskip g) (rs_new_hsize g) (rs_ubuf_hsize g))
       (extract_size (rs_vskip g) (rs_new_vsize g) (rs_ubuf_vsize g)).

Definition copy_from_area (g : resize_geometry) : area :=
  Area (extract_skip (rs_hskip g)) (extract_skip (rs_vskip g))
       (extract_size (rs_hskip g) (rs_new_hsize g) (rs_ubuf_hsize g))
       (extract_size (rs_vskip g) (rs_new_vsize g) (rs_ubuf_vsize g)).

(** [ubuf_pic_copy].  The outer [option] is [None] when the fuel of the
    plane loop is spent; the inner one is the returned pointer, [None] for
    [NULL]. *)
Definition ubuf_pic_copy (fuel : nat) (u : ubuf)
    (hskip vskip new_hsize new_vsize : Z) : M (option (option ubuf)) :=
  ck <- ubuf_pic_check_resize u hskip vskip new_hsize new_vsize ;;
  match ck with
  | None => ret (Some None)
  | Some g =>
    al <- ubuf_pic_alloc (rs_new_hsize g) (rs_new_vsize g) ;;
    match al with
    | None => ret (Some None)
    | Some new_ubuf =>
      sz <- ubuf_pic_size new_ubuf ;;
      match sz with
      | Some (_, _, new_macropixel) =>
        if negb (new_macropixel =? rs_macropixel g)
        then _ <- ubuf_free new_ubuf ;; ret (Some None)
        else
          r <- copy_planes fuel u new_ubuf (rs_macropixel g)
                           (copy_to_area g) (copy_from_area g) None ;;
          match r with
          | None => ret None
          | Some true => ret (Some (Some new_ubuf))
          | Some false => _ <- ubuf_free new_ubuf ;; ret (Some None)
          end
      | None => _ <- ubuf_free new_ubuf ;; ret (Some None)
      end
    end
  end.

(** [ubuf_pic_replace]: the returned boolean and [*ubuf_p] after the call;
    [None] when the fuel of the copy is spent. *)
Definition ubuf_pic_replace (fuel : nat) (ubuf_p : ubuf)
    (hskip vskip new_hsize new_vsize : Z) : M (option (bool * ubuf)) :=
  cp <- ubuf_pic_copy fuel ubuf_p hskip vskip new_hsize new_vsize ;;
  match cp with
  | None => ret None
  | Some None => ret (Some (false, ubuf_p))
  | Some (Some new_ubuf) =>
    _ <- ubuf_free ubuf_p ;;
    ret (Some (true, new_ubuf))
  end.

End Embedding.

Arguments state W : clear implicits.
Arguments M W A : clear implicits.

(** ** A picture manager

    The header only declares what it needs of a manager; the managers
    themselves live in other files of the library.  The one below is
    modelled from the spec, after its data model and the interface of its
    storage collaborator, and serves to run the header on concrete
    buffers. *)

Module PicMem.

(** Modelled from the spec: a plane of the picture format the manager was
    created for, with its chroma key, subsampling factors and macropixel
    size in octets; the format catalogue is not in the header. *)
Record plane := Plane {
  chroma : string;
  hsub : Z;
  vsub : Z;
  macropixel_size : Z
}.

(** Modelled from the spec: a plane of an allocated buffer, with its
    description, its stride and the address of its first visible octet;
    the storage layout is not in the header. *)
Record buffer_plane := BufferPlane {
  bp_plane : plane;
  bp_stride : Z;
  bp_base : Z
}.

(** Modelled from the spec: an allocated picture buffer, which the header
    only knows as [struct ubuf].  Its global sizes, whether its storage is
    referenced by another handle, the slack reserved around the visible
    picture (pixels before and after each line, lines before and after
    the picture), and its planes. *)
Record buffer := Buffer {
  b_hsize : Z;
  b_vsize : Z;
  b_shared : bool;
  b_hbefore : Z;
  b_hafter : Z;
  b_vbefore : Z;
  b_vafter : Z;
  b_planes : list buffer_plane
}.

(** Modelled from the spec: the state of the manager, which the header
    only knows as [struct ubuf_mgr].  The macropixel and planes of its
    format, the margins it reserves, the live buffers, the next handle
    and the next free address. *)
Record world := World {
  w_macropixel : Z;
  w_format : list plane;
  w_hmargin : Z;
  w_vmargin : Z;
  w_bufs : list (ubuf * buffer);
  w_next : ubuf;
  w_brk : Z
}.

Fixpoint lookup (u : ubuf) (l : list (ubuf * buffer)) : option buffer :=
  match l with
  | [] => None
  | (k, b) :: l' => if Nat.eqb k u then Some b else lookup u l'
  end.

Fixpoint remove (u : ubuf) (l : list (ubuf * buffer)) : list (ubuf * buffer) :=
  match l with
  | [] => []
  | (k, b) :: l' => if Nat.eqb k u then remove u l' else (k, b) :: remove u l'
  end.

Definition update (u : ubuf) (b : buffer) (w : world) : world :=
  World (w_macropixel w) (w_format w) (w_hmargin w) (w_vmargin w)
        ((u, b) :: remove u (w_bufs w)) (w_next w) (w_brk w).

Fixpoint find_plane (c : string) (l : list buffer_plane) : option buffer_plane :=
  match l with
  | [] => None
  | p :: l' => if String.eqb (chroma (bp_plane p)) c then Some p else find_plane c l'
  end.

(** The key that follows [c] in the list of planes. *)
Fixpoint plane_after (c : string) (l : list buffer_plane) : option (option string) :=
  match l with
  | [] => None
  | p :: l' =>
    if String.eqb (chroma (bp_plane p)) c
    then Some match l' with
              | [] => None
              | q :: _ => Some (chroma (bp_plane q))
              end
    else plane_after c l'
  end.

(** Modelled from the spec: the translation of a pixel position into
    octets of a plane, made by the manager when it maps.  Lines are
    divided by the vertical subsampling, pixels by the horizontal
    subsampling and the macropixel, then counted in macropixel sizes. *)
Definition plane_offset (macropixel : Z) (p : buffer_plane) (hoffset voffset : Z) : Z :=
  voffset / vsub (bp_plane p) * bp_stride p +
  hoffset / hsub (bp_plane p) / macropixel * macropixel_size (bp_plane p).

(** Modelled from the spec: the invariant enforced at allocation, that
    for every plane the horizontal size is a multiple of
    [macropixel * hsub] and the vertical size a multiple of [vsub]. *)
Definition sizes_fit (macropixel : Z) (format : list plane) (hsize vsize : Z) : bool :=
  forallb (fun p =>
    (0 <? hsub p) && (0 <? vsub p) &&
    (hsize mod (macropixel * hsub p) =? 0) && (vsize mod vsub p =? 0)) format.

(** Modelled from the spec: the storage of a new buffer, one plane after
    the other from address [brk], each with the minimal stride for the
    lines and their margins. *)
Fixpoint layout (macropixel hmargin vmargin hsize vsize : Z) (format : list plane)
    (brk : Z) : list buffer_plane * Z :=
  match format with
  | [] => ([], brk)
  | p :: format' =>
    let stride :=
      (hsize + 2 * hmargin) / hsub p / macropixel * macropixel_size p in
    let lines := (vsize + 2 * vmargin) / vsub p in
    let bp := BufferPlane p stride brk in
    let first := BufferPlane p stride (brk + plane_offset macropixel bp hmargin vmargin) in
    let '(rest, brk') :=
      layout macropixel hmargin vmargin hsize vsize format' (brk + stride * lines) in
    (first :: rest, brk')
  end.

(** Modelled from the spec: [allocate(hsize, vsize)] of the storage
    manager, whose code is not in the header.  A buffer gets the global
    sizes asked for, which every plane must divide, and exclusive
    ownership of fresh storage with the configured margins. *)
Definition alloc (hsize vsize : Z) (w : world) : option ubuf * world :=
  if (0 <=? hsize) && (0 <=? vsize) && (0 <? w_macropixel w) &&
     sizes_fit (w_macropixel w) (w_format w) hsize vsize
  then
    let '(planes, brk') :=
      layout (w_macropixel w) (w_hmargin w) (w_vmargin w) hsize vsize
             (w_format w) (w_brk w) in
    let b := Buffer hsize vsize false (w_hmargin w) (w_hmargin w)
                    (w_vmargin w) (w_vmargin w) planes in
    (Some (w_next w),
     World (w_macropixel w) (w_format w) (w_hmargin w) (w_vmargin w)
           ((w_next w, b) :: w_bufs w) (S (w_next w)) brk')
  else (None, w).

(** Modelled from the spec: [resize_in_place] of the storage manager.  A
    pure shrink (no negative skip, new sizes within what remains after the
    skip) always succeeds; anything else needs exclusive ownership and
    enough slack on every side. *)
Definition resize (b : buffer) (macropixel hskip vskip new_hsize new_vsize : Z)
  : option buffer :=
  let hbefore := b_hbefore b + hskip in
  let hafter := b_hafter b + (b_hsize b - hskip - new_hsize) in
  let vbefore := b_vbefore b + vskip in
  let vafter := b_vafter b + (b_vsize b - vskip - new_vsize) in
  let shrink :=
    (0 <=? hskip) && (0 <=? vskip) &&
    (new_hsize <=? b_hsize b - hskip) && (new_vsize <=? b_vsize b - vskip) in
  let room :=
    (0 <=? hbefore) && (0 <=? hafter) && (0 <=? vbefore) && (0 <=? vafter) in
  if shrink || (negb (b_shared b) && room)
  then Some (Buffer new_hsize new_vsize (b_shared b)
                    hbefore hafter vbefore vafter
                    (map (fun p => BufferPlane (bp_plane p) (bp_stride p)
                                     (bp_base p + plane_offset macropixel p hskip vskip))
                         (b_planes b)))
  else None.

(** Modelled from the spec: the picture commands of the storage manager
    ([query_size], [query_plane], [iterate_plane_keys], [map_read],
    [map_write], [unmap], [resize_in_place]), whose code is not in the
    header.  An unknown buffer or plane key is an error; mapping for
    writing fails on shared storage. *)
Definition control (u : ubuf) (c : ubuf_command) (w : world)
  : option ubuf_answer * world :=
  match lookup u (w_bufs w) with
  | None => (None, w)
  | Some b =>
    match c with
    | UBUF_SIZE_PICTURE =>
      (Some (ANS_SIZE (b_hsize b) (b_vsize b) (w_macropixel w)), w)
    | UBUF_ITERATE_PICTURE_PLANE None =>
      (Some (ANS_CHROMA match b_planes b with
                        | [] => None
                        | p :: _ => Some (chroma (bp_plane p))
                        end), w)
    | UBUF_ITERATE_PICTURE_PLANE (Some k) =>
      (match plane_after k (b_planes b) with
       | Some n => Some (ANS_CHROMA n)
       | None => None
       end, w)
    | UBUF_SIZE_PICTURE_PLANE k =>
      (match find_plane k (b_planes b) with
       | Some p => Some (ANS_PLANE (bp_stride p) (hsub (bp_plane p))
                           (vsub (bp_plane p)) (macropixel_size (bp_plane p)))
       | None => None
       end, w)
    | UBUF_READ_PICTURE_PLANE k a =>
      (match find_plane k (b_planes b) with
       | Some p => Some (ANS_BUFFER (bp_base p +
                           plane_offset (w_macropixel w) p (hoffset a) (voffset a)))
       | None => None
       end, w)
    | UBUF_WRITE_PICTURE_PLANE k a =>
      (match find_plane k (b_planes b) with
       | Some p =>
         if b_shared b then None
         else Some (ANS_BUFFER (bp_base p +
                      plane_offset (w_macropixel w) p (hoffset a) (voffset a)))
       | None => None
       end, w)
    | UBUF_UNMAP_PICTURE_PLANE k a =>
      (match find_plane k (b_planes b) with
       | Some p => Some ANS_DONE
       | None => None
       end, w)
    | UBUF_RESIZE_PICTURE hskip vskip new_hsize new_vsize =>
      match resize b (w_macropixel w) hskip vskip new_hsize new_vsize with
      | Some b' => (Some ANS_DONE, update u b' w)
      | None => (None, w)
      end
    end
  end.

(** Modelled from the spec: [release(buffer)] of the storage manager. *)
Definition free (u : ubuf) (w : world) : world :=
  World (w_macropixel w) (w_format w) (w_hmargin w) (w_vmargin w)
        (remove u (w_bufs w)) (w_next w) (w_brk w).

#[global] Instance manager : ubuf_mgr world := {
  mgr_alloc_picture := alloc;
  mgr_control := control;
  mgr_free := free
}.

(** A manager whose plane iteration reports an error: every other command
    is the one of [manager]. *)
Definition control_without_iteration (u : ubuf) (c : ubuf_command) (w : world)
  : option ubuf_answer * world :=
  match c with
  | UBUF_ITERATE_PICTURE_PLANE _ => (None, w)
  | _ => control u c w
  end.

Definition manager_without_iteration : ubuf_mgr world := {|
  mgr_alloc_picture := alloc;
  mgr_control := control_without_iteration;
  mgr_free := free
|}.

(** Worlds to run on: planar 4:2:0 and packed 4:2:2, no margins, and the
    first buffer of each. *)
Definition yuv420p : list plane :=
  [Plane "y8" 1 1 1; Plane "u8" 2 2 1; Plane "v8" 2 2 1].

Definition yuyv422 : list plane := [Plane "y8u8y8v8" 1 1 4].

Definition gray : list plane := [Plane "y8" 1 1 1].

Definition empty (macropixel : Z) (format : list plane) : world :=
  World macropixel format 0 0 [] 0%nat 4096.

Definition with_picture (macropixel : Z) (format : list plane) (hsize vsize : Z)
  : world :=
  snd (alloc hsize vsize (empty macropixel format)).

End PicMem.

(** The memory all runs start from: octet [x00] everywhere. *)
Definition blank : memory := fun _ => x00.

(** The result of a normalisation as its callers see it: the absolute
    area when the check returned [true], nothing otherwise. *)
Definition normalized (r : bool * area) : option area :=
  if fst r then Some (snd r) else None.

(** The first buffer of a world of [PicMem], with blank memory. *)
Definition first_picture (macropixel : Z) (format : list PicMem.plane)
    (hsize vsize : Z) : state PicMem.world :=
  State (PicMem.with_picture macropixel format hsize vsize) blank.

(** A run of the offset check, with the integers of a refused call left
    out. *)
Definition verdict {S : Type} (r : bool * area * S * list event)
  : option area * S * list event :=
  let '(x, s, e) := r in (normalized x, s, e).

(** The absolute position an offset stands for on an axis of the given
    extent: a negative offset is a distance from the end. *)
Definition absolute_offset (extent offset : Z) : Z :=
  if offset <? 0 then extent + offset else offset.

(** ** Vocabulary for the events of a run *)

(** Every event a computation emits satisfies [P], whatever the state it
    starts from. *)
Definition emits {W A : Type} (P : event -> Prop) (m : M W A) : Prop :=
  forall s, Forall P (snd (m s)).

(** The computation leaves the octets in memory as they are. *)
Definition keeps_memory {W A : Type} (m : M W A) : Prop :=
  forall s, st_mem (snd (fst (m s))) = st_mem s.

(** A question about sizes. *)
Definition is_query (e : event) : Prop :=
  match e with
  | EvControl _ UBUF_SIZE_PICTURE _ => True
  | EvControl _ (UBUF_SIZE_PICTURE_PLANE _) _ => True
  | _ => False
  end.

(** An event that allocates nothing, releases nothing, resizes nothing,
    and maps for writing no other buffer than [new_ubuf]. *)
Definition calm (new_ubuf : ubuf) (e : event) : Prop :=
  match e with
  | EvAlloc _ _ _ => False
  | EvFree _ => False
  | EvControl p (UBUF_WRITE_PICTURE_PLANE _ _) _ => p = new_ubuf
  | EvControl _ (UBUF_RESIZE_PICTURE _ _ _ _) _ => False
  | _ => True
  end.

Definition not_iteration (e : event) : Prop :=
  match e with
  | EvControl _ (UBUF_ITERATE_PICTURE_PLANE _) _ => False
  | _ => True
  end.

Definition is_memcpy (e : event) : bool :=
  match e with
  | EvMemcpy _ _ _ => true
  | _ => false
  end.

(** The calls to [memcpy] that move [n] lines of [len] octets, each side
    advancing by its own stride. *)
Definition line_copies (n : nat) (new_buffer buffer len new_stride stride : Z)
  : list event :=
  map (fun i => EvMemcpy (new_buffer + Z.of_nat i * new_stride)
                         (buffer + Z.of_nat i * stride) len)
      (seq 0 n).

(** What those calls do to the memory. *)
Fixpoint mem_copy_lines (n : nat) (m : memory)
    (new_buffer buffer len new_stride stride : Z) : memory :=
  match n with
  | O => m
  | S n' =>
    mem_copy_lines n' (mem_copy m new_buffer buffer len)
                   (new_buffer + new_stride) (buffer + stride)
                   len new_stride stride
  end.

(** The octets per line in the words of the spec: the copied width
    divided by the horizontal subsampling of the plane and multiplied by
    its macropixel size. *)
Definition spec_line_octets (extract_hsize hsub macropixel_size : Z) : Z :=
  extract_hsize / hsub * macropixel_size.

(** An area given in absolute terms: no offset from the end, no size left
    open. *)
Definition absolute (a : area) : Prop :=
  0 <= hoffset a /\ 0 <= voffset a /\ hsize a <> -1 /\ vsize a <> -1.

Definition no_memcpy (e : event) : Prop := is_memcpy e = false.

(** The computation leaves the state of the manager of [PicMem] as it
    is. *)
Definition keeps_world {A : Type} (m : M PicMem.world A) : Prop :=
  forall s, st_mgr (snd (fst (m s))) = st_mgr s.

Definition is_resize (c : ubuf_command) : bool :=
  match c with
  | UBUF_RESIZE_PICTURE _ _ _ _ => true
  | _ => false
  end.

(** The keys of the planes of a buffer of [PicMem], in iteration order. *)
Definition plane_keys (b : PicMem.buffer) : list string :=
  map (fun p => PicMem.chroma (PicMem.bp_plane p)) (PicMem.b_planes b).

(** The handles of the live buffers of a world of [PicMem] are older than
    the next one it will hand out. *)
Definition handles_below (w : PicMem.world) : Prop :=
  forall k b, In (k, b) (PicMem.w_bufs w) -> (k < PicMem.w_next w)%nat.

(** The plane and the area a command maps or unmaps. *)
Definition plane_access_area (c : ubuf_command) : option (string * area) :=
  match c with
  | UBUF_READ_PICTURE_PLANE chroma a => Some (chroma, a)
  | UBUF_WRITE_PICTURE_PLANE chroma a => Some (chroma, a)
  | UBUF_UNMAP_PICTURE_PLANE chroma a => Some (chroma, a)
  | _ => None
  end.

(** The buffers handed out and the buffers released in a run, counted. *)
Definition is_allocation (e : event) : bool :=
  match e with
  | EvAlloc _ _ (Some _) => true
  | _ => false
  end.

Definition is_release (e : event) : bool :=
  match e with
  | EvFree _ => true
  | _ => false
  end.

Definition allocations (evs : list event) : nat :=
  List.length (filter is_allocation evs).

Definition releases (evs : list event) : nat :=
  List.length (filter is_release evs).

(** An event of a copy from [u] into [new_ubuf] once the new buffer is
    there: no allocation, no resize, no release of another buffer than
    the new one; the old buffer is the only one mapped for reading, the new
    one the only one mapped for writing, and no third one is unmapped. *)
Definition within (u new_ubuf : ubuf) (e : event) : Prop :=
  match e with
  | EvAlloc _ _ _ => False
  | EvFree p => p = new_ubuf
  | EvControl p (UBUF_READ_PICTURE_PLANE _ _) _ => p = u
  | EvControl p (UBUF_WRITE_PICTURE_PLANE _ _) _ => p = new_ubuf
  | EvControl p (UBUF_UNMAP_PICTURE_PLANE _ _) _ => p = u \/ p = new_ubuf
  | EvControl _ (UBUF_RESIZE_PICTURE _ _ _ _) _ => False
  | _ => True
  end.

(** The memories hold the same octets. *)
Definition same_octets (m m' : memory) : Prop := forall x, m' x = m x.

(** The computation leaves every octet in memory as it is. *)
Definition keeps_octets {W A : Type} (m : M W A) : Prop :=
  forall s, same_octets (st_mem s) (st_mem (snd (fst (m s)))).

(** The plane loop of [ubuf_pic_copy] (line 392) when it is left by its
    condition, as a relation between the plane it starts from, the state
    before, the events and the state after.  The loop asks for the plane
    that follows [chroma].  When the answer is an error or no plane, it
    ends there.  When a plane is announced, the body of the loop runs on
    it with success, and the loop goes on from that plane. *)
Inductive plane_walk {W : Type} {mgr : ubuf_mgr W}
    (u new_ubuf : ubuf) (macropixel : Z) (to_area from_area : area)
  : option string -> state W -> list event -> state W -> Prop :=
| walk_end chroma s r s' e :
    ubuf_pic_plane_iterate u chroma s = (r, s', e) ->
    (forall c, r <> Some (Some c)) ->
    plane_walk u new_ubuf macropixel to_area from_area chroma s e s'
| walk_plane chroma s c sa e0 sb e rest s' :
    ubuf_pic_plane_iterate u chroma s = (Some (Some c), sa, e0) ->
    copy_plane u new_ubuf macropixel to_area from_area c sa = (true, sb, e) ->
    plane_walk u new_ubuf macropixel to_area from_area (Some c) sb rest s' ->
    plane_walk u new_ubuf macropixel to_area from_area chroma s
      (e0 ++ e ++ rest) s'.

(** * Properties *)

(** ** Conversions *)

Lemma to_int_id (z : Z) : is_int z -> to_int z = z.
Proof.
  unfold is_int, INT_MIN, INT_MAX, to_int. intros H.
  rewrite Z.mod_small; lia.
Qed.

Lemma to_size_id (z : Z) : is_size z -> to_size z = z.
Proof.
  unfold is_size, SIZE_MAX, to_size. intros H.
  rewrite Z.mod_small; lia.
Qed.

Lemma to_int_to_size (z : Z) : to_int (to_size z) = to_int z.
Proof.
  unfold to_int, to_size.
  rewrite (Z.mod_eq z (2 ^ 64)) by lia.
  replace (z - 2 ^ 64 * (z / 2 ^ 64) + 2 ^ 31)
    with (z + 2 ^ 31 + (- (z / 2 ^ 64) * 2 ^ 32) * 2 ^ 32) by lia.
  rewrite Z.mod_add by lia. reflexivity.
Qed.

Lemma to_size_add_l (a b : Z) : to_size (to_size a + b) = to_size (a + b).
Proof. unfold to_size. apply Zplus_mod_idemp_l. Qed.

Lemma to_size_sub_r (a b : Z) : to_size (a - to_size b) = to_size (a - b).
Proof. unfold to_size. apply Zminus_mod_idemp_r. Qed.

(** [x += size] on an [int] [x]. *)
Lemma int_plus_size (x size : Z) :
  to_int (to_size (to_size x + size)) = to_int (x + size).
Proof. now rewrite to_size_add_l, to_int_to_size. Qed.

(** [size - x] stored in an [int]. *)
Lemma int_of_size_minus (x size : Z) :
  to_int (to_size (size - to_size x)) = to_int (size - x).
Proof. now rewrite to_size_sub_r, to_int_to_size. Qed.

Lemma nonzero_false (z : Z) : nonzero z = false <-> z = 0.
Proof. unfold nonzero. rewrite negb_false_iff. apply Z.eqb_eq. Qed.

Lemma nonzero_true (z : Z) : nonzero z = true <-> z <> 0.
Proof. unfold nonzero. rewrite negb_true_iff. apply Z.eqb_neq. Qed.

Ltac int_ranges :=
  unfold is_int, is_size, is_uint8, INT_MIN, INT_MAX, SIZE_MAX in *.

(** ** Running the queries *)

Section Queries.

Context {W : Type} {mgr : ubuf_mgr W}.

Implicit Types (s : state W) (u : ubuf) (a : area).

Lemma ubuf_control_run u c s :
  ubuf_control u c s =
  (fst (mgr_control u c (st_mgr s)),
   State (snd (mgr_control u c (st_mgr s))) (st_mem s),
   [EvControl u c (fst (mgr_control u c (st_mgr s)))]).
Proof. unfold ubuf_control. now destruct (mgr_control u c (st_mgr s)). Qed.

(** The offset check, once the answer to its first query is known. *)
Lemma check_offset_run u chroma a s ubuf_hsize ubuf_vsize macropixel s1 e1 :
  ubuf_pic_size u s = (Some (ubuf_hsize, ubuf_vsize, macropixel), s1, e1) ->
  ubuf_pic_plane_check_offset u chroma a s =
  if offset_out_of_picture ubuf_hsize ubuf_vsize a then (false, a, s1, e1)
  else
    let a1 := resolve_offset ubuf_hsize ubuf_vsize a in
    if off_macropixel macropixel a1 then (false, a1, s1, e1)
    else
      let '(ps, s2, e2) := ubuf_pic_plane_size u chroma s1 in
      match ps with
      | None => (false, a1, s2, e1 ++ e2)
      | Some (_, hsub, vsub, _) =>
        (negb (off_subsampling hsub vsub a1), a1, s2, e1 ++ e2)
      end.
Proof.
  intros Hsz. unfold ubuf_pic_plane_check_offset, bind. rewrite Hsz.
  destruct (offset_out_of_picture _ _ a).
  - unfold ret. now rewrite app_nil_r.
  - cbv zeta.
    destruct (off_macropixel _ _).
    + unfold ret. now rewrite app_nil_r.
    + destruct (ubuf_pic_plane_size u chroma s1) as [[ps s2] e2].
      destruct ps as [[[[stride hsub] vsub] mps]|].
      * destruct (off_subsampling _ _ _); unfold ret; cbn [negb];
          now rewrite app_nil_r.
      * unfold ret. now rewrite app_nil_r.
Qed.

Lemma check_offset_no_size u chroma a s s1 e1 :
  ubuf_pic_size u s = (None, s1, e1) ->
  ubuf_pic_plane_check_offset u chroma a s = (false, a, s1, e1).
Proof.
  intros Hsz. unfold ubuf_pic_plane_check_offset, bind. rewrite Hsz.
  unfold ret. now rewrite app_nil_r.
Qed.

End Queries.

(** ** The offset check *)

Ltac cmp_false e :=
  replace e with false
    by (symmetry; rewrite ?Z.gtb_ltb; first [apply Z.ltb_ge | apply Z.leb_gt | apply Z.eqb_neq]; lia).

Ltac cmp_true e :=
  replace e with true
    by (symmetry; rewrite ?Z.gtb_ltb; first [apply Z.ltb_lt | apply Z.leb_le | apply Z.eqb_eq]; lia).

Section CheckOffset.

Context {W : Type} {mgr : ubuf_mgr W}.

Implicit Types (s : state W) (u : ubuf) (a : area).

(** With an offset of [-k] or of [extent - k], the first test sees no
    difference, for a size that fits in the [k] units left. *)
Lemma out_of_picture_from_end_h eh ev k sz vo sv :
  0 <= eh <= INT_MAX -> 0 < k <= eh -> -1 <= sz <= k ->
  offset_out_of_picture eh ev (Area (- k) vo sz sv) =
  offset_out_of_picture eh ev (Area (eh - k) vo sz sv).
Proof.
  intros He Hk Hs. unfold offset_out_of_picture, int_add.
  cbn [hoffset hsize voffset vsize]. int_ranges.
  rewrite (to_int_id eh) by (int_ranges; lia).
  rewrite (to_int_id (- k + sz)) by (int_ranges; lia).
  rewrite (to_int_id (eh - k + sz)) by (int_ranges; lia).
  cmp_false (- k >? eh). cmp_false (eh - k >? eh).
  cmp_false (- k + sz >? eh). cmp_false (eh - k + sz >? eh).
  reflexivity.
Qed.

Lemma out_of_picture_from_end_v eh ev k sz ho sh :
  0 <= ev <= INT_MAX -> 0 < k <= ev -> -1 <= sz <= k ->
  offset_out_of_picture eh ev (Area ho (- k) sh sz) =
  offset_out_of_picture eh ev (Area ho (ev - k) sh sz).
Proof.
  intros He Hk Hs. unfold offset_out_of_picture, int_add.
  cbn [hoffset hsize voffset vsize]. int_ranges.
  rewrite (to_int_id ev) by (int_ranges; lia).
  rewrite (to_int_id (- k + sz)) by (int_ranges; lia).
  rewrite (to_int_id (ev - k + sz)) by (int_ranges; lia).
  cmp_false (- k >? ev). cmp_false (ev - k >? ev).
  cmp_false (- k + sz >? ev). cmp_false (ev - k + sz >? ev).
  reflexivity.
Qed.

(** An offset of [-k] resolves to [extent - k], which resolves to itself. *)
Lemma resolve_from_end_h eh ev k sz vo sv :
  0 <= eh <= INT_MAX -> 0 < k <= eh ->
  resolve_offset eh ev (Area (- k) vo sz sv) =
  resolve_offset eh ev (Area (eh - k) vo sz sv).
Proof.
  intros He Hk. unfold resolve_offset. cbn [hoffset hsize voffset vsize].
  int_ranges.
  cmp_true (- k <? 0). cmp_false (eh - k <? 0).
  rewrite (int_plus_size (- k) eh).
  rewrite (to_int_id (- k + eh)) by (int_ranges; lia).
  replace (- k + eh) with (eh - k) by lia. reflexivity.
Qed.

Lemma resolve_from_end_v eh ev k sz ho sh :
  0 <= ev <= INT_MAX -> 0 < k <= ev ->
  resolve_offset eh ev (Area ho (- k) sh sz) =
  resolve_offset eh ev (Area ho (ev - k) sh sz).
Proof.
  intros He Hk. unfold resolve_offset. cbn [hoffset hsize voffset vsize].
  int_ranges.
  cmp_true (- k <? 0). cmp_false (ev - k <? 0).
  rewrite (int_plus_size (- k) ev).
  rewrite (to_int_id (- k + ev)) by (int_ranges; lia).
  replace (- k + ev) with (ev - k) by lia. reflexivity.
Qed.

(** Two areas that the first test and the resolution do not tell apart
    get the same verdict, the same manager state, the same events. *)
Lemma check_offset_ext u chroma a b s eh ev mp s1 e1 :
  ubuf_pic_size u s = (Some (eh, ev, mp), s1, e1) ->
  offset_out_of_picture eh ev a = offset_out_of_picture eh ev b ->
  resolve_offset eh ev a = resolve_offset eh ev b ->
  verdict (ubuf_pic_plane_check_offset u chroma a s) =
  verdict (ubuf_pic_plane_check_offset u chroma b s).
Proof.
  intros Hsz Ha Hr.
  rewrite (check_offset_run u chroma a s _ _ _ _ _ Hsz).
  rewrite (check_offset_run u chroma b s _ _ _ _ _ Hsz).
  rewrite Ha, Hr.
  destruct (offset_out_of_picture eh ev b); reflexivity.
Qed.

End CheckOffset.

Section Normalisation.

Context {W : Type} {mgr : ubuf_mgr W}.

Implicit Types (s : state W) (u : ubuf) (a : area).

(** C5.  On a picture of extents [eh] by [ev], an offset of [-k] and an
    offset of [extent - k] are normalised alike, for every [k] between 1
    and the extent and every size that is -1 or fits in the [k] units that
    follow: the call is accepted or refused in both cases, with the same
    absolute area, the same queries to the manager and the same final
    state.  This holds on the horizontal axis, on the vertical axis, and on
    both at once. *)
Theorem negative_offset_equivalence
    u chroma s eh ev mp s1 e1 kh kv sh sv ho vo sh0 sv0 :
  ubuf_pic_size u s = (Some (eh, ev, mp), s1, e1) ->
  0 <= eh <= INT_MAX -> 0 <= ev <= INT_MAX ->
  0 < kh <= eh -> -1 <= sh <= kh ->
  0 < kv <= ev -> -1 <= sv <= kv ->
  verdict (ubuf_pic_plane_check_offset u chroma (Area (- kh) vo sh sv0) s) =
  verdict (ubuf_pic_plane_check_offset u chroma (Area (eh - kh) vo sh sv0) s)
  /\
  verdict (ubuf_pic_plane_check_offset u chroma (Area ho (- kv) sh0 sv) s) =
  verdict (ubuf_pic_plane_check_offset u chroma (Area ho (ev - kv) sh0 sv) s)
  /\
  verdict (ubuf_pic_plane_check_offset u chroma (Area (- kh) (- kv) sh sv) s) =
  verdict (ubuf_pic_plane_check_offset u chroma (Area (eh - kh) (ev - kv) sh sv) s).
Proof.
  intros Hsz Heh Hev Hkh Hsh Hkv Hsv.
  assert (Hh : forall vo' sv',
    verdict (ubuf_pic_plane_check_offset u chroma (Area (- kh) vo' sh sv') s) =
    verdict (ubuf_pic_plane_check_offset u chroma (Area (eh - kh) vo' sh sv') s)).
  { intros. eapply check_offset_ext; eauto.
    - now apply out_of_picture_from_end_h.
    - now apply resolve_from_end_h. }
  assert (Hv : forall ho' sh',
    verdict (ubuf_pic_plane_check_offset u chroma (Area ho' (- kv) sh' sv) s) =
    verdict (ubuf_pic_plane_check_offset u chroma (Area ho' (ev - kv) sh' sv) s)).
  { intros. eapply check_offset_ext; eauto.
    - now apply out_of_picture_from_end_v.
    - now apply resolve_from_end_v. }
  repeat split.
  - apply Hh.
  - apply Hv.
  - rewrite Hh. apply Hv.
Qed.

(** C8.  Once the picture sizes are known, an area whose resolved
    horizontal offset or horizontal size is not a multiple of the
    macropixel is refused, and refused before the plane is looked at: the
    only query made is the one for the picture sizes.  And whatever
    subsampling the manager then reports for the plane, an area whose
    resolved offset or size is not a multiple of the subsampling of its
    axis is refused. *)
Theorem alignment_rejection u chroma a s eh ev mp s1 e1 :
  ubuf_pic_size u s = (Some (eh, ev, mp), s1, e1) ->
  let r := resolve_offset eh ev a in
  (int_rem (hoffset r) mp <> 0 \/ int_rem (hsize r) mp <> 0 ->
   fst (fst (fst (ubuf_pic_plane_check_offset u chroma a s))) = false /\
   snd (ubuf_pic_plane_check_offset u chroma a s) = e1)
  /\
  (forall stride hsub vsub mps s2 e2,
     ubuf_pic_plane_size u chroma s1 = (Some (stride, hsub, vsub, mps), s2, e2) ->
     int_rem (hoffset r) hsub <> 0 \/ int_rem (hsize r) hsub <> 0 \/
     int_rem (voffset r) vsub <> 0 \/ int_rem (vsize r) vsub <> 0 ->
     fst (fst (fst (ubuf_pic_plane_check_offset u chroma a s))) = false).
Proof.
  intros Hsz r. rewrite (check_offset_run u chroma a s _ _ _ _ _ Hsz).
  fold r. split.
  - intros Hmp.
    assert (Hoff : off_macropixel mp r = true).
    { unfold off_macropixel. apply orb_true_iff.
      destruct Hmp as [H | H]; [left | right]; now apply nonzero_true. }
    destruct (offset_out_of_picture eh ev a); [now split|].
    cbv zeta. rewrite Hoff. now split.
  - intros stride hsub vsub mps s2 e2 Hps Hsub.
    destruct (offset_out_of_picture eh ev a); [reflexivity|].
    cbv zeta. destruct (off_macropixel mp r); [reflexivity|].
    rewrite Hps. cbn.
    assert (Hoff : off_subsampling hsub vsub r = true).
    { unfold off_subsampling. rewrite !orb_true_iff.
      destruct Hsub as [H | [H | [H | H]]];
        [left; left; left | left; left; right | left; right | right];
        now apply nonzero_true. }
    now rewrite Hoff.
Qed.

End Normalisation.


Lemma negative_offset_equivalence_witness :
  verdict (ubuf_pic_plane_check_offset 0%nat "y8" (Area (- 2) 0 2 1)
             (first_picture 1 PicMem.gray 4 2)) =
  verdict (ubuf_pic_plane_check_offset 0%nat "y8" (Area (4 - 2) 0 2 1)
             (first_picture 1 PicMem.gray 4 2))
  /\
  verdict (ubuf_pic_plane_check_offset 0%nat "y8" (Area 0 (- 1) 4 (- 1))
             (first_picture 1 PicMem.gray 4 2)) =
  verdict (ubuf_pic_plane_check_offset 0%nat "y8" (Area 0 (2 - 1) 4 (- 1))
             (first_picture 1 PicMem.gray 4 2))
  /\
  verdict (ubuf_pic_plane_check_offset 0%nat "y8" (Area (- 2) (- 1) 2 (- 1))
             (first_picture 1 PicMem.gray 4 2)) =
  verdict (ubuf_pic_plane_check_offset 0%nat "y8" (Area (4 - 2) (2 - 1) 2 (- 1))
             (first_picture 1 PicMem.gray 4 2)).
Proof.
  eapply (negative_offset_equivalence (mgr := PicMem.manager) 0%nat "y8"
            (first_picture 1 PicMem.gray 4 2) 4 2 1 _ _ 2 1 2 (- 1) 0 0 4 1).
  - reflexivity.
  - unfold INT_MAX; lia.
  - unfold INT_MAX; lia.
  - lia.
  - lia.
  - lia.
  - lia.
Defined.

Lemma alignment_rejection_witness :
  (fst (fst (fst (ubuf_pic_plane_check_offset 0%nat "y8u8y8v8" (Area 1 0 2 1)
                    (first_picture 2 PicMem.yuyv422 4 2)))) = false /\
   snd (ubuf_pic_plane_check_offset 0%nat "y8u8y8v8" (Area 1 0 2 1)
          (first_picture 2 PicMem.yuyv422 4 2)) =
   [EvControl 0%nat UBUF_SIZE_PICTURE (Some (ANS_SIZE 4 2 2))])
  /\
  fst (fst (fst (ubuf_pic_plane_check_offset 0%nat "u8" (Area 1 0 2 2)
                   (first_picture 1 PicMem.yuv420p 4 2)))) = false.
Proof.
  split.
  - apply (alignment_rejection (mgr := PicMem.manager) 0%nat "y8u8y8v8"
             (Area 1 0 2 1) (first_picture 2 PicMem.yuyv422 4 2) 4 2 2 _ _
             eq_refl).
    left. vm_compute. discriminate.
  - eapply (alignment_rejection (mgr := PicMem.manager) 0%nat "u8"
              (Area 1 0 2 2) (first_picture 1 PicMem.yuv420p 4 2) 4 2 1 _ _
              eq_refl).
    + reflexivity.
    + left. vm_compute. discriminate.
Defined.

Section OpenSize.

Context {W : Type} {mgr : ubuf_mgr W}.

Implicit Types (s : state W) (u : ubuf) (a : area).

Lemma out_of_picture_open_h eh ev o vo sv :
  0 <= eh <= INT_MAX -> INT_MIN < o <= INT_MAX ->
  offset_out_of_picture eh ev (Area o vo (- 1) sv) =
  offset_out_of_picture eh ev (Area o vo (eh - absolute_offset eh o) sv).
Proof.
  intros He Ho. unfold offset_out_of_picture, int_add, absolute_offset.
  cbn [hoffset hsize voffset vsize]. int_ranges.
  rewrite (to_int_id eh) by (int_ranges; lia).
  rewrite (to_int_id (o + - 1)) by (int_ranges; lia).
  destruct (Z.ltb_spec o 0) as [Hneg | Hpos].
  - rewrite (to_int_id (o + (eh - (eh + o)))) by (int_ranges; lia).
    cmp_false (o >? eh). cmp_false (o + - 1 >? eh).
    cmp_false (o + (eh - (eh + o)) >? eh). reflexivity.
  - destruct (Z.ltb_spec eh o) as [Hout | Hin].
    + cmp_true (o >? eh). reflexivity.
    + rewrite (to_int_id (o + (eh - o))) by (int_ranges; lia).
      cmp_false (o + - 1 >? eh). cmp_false (o + (eh - o) >? eh). reflexivity.
Qed.

Lemma out_of_picture_open_v eh ev o ho sh :
  0 <= ev <= INT_MAX -> INT_MIN < o <= INT_MAX ->
  offset_out_of_picture eh ev (Area ho o sh (- 1)) =
  offset_out_of_picture eh ev (Area ho o sh (ev - absolute_offset ev o)).
Proof.
  intros He Ho. unfold offset_out_of_picture, int_add, absolute_offset.
  cbn [hoffset hsize voffset vsize]. int_ranges.
  rewrite (to_int_id ev) by (int_ranges; lia).
  rewrite (to_int_id (o + - 1)) by (int_ranges; lia).
  destruct (Z.ltb_spec o 0) as [Hneg | Hpos].
  - rewrite (to_int_id (o + (ev - (ev + o)))) by (int_ranges; lia).
    cmp_false (o >? ev). cmp_false (o + - 1 >? ev).
    cmp_false (o + (ev - (ev + o)) >? ev). reflexivity.
  - destruct (Z.ltb_spec ev o) as [Hout | Hin].
    + cmp_true (o >? ev). now rewrite !orb_true_r.
    + rewrite (to_int_id (o + (ev - o))) by (int_ranges; lia).
      cmp_false (o + - 1 >? ev). cmp_false (o + (ev - o) >? ev). reflexivity.
Qed.

(** The length a size of -1 resolves to, and that length passed as is. *)
Lemma resolve_open_h eh ev o vo sv :
  0 <= eh <= INT_MAX -> INT_MIN < o <= INT_MAX ->
  resolve_offset eh ev (Area o vo (- 1) sv) =
  resolve_offset eh ev (Area o vo (eh - absolute_offset eh o) sv).
Proof.
  intros He Ho. unfold resolve_offset, absolute_offset.
  cbn [hoffset hsize voffset vsize]. int_ranges.
  rewrite (int_plus_size o eh). rewrite !int_of_size_minus.
  change (-1 =? -1) with true. cbv iota.
  destruct (Z.ltb_spec o 0) as [Hneg | Hpos].
  - rewrite (to_int_id (o + eh)) by (int_ranges; lia).
    rewrite (to_int_id (eh - (o + eh))) by (int_ranges; lia).
    cmp_false (eh - (eh + o) =? -1).
    f_equal; lia.
  - rewrite (to_int_id (eh - o)) by (int_ranges; lia).
    destruct (eh - o =? -1); reflexivity.
Qed.

Lemma resolve_open_v eh ev o ho sh :
  0 <= ev <= INT_MAX -> INT_MIN < o <= INT_MAX ->
  resolve_offset eh ev (Area ho o sh (- 1)) =
  resolve_offset eh ev (Area ho o sh (ev - absolute_offset ev o)).
Proof.
  intros He Ho. unfold resolve_offset, absolute_offset.
  cbn [hoffset hsize voffset vsize]. int_ranges.
  rewrite (int_plus_size o ev). rewrite !int_of_size_minus.
  change (-1 =? -1) with true. cbv iota.
  destruct (Z.ltb_spec o 0) as [Hneg | Hpos].
  - rewrite (to_int_id (o + ev)) by (int_ranges; lia).
    rewrite (to_int_id (ev - (o + ev))) by (int_ranges; lia).
    cmp_false (ev - (ev + o) =? -1).
    f_equal; lia.
  - rewrite (to_int_id (ev - o)) by (int_ranges; lia).
    destruct (ev - o =? -1); reflexivity.
Qed.

(** C9, amended.  On an axis of extent [e], an offset [o] with a size of
    -1 is normalised like the same offset with the explicit size
    [e - o'], where [o'] is the absolute offset [o] stands for ([o] itself
    when it is not negative, [e + o] when it is): same acceptance or
    refusal, same absolute area, same queries and final state. *)
Theorem open_size_equivalence u chroma s eh ev mp s1 e1 o ho vo sh sv :
  ubuf_pic_size u s = (Some (eh, ev, mp), s1, e1) ->
  0 <= eh <= INT_MAX -> 0 <= ev <= INT_MAX -> INT_MIN < o <= INT_MAX ->
  verdict (ubuf_pic_plane_check_offset u chroma (Area o vo (- 1) sv) s) =
  verdict (ubuf_pic_plane_check_offset u chroma
             (Area o vo (eh - absolute_offset eh o) sv) s)
  /\
  verdict (ubuf_pic_plane_check_offset u chroma (Area ho o sh (- 1)) s) =
  verdict (ubuf_pic_plane_check_offset u chroma
             (Area ho o sh (ev - absolute_offset ev o)) s).
Proof.
  intros Hsz Heh Hev Ho. split.
  - eapply check_offset_ext; eauto.
    + now apply out_of_picture_open_h.
    + now apply resolve_open_h.
  - eapply check_offset_ext; eauto.
    + now apply out_of_picture_open_v.
    + now apply resolve_open_v.
Qed.

End OpenSize.

Lemma open_size_equivalence_witness :
  verdict (ubuf_pic_plane_check_offset 0%nat "y8" (Area (- 1) 0 (- 1) 1)
             (first_picture 1 PicMem.gray 4 2)) =
  verdict (ubuf_pic_plane_check_offset 0%nat "y8"
             (Area (- 1) 0 (4 - absolute_offset 4 (- 1)) 1)
             (first_picture 1 PicMem.gray 4 2))
  /\
  verdict (ubuf_pic_plane_check_offset 0%nat "y8" (Area 0 (- 1) 4 (- 1))
             (first_picture 1 PicMem.gray 4 2)) =
  verdict (ubuf_pic_plane_check_offset 0%nat "y8"
             (Area 0 (- 1) 4 (2 - absolute_offset 2 (- 1)))
             (first_picture 1 PicMem.gray 4 2)).
Proof.
  eapply (open_size_equivalence (mgr := PicMem.manager) 0%nat "y8"
            (first_picture 1 PicMem.gray 4 2) 4 2 1 _ _ (- 1) 0 0 4 1).
  - reflexivity.
  - unfold INT_MAX; lia.
  - unfold INT_MAX; lia.
  - unfold INT_MIN, INT_MAX; lia.
Defined.

(** C9 as stated fails for a negative offset: on a line of 4 pixels,
    offset -1 with size -1 gives the last pixel, [(3, 1)], while offset -1
    with size [4 - (-1) = 5] is accepted as [(3, 5)]. *)
Lemma open_size_literal_counterexample :
  verdict (ubuf_pic_plane_check_offset 0%nat "y8" (Area (- 1) 0 (- 1) 1)
             (first_picture 1 PicMem.gray 4 2)) <>
  verdict (ubuf_pic_plane_check_offset 0%nat "y8" (Area (- 1) 0 (4 - (- 1)) 1)
             (first_picture 1 PicMem.gray 4 2)).
Proof. vm_compute. discriminate. Qed.

(** C1.  The bounds are tested on the arguments as passed, before a
    negative offset is resolved: on a picture of 4 by 2, the area of offset
    -1 and size 3 is accepted and comes back as offset 3, size 3, which
    ends 2 pixels after the end of the line; and the area of offset -6 is
    accepted and comes back with the negative offset -2. *)
Theorem check_offset_accepts_area_outside :
  fst (fst (ubuf_pic_plane_check_offset 0%nat "y8" (Area (- 1) 0 3 1)
              (first_picture 1 PicMem.gray 4 2))) = (true, Area 3 0 3 1)
  /\ 3 + 3 > 4
  /\ fst (fst (ubuf_pic_plane_check_offset 0%nat "y8" (Area (- 6) 0 1 1)
                 (first_picture 1 PicMem.gray 4 2))) = (true, Area (- 2) 0 1 1).
Proof. repeat split. Qed.

(** C10.  A refused call may already have rewritten its arguments: on a
    packed picture of 4 by 2 with a macropixel of 2, the area of offset -1
    and size -1 is refused for its alignment after its offset has become 3
    and its size 1. *)
Theorem check_offset_refuses_after_rewriting :
  exists (s : state PicMem.world) u chroma a,
    let r := fst (fst (ubuf_pic_plane_check_offset u chroma a s)) in
    fst r = false /\ snd r <> a /\
    a = Area (- 1) 0 (- 1) 1 /\ snd r = Area 3 0 1 1.
Proof.
  exists (first_picture 2 PicMem.yuyv422 4 2), 0%nat, "y8u8y8v8"%string,
         (Area (- 1) 0 (- 1) 1).
  vm_compute. repeat split. discriminate.
Qed.

(** ** The resize check and the resize *)

Section CheckResize.

Context {W : Type} {mgr : ubuf_mgr W}.

Implicit Types (s : state W) (u : ubuf).

Lemma check_resize_run u hskip vskip new_hsize new_vsize s eh ev mp s1 e1 :
  ubuf_pic_size u s = (Some (eh, ev, mp), s1, e1) ->
  ubuf_pic_check_resize u hskip vskip new_hsize new_vsize s =
  (if (hskip >? to_int eh) || (vskip >? to_int ev) then None
   else
     let new_hsize1 := resolve_new_size eh hskip new_hsize in
     let new_vsize1 := resolve_new_size ev vskip new_vsize in
     if (new_hsize1 <? int_neg hskip) || (new_vsize1 <? int_neg vskip) then None
     else if resize_off_macropixel mp hskip new_hsize1 then None
     else Some (ResizeGeometry hskip vskip new_hsize1 new_vsize1 eh ev mp),
   s1, e1).
Proof.
  intros Hsz. unfold ubuf_pic_check_resize, bind. rewrite Hsz.
  destruct ((hskip >? to_int eh) || (vskip >? to_int ev)).
  - unfold ret. now rewrite app_nil_r.
  - cbv zeta.
    destruct ((_ <? int_neg hskip) || (_ <? int_neg vskip)).
    + unfold ret. now rewrite app_nil_r.
    + destruct (resize_off_macropixel _ _ _); unfold ret; now rewrite app_nil_r.
Qed.

Lemma check_resize_no_size u hskip vskip new_hsize new_vsize s s1 e1 :
  ubuf_pic_size u s = (None, s1, e1) ->
  ubuf_pic_check_resize u hskip vskip new_hsize new_vsize s = (None, s1, e1).
Proof.
  intros Hsz. unfold ubuf_pic_check_resize, bind. rewrite Hsz.
  unfold ret. now rewrite app_nil_r.
Qed.

Lemma resolve_new_size_exact extent skip new_size :
  is_int (extent - skip) ->
  resolve_new_size extent skip new_size =
  if new_size =? -1 then extent - skip else new_size.
Proof.
  intros H. unfold resolve_new_size.
  now rewrite int_of_size_minus, to_int_id.
Qed.

Lemma resize_off_macropixel_false mp hskip new_hsize :
  INT_MIN < hskip <= INT_MAX ->
  resize_off_macropixel mp hskip new_hsize = false <->
  int_rem hskip mp = 0 /\ int_rem new_hsize mp = 0.
Proof.
  intros Hs. unfold resize_off_macropixel, int_neg, int_rem.
  rewrite (to_int_id (- hskip)) by (int_ranges; lia).
  rewrite Z.rem_opp_l'.
  rewrite !orb_false_iff, !andb_false_iff, !nonzero_false.
  rewrite Z.ltb_ge, Z.gtb_ltb, Z.ltb_ge.
  split.
  - intros [[[H1 | H1] [H2 | H2]] H3]; split; try assumption; try lia.
    assert (hskip = 0) by lia. subst hskip. now destruct mp.
  - intros [H1 H3]. repeat split; try assumption.
    + right. lia.
    + now right.
Qed.

(** The arguments that pass every test of the resize check. *)
Lemma check_resize_accepts
    u s hskip vskip new_hsize new_vsize eh ev mp s1 e1 :
  ubuf_pic_size u s = (Some (eh, ev, mp), s1, e1) ->
  0 <= eh <= INT_MAX -> 0 <= ev <= INT_MAX ->
  INT_MIN < hskip <= eh -> INT_MIN < vskip <= ev ->
  eh - hskip <= INT_MAX -> ev - vskip <= INT_MAX ->
  - hskip <= (if new_hsize =? -1 then eh - hskip else new_hsize) ->
  - vskip <= (if new_vsize =? -1 then ev - vskip else new_vsize) ->
  int_rem hskip mp = 0 ->
  int_rem (if new_hsize =? -1 then eh - hskip else new_hsize) mp = 0 ->
  ubuf_pic_check_resize u hskip vskip new_hsize new_vsize s =
  (Some (ResizeGeometry hskip vskip
           (if new_hsize =? -1 then eh - hskip else new_hsize)
           (if new_vsize =? -1 then ev - vskip else new_vsize) eh ev mp),
   s1, e1).
Proof.
  intros Hsz Heh Hev Hh Hv Hgh Hgv Hnh Hnv Hah Has.
  rewrite (check_resize_run _ _ _ _ _ _ _ _ _ _ _ Hsz).
  rewrite (to_int_id eh), (to_int_id ev) by (int_ranges; lia).
  unfold int_neg.
  rewrite (to_int_id (- hskip)), (to_int_id (- vskip)) by (int_ranges; lia).
  cmp_false (hskip >? eh). cmp_false (vskip >? ev). cbn [orb]. cbv zeta.
  rewrite !resolve_new_size_exact by (int_ranges; lia).
  replace (_ <? - hskip) with false by (symmetry; apply Z.ltb_ge; lia).
  replace (_ <? - vskip) with false by (symmetry; apply Z.ltb_ge; lia).
  cbn [orb].
  replace (resize_off_macropixel mp hskip _) with false; [reflexivity|].
  symmetry. apply resize_off_macropixel_false; [int_ranges; lia | now split].
Qed.

(** C7.  On a picture of extents [eh] by [ev] and macropixel [mp], the
    resize check turns a new size of -1 into [extent - skip] on its axis
    (also for a negative skip), and accepts exactly when, on each axis, the
    skip is no more than the extent and the resolved new size is at least
    [- skip], and the horizontal skip and the resolved horizontal size are
    multiples of the macropixel; it then hands back the skips, the resolved
    sizes, the extents and the macropixel.  In every other case it returns
    false. *)
Theorem check_resize_accepts_iff
    u s hskip vskip new_hsize new_vsize eh ev mp s1 e1 :
  ubuf_pic_size u s = (Some (eh, ev, mp), s1, e1) ->
  0 <= eh <= INT_MAX -> 0 <= ev <= INT_MAX ->
  INT_MIN < hskip <= INT_MAX -> INT_MIN < vskip <= INT_MAX ->
  eh - hskip <= INT_MAX -> ev - vskip <= INT_MAX ->
  let new_hsize1 := if new_hsize =? -1 then eh - hskip else new_hsize in
  let new_vsize1 := if new_vsize =? -1 then ev - vskip else new_vsize in
  let accepted :=
    hskip <= eh /\ vskip <= ev /\
    - hskip <= new_hsize1 /\ - vskip <= new_vsize1 /\
    int_rem hskip mp = 0 /\ int_rem new_hsize1 mp = 0 in
  (accepted ->
   ubuf_pic_check_resize u hskip vskip new_hsize new_vsize s =
   (Some (ResizeGeometry hskip vskip new_hsize1 new_vsize1 eh ev mp), s1, e1))
  /\
  (~ accepted ->
   ubuf_pic_check_resize u hskip vskip new_hsize new_vsize s = (None, s1, e1)).
Proof.
  intros Hsz Heh Hev Hh Hv Hgh Hgv nh1 nv1 accepted.
  rewrite (check_resize_run _ _ _ _ _ _ _ _ _ _ _ Hsz).
  rewrite (to_int_id eh), (to_int_id ev) by (int_ranges; lia).
  unfold int_neg.
  rewrite (to_int_id (- hskip)), (to_int_id (- vskip)) by (int_ranges; lia).
  destruct (Z.ltb_spec eh hskip) as [Hoh | Hih].
  { cmp_true (hskip >? eh). cbn [orb].
    split; [intros (? & _); lia | reflexivity]. }
  cmp_false (hskip >? eh). cbn [orb].
  destruct (Z.ltb_spec ev vskip) as [Hov | Hiv].
  { cmp_true (vskip >? ev).
    split; [intros (_ & ? & _); lia | reflexivity]. }
  cmp_false (vskip >? ev). cbv zeta.
  rewrite !resolve_new_size_exact by (int_ranges; lia).
  fold nh1 nv1.
  destruct (Z.ltb_spec nh1 (- hskip)) as [Hsh | Hlh].
  { cbn [orb]. split; [intros (_ & _ & ? & _); lia | reflexivity]. }
  cbn [orb].
  destruct (Z.ltb_spec nv1 (- vskip)) as [Hsv | Hlv].
  { split; [intros (_ & _ & _ & ? & _); lia | reflexivity]. }
  destruct (resize_off_macropixel mp hskip nh1) eqn:Hmp.
  - split; [|reflexivity].
    intros (_ & _ & _ & _ & H1 & H2).
    assert (resize_off_macropixel mp hskip nh1 = false)
      by (apply resize_off_macropixel_false; auto).
    congruence.
  - split; [reflexivity|].
    intros Hn. exfalso. apply Hn.
    apply resize_off_macropixel_false in Hmp; [|assumption].
    unfold accepted. tauto.
Qed.

End CheckResize.

Lemma check_resize_accepts_iff_witness :
  ubuf_pic_check_resize 0%nat (- 2) 0 (- 1) (- 1)
    (first_picture 2 PicMem.yuyv422 4 2) =
  (Some (ResizeGeometry (- 2) 0 6 2 4 2 2),
   first_picture 2 PicMem.yuyv422 4 2,
   [EvControl 0%nat UBUF_SIZE_PICTURE (Some (ANS_SIZE 4 2 2))])
  /\
  ubuf_pic_check_resize 0%nat 1 0 (- 1) (- 1)
    (first_picture 2 PicMem.yuyv422 4 2) =
  (None, first_picture 2 PicMem.yuyv422 4 2,
   [EvControl 0%nat UBUF_SIZE_PICTURE (Some (ANS_SIZE 4 2 2))]).
Proof.
  split.
  - apply (proj1 (check_resize_accepts_iff (mgr := PicMem.manager) 0%nat
             (first_picture 2 PicMem.yuyv422 4 2) (- 2) 0 (- 1) (- 1) 4 2 2 _ _
             eq_refl ltac:(unfold INT_MAX; lia) ltac:(unfold INT_MAX; lia)
             ltac:(unfold INT_MIN, INT_MAX; lia)
             ltac:(unfold INT_MIN, INT_MAX; lia)
             ltac:(unfold INT_MAX; lia) ltac:(unfold INT_MAX; lia))).
    repeat split; try reflexivity; cbn; lia.
  - apply (proj2 (check_resize_accepts_iff (mgr := PicMem.manager) 0%nat
             (first_picture 2 PicMem.yuyv422 4 2) 1 0 (- 1) (- 1) 4 2 2 _ _
             eq_refl ltac:(unfold INT_MAX; lia) ltac:(unfold INT_MAX; lia)
             ltac:(unfold INT_MIN, INT_MAX; lia)
             ltac:(unfold INT_MIN, INT_MAX; lia)
             ltac:(unfold INT_MAX; lia) ltac:(unfold INT_MAX; lia))).
    intros (_ & _ & _ & _ & H & _). vm_compute in H. discriminate.
Defined.

Lemma lookup_update u b w :
  PicMem.lookup u (PicMem.w_bufs (PicMem.update u b w)) = Some b.
Proof. cbn. now rewrite Nat.eqb_refl. Qed.

Lemma picmem_size u b (w : PicMem.world) (m : memory) :
  PicMem.lookup u (PicMem.w_bufs w) = Some b ->
  ubuf_pic_size u (State w m) =
  (Some (PicMem.b_hsize b, PicMem.b_vsize b, PicMem.w_macropixel w),
   State w m,
   [EvControl u UBUF_SIZE_PICTURE
      (Some (ANS_SIZE (PicMem.b_hsize b) (PicMem.b_vsize b)
               (PicMem.w_macropixel w)))]).
Proof.
  intros Hb. unfold ubuf_pic_size, bind, ret, ubuf_control.
  cbn. unfold PicMem.control. now rewrite Hb.
Qed.

(** C6, amended.  With the manager of [PicMem]: for a picture of extents
    [eh] by [ev], skips that are not negative, new sizes between 0 and
    what remains after the skip, and a horizontal skip and a new
    horizontal size that are multiples of the macropixel, the resize
    returns true and the picture then has the new sizes. *)
Theorem shrink_succeeds_when_aligned
    (w : PicMem.world) (m : memory) u b hskip vskip new_hsize new_vsize :
  PicMem.lookup u (PicMem.w_bufs w) = Some b ->
  0 <= PicMem.b_hsize b <= INT_MAX -> 0 <= PicMem.b_vsize b <= INT_MAX ->
  0 <= hskip -> 0 <= vskip ->
  0 <= new_hsize <= PicMem.b_hsize b - hskip ->
  0 <= new_vsize <= PicMem.b_vsize b - vskip ->
  int_rem hskip (PicMem.w_macropixel w) = 0 ->
  int_rem new_hsize (PicMem.w_macropixel w) = 0 ->
  exists s' evs,
    ubuf_pic_resize u hskip vskip new_hsize new_vsize (State w m) =
    (true, s', evs) /\
    fst (fst (ubuf_pic_size u s')) =
    Some (new_hsize, new_vsize, PicMem.w_macropixel w).
Proof.
  intros Hb Heh Hev Hh Hv Hnh Hnv Hah Has.
  pose proof (picmem_size u b w m Hb) as Hsz.
  assert (Hok := check_resize_accepts u (State w m) hskip vskip
                   new_hsize new_vsize _ _ _ _ _ Hsz Heh Hev).
  replace (new_hsize =? -1) with false in Hok
    by (symmetry; apply Z.eqb_neq; lia).
  replace (new_vsize =? -1) with false in Hok
    by (symmetry; apply Z.eqb_neq; lia).
  unfold ubuf_pic_resize, bind.
  rewrite Hok by (try assumption; int_ranges; lia).
  cbn [rs_hskip rs_vskip rs_new_hsize rs_new_vsize].
  unfold ubuf_control. cbn [st_mgr st_mem mgr_control PicMem.manager].
  unfold PicMem.control at 1. rewrite Hb.
  unfold PicMem.resize.
  cmp_true (0 <=? hskip). cmp_true (0 <=? vskip).
  cmp_true (new_hsize <=? PicMem.b_hsize b - hskip).
  cmp_true (new_vsize <=? PicMem.b_vsize b - vskip).
  cbn [andb orb]. unfold ret.
  do 2 eexists. split; [reflexivity|].
  erewrite picmem_size by apply lookup_update.
  reflexivity.
Qed.

Lemma shrink_succeeds_when_aligned_witness :
  exists s' evs,
    ubuf_pic_resize 0%nat 2 1 2 1 (first_picture 2 PicMem.yuyv422 4 2) =
    (true, s', evs) /\
    fst (fst (ubuf_pic_size 0%nat s')) = Some (2, 1, 2).
Proof.
  eapply (shrink_succeeds_when_aligned
            (PicMem.with_picture 2 PicMem.yuyv422 4 2) blank 0%nat _ 2 1 2 1).
  - reflexivity.
  - cbn. unfold INT_MAX. lia.
  - cbn. unfold INT_MAX. lia.
  - lia.
  - lia.
  - cbn. lia.
  - cbn. lia.
  - reflexivity.
  - reflexivity.
Defined.

(** C6 as stated fails in two ways.  On a packed picture of 4 by 2 with a
    macropixel of 2, skipping 1 pixel and keeping 1 is a shrink within the
    picture, and is refused for its alignment.  On a picture of 4 by 2, a
    new horizontal size of -2 is below what remains, and is refused. *)
Lemma shrink_counterexample :
  (0 <= 1 /\ 0 <= 0 /\ 1 <= 4 - 1 /\ 2 <= 2 - 0 /\
   fst (fst (ubuf_pic_resize 0%nat 1 0 1 2
               (first_picture 2 PicMem.yuyv422 4 2))) = false)
  /\
  (0 <= 0 /\ 0 <= 0 /\ - 2 <= 4 - 0 /\ 2 <= 2 - 0 /\
   fst (fst (ubuf_pic_resize 0%nat 0 0 (- 2) 2
               (first_picture 1 PicMem.gray 4 2))) = false).
Proof. vm_compute. repeat split; discriminate. Qed.

(** ** Events and memory of the computations *)

Section Events.

Context {W : Type} {mgr : ubuf_mgr W}.

Implicit Types (s : state W) (u : ubuf) (a : area) (P : event -> Prop).

Lemma emits_ret {A} P (x : A) : emits P (ret (W := W) x).
Proof. intros s. constructor. Qed.

Lemma emits_bind {A B} P (m : M W A) (f : A -> M W B) :
  emits P m -> (forall x, emits P (f x)) -> emits P (bind m f).
Proof.
  intros Hm Hf s. unfold bind.
  specialize (Hm s). destruct (m s) as [[x s1] e1].
  specialize (Hf x s1). destruct (f x s1) as [[y s2] e2].
  cbn in *. apply Forall_app. now split.
Qed.

Lemma emits_control P u c :
  (forall r, P (EvControl u c r)) -> emits P (ubuf_control u c).
Proof.
  intros H s. rewrite ubuf_control_run. cbn. constructor; [apply H | constructor].
Qed.

Lemma emits_memcpy P dst src n :
  P (EvMemcpy dst src n) -> emits P (memcpy (W := W) dst src n).
Proof. intros H s. cbn. constructor; [exact H | constructor]. Qed.

Lemma keeps_memory_ret {A} (x : A) : keeps_memory (ret (W := W) x).
Proof. intros s. reflexivity. Qed.

Lemma keeps_memory_bind {A B} (m : M W A) (f : A -> M W B) :
  keeps_memory m -> (forall x, keeps_memory (f x)) -> keeps_memory (bind m f).
Proof.
  intros Hm Hf s. unfold bind.
  specialize (Hm s). destruct (m s) as [[x s1] e1].
  specialize (Hf x s1). destruct (f x s1) as [[y s2] e2].
  cbn in *. congruence.
Qed.

Lemma keeps_memory_control u c : keeps_memory (ubuf_control u c).
Proof. intros s. now rewrite ubuf_control_run. Qed.

End Events.

Section EventsOfTheHeader.

Context {W : Type} {mgr : ubuf_mgr W}.

Implicit Types (s : state W) (u : ubuf) (a : area) (P : event -> Prop).

Lemma ubuf_pic_size_emits P u :
  (forall e, is_query e -> P e) -> emits P (ubuf_pic_size u).
Proof.
  intros HP. unfold ubuf_pic_size.
  apply emits_bind; [|intros; apply emits_ret].
  apply emits_control. intros r. now apply HP.
Qed.

Lemma ubuf_pic_plane_size_emits P u chroma :
  (forall e, is_query e -> P e) -> emits P (ubuf_pic_plane_size u chroma).
Proof.
  intros HP. unfold ubuf_pic_plane_size.
  apply emits_bind; [|intros; apply emits_ret].
  apply emits_control. intros r. now apply HP.
Qed.

Lemma check_offset_emits P u chroma a :
  (forall e, is_query e -> P e) ->
  emits P (ubuf_pic_plane_check_offset u chroma a).
Proof.
  intros HP. unfold ubuf_pic_plane_check_offset.
  apply emits_bind; [now apply ubuf_pic_size_emits|].
  intros [[[eh ev] mp]|]; [|apply emits_ret].
  destruct (offset_out_of_picture eh ev a); [apply emits_ret|].
  cbv zeta. destruct (off_macropixel _ _); [apply emits_ret|].
  apply emits_bind; [now apply ubuf_pic_plane_size_emits|].
  intros [[[[stride hs] vs] mps]|]; [|apply emits_ret].
  destruct (off_subsampling _ _ _); apply emits_ret.
Qed.

Lemma check_resize_emits P u hskip vskip new_hsize new_vsize :
  (forall e, is_query e -> P e) ->
  emits P (ubuf_pic_check_resize u hskip vskip new_hsize new_vsize).
Proof.
  intros HP. unfold ubuf_pic_check_resize.
  apply emits_bind; [now apply ubuf_pic_size_emits|].
  intros [[[eh ev] mp]|]; [|apply emits_ret].
  destruct (_ || _); [apply emits_ret|].
  cbv zeta. destruct (_ || _); [apply emits_ret|].
  destruct (resize_off_macropixel _ _ _); apply emits_ret.
Qed.

Lemma plane_write_emits P u chroma a :
  (forall e, is_query e -> P e) ->
  (forall a' r, P (EvControl u (UBUF_WRITE_PICTURE_PLANE chroma a') r)) ->
  emits P (ubuf_pic_plane_write u chroma a).
Proof.
  intros HP HW. unfold ubuf_pic_plane_write.
  apply emits_bind; [now apply check_offset_emits|].
  intros [ok a']. destruct (negb _); [apply emits_ret|].
  apply emits_bind; [|intros; apply emits_ret].
  apply emits_control. apply HW.
Qed.

Lemma plane_read_emits P u chroma a :
  (forall e, is_query e -> P e) ->
  (forall a' r, P (EvControl u (UBUF_READ_PICTURE_PLANE chroma a') r)) ->
  emits P (ubuf_pic_plane_read u chroma a).
Proof.
  intros HP HR. unfold ubuf_pic_plane_read.
  apply emits_bind; [now apply check_offset_emits|].
  intros [ok a']. destruct (negb _); [apply emits_ret|].
  apply emits_bind; [|intros; apply emits_ret].
  apply emits_control. apply HR.
Qed.

Lemma plane_unmap_emits P u chroma a :
  (forall e, is_query e -> P e) ->
  (forall a' r, P (EvControl u (UBUF_UNMAP_PICTURE_PLANE chroma a') r)) ->
  emits P (ubuf_pic_plane_unmap u chroma a).
Proof.
  intros HP HU. unfold ubuf_pic_plane_unmap.
  apply emits_bind; [now apply check_offset_emits|].
  intros [ok a']. destruct (negb _); [apply emits_ret|].
  apply emits_bind; [|intros; apply emits_ret].
  apply emits_control. apply HU.
Qed.

Lemma copy_lines_emits P n new_buffer buffer plane_hsize new_stride stride :
  (forall d src len, P (EvMemcpy d src len)) ->
  emits P (copy_lines (W := W) n new_buffer buffer plane_hsize new_stride stride).
Proof.
  intros HM. revert new_buffer buffer.
  induction n as [|n IH]; intros; cbn [copy_lines].
  - apply emits_ret.
  - apply emits_bind; [apply emits_memcpy, HM | intros; apply IH].
Qed.

(** The events of one plane: questions about sizes, one mapping for
    writing of the new buffer, one mapping for reading of the old one,
    copies of octets, and the releases of the mappings. *)
Lemma copy_plane_emits P u new_ubuf mp ta fa chroma :
  (forall e, is_query e -> P e) ->
  (forall a' r, P (EvControl new_ubuf (UBUF_WRITE_PICTURE_PLANE chroma a') r)) ->
  (forall a' r, P (EvControl u (UBUF_READ_PICTURE_PLANE chroma a') r)) ->
  (forall p a' r, P (EvControl p (UBUF_UNMAP_PICTURE_PLANE chroma a') r)) ->
  (forall d src len, P (EvMemcpy d src len)) ->
  emits P (copy_plane u new_ubuf mp ta fa chroma).
Proof.
  intros HP HW HR HU HM. unfold copy_plane.
  apply emits_bind; [now apply ubuf_pic_plane_size_emits|].
  intros [[[[stride hs] vs] mps]|]; [|apply emits_ret].
  apply emits_bind; [now apply ubuf_pic_plane_size_emits|].
  intros [[[[new_stride new_hs] new_vs] new_mps]|]; [|apply emits_ret].
  destruct (_ || _); [apply emits_ret|].
  apply emits_bind; [now apply plane_write_emits|].
  intros [new_buffer|]; [|apply emits_ret].
  apply emits_bind; [now apply plane_read_emits|].
  intros [buffer|].
  - cbv zeta.
    apply emits_bind; [now apply copy_lines_emits|]. intros _.
    apply emits_bind; [now apply plane_unmap_emits|]. intros ret1.
    apply emits_bind; [now apply plane_unmap_emits|]. intros ret2.
    apply emits_ret.
  - apply emits_bind; [now apply plane_unmap_emits|]. intros _.
    apply emits_ret.
Qed.

Lemma is_query_calm new_ubuf e : is_query e -> calm new_ubuf e.
Proof. destruct e as [| p [] r | |]; cbn; tauto. Qed.

Lemma is_query_not_iteration e : is_query e -> not_iteration e.
Proof. destruct e as [| p [] r | |]; cbn; tauto. Qed.

Lemma copy_plane_calm u new_ubuf mp ta fa chroma :
  emits (calm new_ubuf) (copy_plane u new_ubuf mp ta fa chroma).
Proof.
  apply copy_plane_emits; cbn; auto using is_query_calm.
Qed.

Lemma copy_plane_not_iteration u new_ubuf mp ta fa chroma :
  emits not_iteration (copy_plane u new_ubuf mp ta fa chroma).
Proof.
  apply copy_plane_emits; cbn; auto using is_query_not_iteration.
Qed.

Lemma ubuf_pic_plane_iterate_calm new_ubuf u chroma :
  emits (calm new_ubuf) (ubuf_pic_plane_iterate u chroma).
Proof.
  unfold ubuf_pic_plane_iterate.
  apply emits_bind; [|intros; apply emits_ret].
  apply emits_control. intros r. exact I.
Qed.

(** The loop over the planes allocates nothing, releases nothing, and
    maps for writing the new buffer only. *)
Lemma copy_planes_calm fuel u new_ubuf mp ta fa chroma :
  emits (calm new_ubuf) (copy_planes fuel u new_ubuf mp ta fa chroma).
Proof.
  revert chroma. induction fuel as [|fuel IH]; intros; cbn [copy_planes].
  - apply emits_ret.
  - apply emits_bind; [apply ubuf_pic_plane_iterate_calm|].
    intros [[c|]|]; try apply emits_ret.
    apply emits_bind; [apply copy_plane_calm|].
    intros [|]; [apply IH | apply emits_ret].
Qed.

End EventsOfTheHeader.

(** ** The copy *)

Section Copy.

Context {W : Type} {mgr : ubuf_mgr W}.

Implicit Types (s : state W) (u : ubuf) (a : area).

(** The events of a copy, by the way it ends: refused before the
    allocation; allocation failed; or allocated, and then either given up
    with the release of the new buffer as last event, or carried through
    with no release at all. *)
Lemma copy_events fuel u hskip vskip new_hsize new_vsize s r s' evs :
  ubuf_pic_copy fuel u hskip vskip new_hsize new_vsize s = (r, s', evs) ->
  (r = Some None /\ Forall is_query evs)
  \/ (exists pre h v,
        r = Some None /\ evs = pre ++ [EvAlloc h v None] /\ Forall is_query pre)
  \/ (exists pre h v new_ubuf mid,
        Forall is_query pre /\ Forall (calm new_ubuf) mid /\
        ((r = Some None /\
          evs = pre ++ EvAlloc h v (Some new_ubuf) :: mid ++ [EvFree new_ubuf])
         \/
         ((r = Some (Some new_ubuf) \/ r = None) /\
          evs = pre ++ EvAlloc h v (Some new_ubuf) :: mid))).
Proof.
  unfold ubuf_pic_copy, bind.
  pose proof (check_resize_emits is_query u hskip vskip new_hsize new_vsize
                (fun e H => H) s) as Hpre.
  destruct (ubuf_pic_check_resize u hskip vskip new_hsize new_vsize s)
    as [[ck s1] e1]. cbn [snd] in Hpre.
  destruct ck as [g|].
  2:{ unfold ret. intros H. injection H as <- <- <-.
      left. rewrite app_nil_r. now split. }
  unfold ubuf_pic_alloc, ubuf_alloc_picture.
  destruct (mgr_alloc_picture (rs_new_hsize g) (rs_new_vsize g) (st_mgr s1))
    as [al w2].
  destruct al as [new_ubuf|].
  2:{ unfold ret. intros H. injection H as <- <- <-.
      right. left. exists e1, (rs_new_hsize g), (rs_new_vsize g).
      rewrite ?app_nil_r. now repeat split. }
  set (s2 := State w2 (st_mem s1)).
  pose proof (ubuf_pic_size_emits (calm new_ubuf) new_ubuf
                (is_query_calm new_ubuf) s2) as Hsz.
  destruct (ubuf_pic_size new_ubuf s2) as [[sz s3] e3]. cbn [snd] in Hsz.
  intros H. right. right.
  exists e1, (rs_new_hsize g), (rs_new_vsize g), new_ubuf.
  destruct sz as [[[nh nv] new_mp]|].
  2:{ cbn in H. injection H as <- <- <-.
      exists e3. split; [assumption|]. split; [assumption|].
      left. split; [reflexivity|]. now rewrite <- ?app_assoc. }
  destruct (negb (new_mp =? rs_macropixel g)).
  { cbn in H. injection H as <- <- <-.
    exists e3. split; [assumption|]. split; [assumption|].
    left. split; [reflexivity|]. now rewrite <- ?app_assoc. }
  pose proof (copy_planes_calm fuel u new_ubuf (rs_macropixel g)
                (copy_to_area g) (copy_from_area g) None s3) as Hloop.
  destruct (copy_planes fuel u new_ubuf (rs_macropixel g) (copy_to_area g)
              (copy_from_area g) None s3) as [[lr s4] e4].
  cbn [snd] in Hloop.
  exists (e3 ++ e4). split; [assumption|].
  split; [apply Forall_app; now split|].
  destruct lr as [[|]|]; cbn in H; injection H as <- <- <-.
  - right. split; [now left|]. now rewrite app_nil_r.
  - left. split; [reflexivity|]. now rewrite <- !app_assoc.
  - right. split; [now right|]. now rewrite app_nil_r.
Qed.

End Copy.

Section CopyAndReplace.

Context {W : Type} {mgr : ubuf_mgr W}.

Implicit Types (s : state W) (u : ubuf) (a : area).

Lemma query_is_no_release l p : Forall is_query l -> ~ In (EvFree p) l.
Proof.
  intros Hl Hin. rewrite Forall_forall in Hl. exact (Hl _ Hin).
Qed.

Lemma calm_is_no_release new_ubuf l p :
  Forall (calm new_ubuf) l -> ~ In (EvFree p) l.
Proof.
  intros Hl Hin. rewrite Forall_forall in Hl. exact (Hl _ Hin).
Qed.

Lemma query_is_no_alloc l h v r : Forall is_query l -> ~ In (EvAlloc h v r) l.
Proof.
  intros Hl Hin. rewrite Forall_forall in Hl. exact (Hl _ Hin).
Qed.

Lemma calm_is_no_alloc new_ubuf l h v r :
  Forall (calm new_ubuf) l -> ~ In (EvAlloc h v r) l.
Proof.
  intros Hl Hin. rewrite Forall_forall in Hl. exact (Hl _ Hin).
Qed.

(** A copy that returns a buffer has released nothing. *)
Lemma copy_success_releases_nothing
    fuel u hskip vskip new_hsize new_vsize s new_ubuf s' evs :
  ubuf_pic_copy fuel u hskip vskip new_hsize new_vsize s =
  (Some (Some new_ubuf), s', evs) ->
  forall p, ~ In (EvFree p) evs.
Proof.
  intros H p Hin. apply copy_events in H.
  destruct H as [[H _] | [(pre & h & v & H & _) |
    (pre & h & v & nu & mid & Hpre & Hmid & [[H _] | [_ ->]])]];
    try discriminate.
  apply in_app_or in Hin as [Hin | [Hin | Hin]].
  - now apply query_is_no_release in Hin.
  - discriminate.
  - destruct (calm_is_no_release _ _ _ Hmid Hin).
Qed.

(** Whatever a copy releases, it has allocated itself. *)
Lemma copy_releases_its_own
    fuel u hskip vskip new_hsize new_vsize s r s' evs p :
  ubuf_pic_copy fuel u hskip vskip new_hsize new_vsize s = (r, s', evs) ->
  In (EvFree p) evs -> exists h v, In (EvAlloc h v (Some p)) evs.
Proof.
  intros H Hin. apply copy_events in H.
  destruct H as [[_ H] | [(pre & h & v & _ & -> & Hpre) |
    (pre & h & v & nu & mid & Hpre & Hmid & [[_ ->] | [_ ->]])]].
  - now apply query_is_no_release in Hin.
  - apply in_app_or in Hin as [Hin | [Hin | []]]; [|discriminate].
    now apply query_is_no_release in Hin.
  - apply in_app_or in Hin as [Hin | [Hin | Hin]].
    + now apply query_is_no_release in Hin.
    + discriminate.
    + apply in_app_or in Hin as [Hin | [Hin | []]].
      * destruct (calm_is_no_release _ _ _ Hmid Hin).
      * injection Hin as <-. exists h, v.
        apply in_or_app. right. now left.
  - apply in_app_or in Hin as [Hin | [Hin | Hin]].
    + now apply query_is_no_release in Hin.
    + discriminate.
    + destruct (calm_is_no_release _ _ _ Hmid Hin).
Qed.

(** X6.  A copy that returns [NULL] after it allocated a buffer releases
    that buffer as its last action, and releases nothing else. *)
Lemma copy_failure_releases_the_new_buffer
    fuel u hskip vskip new_hsize new_vsize s s' evs h v p :
  ubuf_pic_copy fuel u hskip vskip new_hsize new_vsize s = (Some None, s', evs) ->
  In (EvAlloc h v (Some p)) evs ->
  exists before, evs = before ++ [EvFree p] /\ forall q, ~ In (EvFree q) before.
Proof.
  intros H Hin. apply copy_events in H.
  destruct H as [[_ H] | [(pre & h' & v' & _ & -> & Hpre) |
    (pre & h' & v' & nu & mid & Hpre & Hmid & [[_ ->] | [[H | H] _]])]];
    try discriminate.
  - now apply query_is_no_alloc in Hin.
  - apply in_app_or in Hin as [Hin | [Hin | []]]; [|discriminate].
    now apply query_is_no_alloc in Hin.
  - assert (p = nu) as ->.
    { apply in_app_or in Hin as [Hin | [Hin | Hin]].
      - now apply query_is_no_alloc in Hin.
      - now injection Hin.
      - apply in_app_or in Hin as [Hin | [Hin | []]]; [|discriminate].
        destruct (calm_is_no_alloc _ _ _ _ _ Hmid Hin). }
    exists (pre ++ EvAlloc h' v' (Some nu) :: mid). split.
    + now rewrite <- app_assoc.
    + intros q Hq. apply in_app_or in Hq as [Hq | [Hq | Hq]].
      * now apply query_is_no_release in Hq.
      * discriminate.
      * destruct (calm_is_no_release _ _ _ Hmid Hq).
Qed.

(** A copy maps for writing no other buffer than the one it allocated,
    and resizes none. *)
Lemma copy_writes_its_own
    fuel u hskip vskip new_hsize new_vsize s r s' evs :
  ubuf_pic_copy fuel u hskip vskip new_hsize new_vsize s = (r, s', evs) ->
  (forall p c a' r', In (EvControl p (UBUF_WRITE_PICTURE_PLANE c a') r') evs ->
     exists h v, In (EvAlloc h v (Some p)) evs) /\
  (forall p hs vs nh nv r',
     ~ In (EvControl p (UBUF_RESIZE_PICTURE hs vs nh nv) r') evs).
Proof.
  intros H. apply copy_events in H.
  assert (Hq : forall l, Forall is_query l ->
    (forall p c a' r', ~ In (EvControl p (UBUF_WRITE_PICTURE_PLANE c a') r') l) /\
    (forall p hs vs nh nv r',
       ~ In (EvControl p (UBUF_RESIZE_PICTURE hs vs nh nv) r') l)).
  { intros l Hl. rewrite Forall_forall in Hl.
    split; intros; intros Hin; exact (Hl _ Hin). }
  assert (Hc : forall nu l, Forall (calm nu) l ->
    (forall p c a' r', In (EvControl p (UBUF_WRITE_PICTURE_PLANE c a') r') l ->
       p = nu) /\
    (forall p hs vs nh nv r',
       ~ In (EvControl p (UBUF_RESIZE_PICTURE hs vs nh nv) r') l)).
  { intros nu l Hl. rewrite Forall_forall in Hl.
    split; intros; [|intros Hin]; exact (Hl _ ltac:(eassumption)). }
  destruct H as [[_ H] | [(pre & h & v & _ & -> & Hpre) |
    (pre & h & v & nu & mid & Hpre & Hmid & Hevs)]].
  - destruct (Hq _ H) as [H1 H2]. split; [|exact H2].
    intros p c a' r' Hin. now apply H1 in Hin.
  - destruct (Hq _ Hpre) as [H1 H2]. split.
    + intros p c a' r' Hin.
      apply in_app_or in Hin as [Hin | [Hin | []]]; [|discriminate].
      now apply H1 in Hin.
    + intros p hs vs nh nv r' Hin.
      apply in_app_or in Hin as [Hin | [Hin | []]]; [|discriminate].
      now apply H2 in Hin.
  - destruct (Hq _ Hpre) as [H1 H2]. destruct (Hc _ _ Hmid) as [H3 H4].
    assert (Hal : exists h v, In (EvAlloc h v (Some nu)) evs).
    { exists h, v. destruct Hevs as [[_ ->] | [_ ->]];
        apply in_or_app; right; now left. }
    assert (Hin' : forall e, In e evs ->
      In e pre \/ e = EvAlloc h v (Some nu) \/ In e mid \/ e = EvFree nu).
    { intros e Hin. destruct Hevs as [[_ ->] | [_ ->]].
      - apply in_app_or in Hin as [Hin | [Hin | Hin]]; auto.
        apply in_app_or in Hin as [Hin | [Hin | []]]; auto.
      - apply in_app_or in Hin as [Hin | [Hin | Hin]]; auto. }
    split.
    + intros p c a' r' Hin.
      apply Hin' in Hin as [Hin | [Hin | [Hin | Hin]]]; try discriminate.
      * now apply H1 in Hin.
      * apply H3 in Hin. now subst p.
    + intros p hs vs nh nv r' Hin.
      apply Hin' in Hin as [Hin | [Hin | [Hin | Hin]]]; try discriminate.
      * now apply H2 in Hin.
      * now apply H4 in Hin.
Qed.

(** C3.  When the copy made by the replacement returns [NULL], the
    replacement returns false with the events and the final state of the
    copy, so releases nothing itself, and leaves the handle as it was; if
    the allocator did not hand out the buffer behind the handle, that
    buffer has not been released.  When the copy returns a new buffer, the
    replacement releases the old buffer, once and as its last action,
    stores the new buffer in the handle and returns true. *)
Theorem replace_all_or_nothing
    fuel ubuf_p hskip vskip new_hsize new_vsize s r s' evs :
  ubuf_pic_copy fuel ubuf_p hskip vskip new_hsize new_vsize s = (Some r, s', evs) ->
  match r with
  | None =>
    ubuf_pic_replace fuel ubuf_p hskip vskip new_hsize new_vsize s =
    (Some (false, ubuf_p), s', evs) /\
    ((forall h v, ~ In (EvAlloc h v (Some ubuf_p)) evs) ->
     ~ In (EvFree ubuf_p) evs)
  | Some new_ubuf =>
    ubuf_pic_replace fuel ubuf_p hskip vskip new_hsize new_vsize s =
    (Some (true, new_ubuf),
     State (mgr_free ubuf_p (st_mgr s')) (st_mem s'),
     evs ++ [EvFree ubuf_p]) /\
    ~ In (EvFree ubuf_p) evs
  end.
Proof.
  intros H. unfold ubuf_pic_replace, bind. rewrite H.
  destruct r as [new_ubuf|].
  - split; [reflexivity|].
    eapply copy_success_releases_nothing; eauto.
  - split; [unfold ret; now rewrite app_nil_r|].
    intros Hfresh Hin.
    destruct (copy_releases_its_own _ _ _ _ _ _ _ _ _ _ _ H Hin) as (h & v & Hal).
    exact (Hfresh h v Hal).
Qed.

End CopyAndReplace.

Lemma triple_eta {A B C : Type} (x : A * B * C) :
  x = (fst (fst x), snd (fst x), snd x).
Proof. now destruct x as [[a b] c]. Qed.

(** An event is among those of a run that computes. *)
Ltac among_the_events :=
  vm_compute; repeat (first [left; reflexivity | right]).

Lemma replace_all_or_nothing_witness :
  (let run := ubuf_pic_copy 4 0%nat 0 (- 1) 4 4
                (first_picture 1 PicMem.yuv420p 4 2) in
   ubuf_pic_replace 4 0%nat 0 (- 1) 4 4 (first_picture 1 PicMem.yuv420p 4 2) =
   (Some (false, 0%nat), snd (fst run), snd run) /\
   ~ In (EvFree 0%nat) (snd run))
  /\
  (let run := ubuf_pic_copy 4 0%nat (- 2) 0 6 2
                (first_picture 1 PicMem.gray 4 2) in
   ubuf_pic_replace 4 0%nat (- 2) 0 6 2 (first_picture 1 PicMem.gray 4 2) =
   (Some (true, 1%nat),
    State (mgr_free 0%nat (st_mgr (snd (fst run)))) (st_mem (snd (fst run))),
    snd run ++ [EvFree 0%nat]) /\
   ~ In (EvFree 0%nat) (snd run)).
Proof.
  split; cbv zeta.
  - pose proof (triple_eta (ubuf_pic_copy 4 0%nat 0 (- 1) 4 4
                  (first_picture 1 PicMem.yuv420p 4 2))) as E.
    assert (R : fst (fst (ubuf_pic_copy 4 0%nat 0 (- 1) 4 4
                  (first_picture 1 PicMem.yuv420p 4 2))) = Some None)
      by (vm_compute; reflexivity).
    rewrite R in E.
    destruct (replace_all_or_nothing 4 0%nat 0 (- 1) 4 4 _ None _ _ E)
      as [Hreplace Hkept].
    split; [exact Hreplace|].
    apply Hkept. intros h v Hin. vm_compute in Hin.
    repeat (destruct Hin as [Hin | Hin]; [discriminate|]). exact Hin.
  - pose proof (triple_eta (ubuf_pic_copy 4 0%nat (- 2) 0 6 2
                  (first_picture 1 PicMem.gray 4 2))) as E.
    assert (R : fst (fst (ubuf_pic_copy 4 0%nat (- 2) 0 6 2
                  (first_picture 1 PicMem.gray 4 2))) = Some (Some 1%nat))
      by (vm_compute; reflexivity).
    rewrite R in E.
    exact (replace_all_or_nothing 4 0%nat (- 2) 0 6 2 _ (Some 1%nat) _ _ E).
Defined.

(** C4.  With a manager whose plane iteration reports an error, the copy
    of a picture of 4 by 2 allocates the new buffer, asks for the first
    plane, is refused, and returns the new buffer: no plane is copied, the
    new buffer is not released, and the result is not [NULL]. *)
Theorem copy_ignores_iteration_failure :
  let run := ubuf_pic_copy (mgr := PicMem.manager_without_iteration)
               1 0%nat 0 0 4 2 (first_picture 1 PicMem.gray 4 2) in
  fst (fst run) = Some (Some 1%nat) /\
  snd run =
  [EvControl 0%nat UBUF_SIZE_PICTURE (Some (ANS_SIZE 4 2 1));
   EvAlloc 4 2 (Some 1%nat);
   EvControl 1%nat UBUF_SIZE_PICTURE (Some (ANS_SIZE 4 2 1));
   EvControl 0%nat (UBUF_ITERATE_PICTURE_PLANE None) None] /\
  ~ In (EvFree 1%nat) (snd run).
Proof.
  vm_compute. repeat split.
  intros [H | [H | [H | [H | []]]]]; discriminate.
Qed.

(** ** The transfer of one plane *)

Lemma filter_no_memcpy (l : list event) :
  Forall no_memcpy l -> filter is_memcpy l = [].
Proof.
  induction 1 as [|e l He _ IH]; [reflexivity|].
  cbn. unfold no_memcpy in He. now rewrite He.
Qed.

Lemma is_query_no_memcpy e : is_query e -> no_memcpy e.
Proof. destruct e as [| p [] r | |]; cbn; unfold no_memcpy; cbn; tauto. Qed.

Lemma line_copies_succ n new_buffer buffer len new_stride stride :
  line_copies (S n) new_buffer buffer len new_stride stride =
  EvMemcpy new_buffer buffer len ::
  line_copies n (new_buffer + new_stride) (buffer + stride) len new_stride stride.
Proof.
  unfold line_copies. cbn [seq map]. f_equal.
  - f_equal; lia.
  - rewrite <- seq_shift, map_map. apply map_ext. intros i.
    f_equal; lia.
Qed.

Lemma filter_line_copies n new_buffer buffer len new_stride stride :
  filter is_memcpy (line_copies n new_buffer buffer len new_stride stride) =
  line_copies n new_buffer buffer len new_stride stride.
Proof.
  unfold line_copies. induction (seq 0 n) as [|i l IH]; [reflexivity|].
  cbn. now rewrite IH.
Qed.

(** Octets outside the lines written are left as they were. *)
Lemma mem_copy_lines_frame n m new_buffer buffer len new_stride stride x :
  (forall i j, 0 <= i < Z.of_nat n -> 0 <= j < len ->
     x <> new_buffer + i * new_stride + j) ->
  mem_copy_lines n m new_buffer buffer len new_stride stride x = m x.
Proof.
  revert m new_buffer buffer.
  induction n as [|n IH]; intros m nb b Hx; cbn [mem_copy_lines].
  - reflexivity.
  - rewrite IH.
    + unfold mem_copy.
      destruct (Z.leb_spec nb x) as [H1 | H1]; [|reflexivity].
      destruct (Z.ltb_spec x (nb + len)) as [H2 | H2]; [|reflexivity].
      exfalso. apply (Hx 0 (x - nb)); lia.
    + intros i j Hi Hj.
      replace (nb + new_stride + i * new_stride + j)
        with (nb + (i + 1) * new_stride + j) by ring.
      apply Hx; lia.
Qed.

(** Line [i] of the destination holds line [i] of the source, when the
    lines written do not run into each other and none of them is read. *)
Lemma mem_copy_lines_line n m new_buffer buffer len new_stride stride :
  0 <= len <= new_stride ->
  (forall i j i' j',
     0 <= i < Z.of_nat n -> 0 <= j < len ->
     0 <= i' < Z.of_nat n -> 0 <= j' < len ->
     buffer + i * stride + j <> new_buffer + i' * new_stride + j') ->
  forall i j, 0 <= i < Z.of_nat n -> 0 <= j < len ->
    mem_copy_lines n m new_buffer buffer len new_stride stride
      (new_buffer + i * new_stride + j) =
    m (buffer + i * stride + j).
Proof.
  intros Hlen. revert m new_buffer buffer.
  induction n as [|n IH]; intros m nb b Hdis i j Hi Hj; [lia|].
  cbn [mem_copy_lines].
  assert (Hi0 : i = 0 \/ 1 <= i) by lia. destruct Hi0 as [-> | Hi1].
  - rewrite mem_copy_lines_frame.
    + unfold mem_copy.
      replace (nb + 0 * new_stride + j) with (nb + j) by ring.
      replace (nb <=? nb + j) with true by (symmetry; apply Z.leb_le; lia).
      replace (nb + j <? nb + len) with true by (symmetry; apply Z.ltb_lt; lia).
      cbn [andb]. f_equal. ring.
    + intros i' j' Hi' Hj'.
      assert (0 <= i' * new_stride) by (apply Z.mul_nonneg_nonneg; lia).
      lia.
  - replace (nb + i * new_stride + j)
      with (nb + new_stride + (i - 1) * new_stride + j) by ring.
    rewrite IH; try lia.
    + unfold mem_copy.
      replace (b + stride + (i - 1) * stride + j) with (b + i * stride + j) by ring.
      destruct (Z.leb_spec nb (b + i * stride + j)) as [H1 | H1]; [|reflexivity].
      destruct (Z.ltb_spec (b + i * stride + j) (nb + len)) as [H2 | H2];
        [|reflexivity].
      exfalso.
      apply (Hdis i j 0 (b + i * stride + j - nb)); lia.
    + intros i1 j1 i2 j2 Hi1' Hj1 Hi2 Hj2.
      replace (b + stride + i1 * stride + j1)
        with (b + (i1 + 1) * stride + j1) by ring.
      replace (nb + new_stride + i2 * new_stride + j2)
        with (nb + (i2 + 1) * new_stride + j2) by ring.
      apply Hdis; lia.
Qed.

Section PlaneTransfer.

Context {W : Type} {mgr : ubuf_mgr W}.

Implicit Types (s : state W) (u : ubuf) (a : area).

Lemma copy_lines_run n new_buffer buffer plane_hsize new_stride stride s :
  copy_lines n new_buffer buffer plane_hsize new_stride stride s =
  (tt,
   State (st_mgr s)
         (mem_copy_lines n (st_mem s) new_buffer buffer (to_size plane_hsize)
                         new_stride stride),
   line_copies n new_buffer buffer (to_size plane_hsize) new_stride stride).
Proof.
  revert new_buffer buffer s.
  induction n as [|n IH]; intros nb b s; cbn [copy_lines mem_copy_lines].
  - destruct s. reflexivity.
  - unfold bind, memcpy. rewrite IH. rewrite line_copies_succ. reflexivity.
Qed.

Lemma ubuf_pic_size_keeps_memory u : keeps_memory (ubuf_pic_size u).
Proof.
  unfold ubuf_pic_size. apply keeps_memory_bind.
  - apply keeps_memory_control.
  - intros. apply keeps_memory_ret.
Qed.

Lemma ubuf_pic_plane_size_keeps_memory u chroma :
  keeps_memory (ubuf_pic_plane_size u chroma).
Proof.
  unfold ubuf_pic_plane_size. apply keeps_memory_bind.
  - apply keeps_memory_control.
  - intros. apply keeps_memory_ret.
Qed.

Lemma check_offset_keeps_memory u chroma a :
  keeps_memory (ubuf_pic_plane_check_offset u chroma a).
Proof.
  unfold ubuf_pic_plane_check_offset.
  apply keeps_memory_bind; [apply ubuf_pic_size_keeps_memory|].
  intros [[[eh ev] mp]|]; [|apply keeps_memory_ret].
  destruct (offset_out_of_picture eh ev a); [apply keeps_memory_ret|].
  cbv zeta. destruct (off_macropixel _ _); [apply keeps_memory_ret|].
  apply keeps_memory_bind; [apply ubuf_pic_plane_size_keeps_memory|].
  intros [[[[stride hs] vs] mps]|]; [|apply keeps_memory_ret].
  destruct (off_subsampling _ _ _); apply keeps_memory_ret.
Qed.

Lemma resolve_offset_absolute eh ev a :
  absolute a -> resolve_offset eh ev a = a.
Proof.
  intros (H1 & H2 & H3 & H4). unfold resolve_offset.
  cmp_false (hoffset a <? 0). cmp_false (voffset a <? 0).
  cmp_false (hsize a =? -1). cmp_false (vsize a =? -1).
  now destruct a.
Qed.

(** An accepted area comes back resolved; an absolute one, as it was. *)
Lemma check_offset_accepts_absolute u chroma a s a' s' e :
  ubuf_pic_plane_check_offset u chroma a s = (true, a', s', e) ->
  absolute a -> a' = a.
Proof.
  intros H Ha.
  destruct (ubuf_pic_size u s) as [[[[[eh ev] mp]|] s1] e1] eqn:Hsz.
  - rewrite (check_offset_run _ _ _ _ _ _ _ _ _ Hsz) in H.
    rewrite (resolve_offset_absolute _ _ _ Ha) in H.
    destruct (offset_out_of_picture eh ev a); [discriminate|].
    cbv zeta in H. destruct (off_macropixel mp a); [now injection H|].
    destruct (ubuf_pic_plane_size u chroma s1) as [[[[[[st hs] vs] mps]|] s2] e2];
      now injection H.
  - rewrite (check_offset_no_size _ _ _ _ _ _ Hsz) in H. discriminate.
Qed.

End PlaneTransfer.

Section PlaneSteps.

Context {W : Type} {mgr : ubuf_mgr W}.

Implicit Types (s : state W) (u : ubuf) (a : area).

Lemma plane_size_success u chroma s stride hs vs mps s' e :
  ubuf_pic_plane_size u chroma s = (Some (stride, hs, vs, mps), s', e) ->
  e = [EvControl u (UBUF_SIZE_PICTURE_PLANE chroma)
         (Some (ANS_PLANE stride hs vs mps))] /\
  st_mem s' = st_mem s.
Proof.
  unfold ubuf_pic_plane_size, bind, ret. rewrite ubuf_control_run.
  destruct (fst (mgr_control u _ (st_mgr s))) as [[| |st' hs' vs' mps'| |]|];
    intros H; try discriminate.
  injection H as <- <- <- <- <- <-. now split.
Qed.

Lemma plane_write_success u chroma a s p s' e :
  ubuf_pic_plane_write u chroma a s = (Some p, s', e) -> absolute a ->
  In (EvControl u (UBUF_WRITE_PICTURE_PLANE chroma a) (Some (ANS_BUFFER p))) e /\
  st_mem s' = st_mem s /\ Forall no_memcpy e.
Proof.
  intros H Ha. unfold ubuf_pic_plane_write, bind in H.
  pose proof (check_offset_keeps_memory u chroma a s) as Hm.
  pose proof (check_offset_emits no_memcpy u chroma a is_query_no_memcpy s) as He.
  destruct (ubuf_pic_plane_check_offset u chroma a s) as [[[ok a'] s1] e1] eqn:Hck.
  cbn [fst snd] in *.
  destruct ok; cbn [negb] in H; [|discriminate].
  apply check_offset_accepts_absolute in Hck; [subst a'|assumption].
  rewrite ubuf_control_run in H. unfold ret in H.
  destruct (fst (mgr_control u _ (st_mgr s1))) as [[| | |q|]|];
    try discriminate.
  injection H as <- <- <-. repeat split.
  - apply in_or_app. right. now left.
  - exact Hm.
  - apply Forall_app. split; [assumption|]. repeat constructor.
Qed.

Lemma plane_read_success u chroma a s p s' e :
  ubuf_pic_plane_read u chroma a s = (Some p, s', e) -> absolute a ->
  In (EvControl u (UBUF_READ_PICTURE_PLANE chroma a) (Some (ANS_BUFFER p))) e /\
  st_mem s' = st_mem s /\ Forall no_memcpy e.
Proof.
  intros H Ha. unfold ubuf_pic_plane_read, bind in H.
  pose proof (check_offset_keeps_memory u chroma a s) as Hm.
  pose proof (check_offset_emits no_memcpy u chroma a is_query_no_memcpy s) as He.
  destruct (ubuf_pic_plane_check_offset u chroma a s) as [[[ok a'] s1] e1] eqn:Hck.
  cbn [fst snd] in *.
  destruct ok; cbn [negb] in H; [|discriminate].
  apply check_offset_accepts_absolute in Hck; [subst a'|assumption].
  rewrite ubuf_control_run in H. unfold ret in H.
  destruct (fst (mgr_control u _ (st_mgr s1))) as [[| | |q|]|];
    try discriminate.
  injection H as <- <- <-. repeat split.
  - apply in_or_app. right. now left.
  - exact Hm.
  - apply Forall_app. split; [assumption|]. repeat constructor.
Qed.

Lemma plane_unmap_success u chroma a s s' e :
  ubuf_pic_plane_unmap u chroma a s = (true, s', e) -> absolute a ->
  (exists r, In (EvControl u (UBUF_UNMAP_PICTURE_PLANE chroma a) (Some r)) e) /\
  st_mem s' = st_mem s /\ Forall no_memcpy e.
Proof.
  intros H Ha. unfold ubuf_pic_plane_unmap, bind in H.
  pose proof (check_offset_keeps_memory u chroma a s) as Hm.
  pose proof (check_offset_emits no_memcpy u chroma a is_query_no_memcpy s) as He.
  destruct (ubuf_pic_plane_check_offset u chroma a s) as [[[ok a'] s1] e1] eqn:Hck.
  cbn [fst snd] in *.
  destruct ok; cbn [negb] in H; [|discriminate].
  apply check_offset_accepts_absolute in Hck; [subst a'|assumption].
  rewrite ubuf_control_run in H. unfold ret in H.
  destruct (fst (mgr_control u _ (st_mgr s1))) as [r|]; [|discriminate].
  injection H as <- <-. repeat split.
  - exists r. apply in_or_app. right. now left.
  - exact Hm.
  - apply Forall_app. split; [assumption|]. repeat constructor.
Qed.

(** What the body of the plane loop has done when it does not jump to
    the error label: it asked both buffers for the plane, which agree on
    subsampling and macropixel size; it mapped the area [ta] of the new
    buffer for writing and the area [fa] of the old one for reading; it
    copied [vsize ta / vsub] lines of
    [hsize ta / hsub / macropixel * macropixel_size] octets, each side
    advancing by its own stride, and nothing else; it unmapped both. *)
Lemma copy_plane_success u new_ubuf mp ta fa chroma s s' e :
  copy_plane u new_ubuf mp ta fa chroma s = (true, s', e) ->
  absolute ta -> absolute fa ->
  exists stride new_stride hs vs mps new_buffer buffer r1 r2,
    In (EvControl u (UBUF_SIZE_PICTURE_PLANE chroma)
          (Some (ANS_PLANE stride hs vs mps))) e /\
    In (EvControl new_ubuf (UBUF_SIZE_PICTURE_PLANE chroma)
          (Some (ANS_PLANE new_stride hs vs mps))) e /\
    In (EvControl new_ubuf (UBUF_WRITE_PICTURE_PLANE chroma ta)
          (Some (ANS_BUFFER new_buffer))) e /\
    In (EvControl u (UBUF_READ_PICTURE_PLANE chroma fa)
          (Some (ANS_BUFFER buffer))) e /\
    In (EvControl new_ubuf (UBUF_UNMAP_PICTURE_PLANE chroma ta) (Some r1)) e /\
    In (EvControl u (UBUF_UNMAP_PICTURE_PLANE chroma fa) (Some r2)) e /\
    filter is_memcpy e =
    line_copies (Z.to_nat (plane_vsize_of (vsize ta) vs)) new_buffer buffer
      (to_size (plane_hsize_of (hsize ta) hs mp mps)) new_stride stride /\
    st_mem s' =
    mem_copy_lines (Z.to_nat (plane_vsize_of (vsize ta) vs)) (st_mem s)
      new_buffer buffer (to_size (plane_hsize_of (hsize ta) hs mp mps))
      new_stride stride.
Proof.
  intros H Hta Hfa. unfold copy_plane, bind in H.
  destruct (ubuf_pic_plane_size u chroma s)
    as [[[[[[stride hs] vs] mps]|] s1] e1] eqn:H1; [|discriminate].
  apply plane_size_success in H1 as [-> Hm1].
  destruct (ubuf_pic_plane_size new_ubuf chroma s1)
    as [[[[[[new_stride new_hs] new_vs] new_mps]|] s2] e2] eqn:H2;
    [|discriminate].
  apply plane_size_success in H2 as [-> Hm2].
  destruct (Z.eqb_spec hs new_hs) as [<- | ?]; [|discriminate].
  destruct (Z.eqb_spec vs new_vs) as [<- | ?]; [|discriminate].
  destruct (Z.eqb_spec mps new_mps) as [<- | ?]; [|discriminate].
  cbn [negb orb] in H.
  destruct (ubuf_pic_plane_write new_ubuf chroma ta s2)
    as [[[new_buffer|] s3] e3] eqn:H3; [|discriminate].
  apply plane_write_success in H3 as (Hw & Hm3 & Hn3); [|assumption].
  destruct (ubuf_pic_plane_read u chroma fa s3)
    as [[[buffer|] s4] e4] eqn:H4.
  2:{ destruct (ubuf_pic_plane_unmap new_ubuf chroma ta s4) as [[? ?] ?].
      discriminate. }
  apply plane_read_success in H4 as (Hr & Hm4 & Hn4); [|assumption].
  cbv zeta in H. rewrite copy_lines_run in H.
  set (s5 := State (st_mgr s4) _) in H.
  destruct (ubuf_pic_plane_unmap new_ubuf chroma ta s5)
    as [[ret1 s6] e6] eqn:H6.
  destruct (ubuf_pic_plane_unmap u chroma fa s6)
    as [[ret2 s7] e7] eqn:H7.
  unfold ret in H. injection H as Hret <- <-.
  apply andb_true_iff in Hret as [-> ->].
  apply plane_unmap_success in H6 as ([r1 Hu1] & Hm6 & Hn6); [|assumption].
  apply plane_unmap_success in H7 as ([r2 Hu2] & Hm7 & Hn7); [|assumption].
  exists stride, new_stride, hs, vs, mps, new_buffer, buffer, r1, r2.
  repeat split.
  - now left.
  - right. now left.
  - right. right. apply in_or_app. now left.
  - right. right. apply in_or_app. right. apply in_or_app. now left.
  - right. right. do 3 (apply in_or_app; right). apply in_or_app. now left.
  - right. right. do 4 (apply in_or_app; right). apply in_or_app. now left.
  - cbn [app filter is_memcpy]. rewrite !filter_app, filter_line_copies.
    rewrite (filter_no_memcpy e3), (filter_no_memcpy e4),
      (filter_no_memcpy e6), (filter_no_memcpy e7) by assumption.
    cbn. now rewrite !app_nil_r.
  - rewrite Hm7, Hm6. unfold s5. cbn [st_mem].
    now rewrite Hm4, Hm3, Hm2, Hm1.
Qed.

End PlaneSteps.

Section PlaneLoop.

Context {W : Type} {mgr : ubuf_mgr W}.

Implicit Types (s : state W) (u : ubuf) (a : area).

Lemma ubuf_pic_plane_iterate_run u chroma s :
  exists r,
    ubuf_pic_plane_iterate u chroma s =
    (match r with Some (ANS_CHROMA c) => Some c | _ => None end,
     State (snd (mgr_control u (UBUF_ITERATE_PICTURE_PLANE chroma) (st_mgr s)))
           (st_mem s),
     [EvControl u (UBUF_ITERATE_PICTURE_PLANE chroma) r]).
Proof.
  unfold ubuf_pic_plane_iterate, bind, ret. rewrite ubuf_control_run.
  eexists. reflexivity.
Qed.

(** Every plane the iteration announces goes through the body of the
    loop, when the loop is left by its condition. *)
Lemma copy_planes_each fuel u new_ubuf mp ta fa chroma0 s s' evs :
  copy_planes fuel u new_ubuf mp ta fa chroma0 s = (Some true, s', evs) ->
  forall c prev,
    In (EvControl u (UBUF_ITERATE_PICTURE_PLANE prev)
          (Some (ANS_CHROMA (Some c)))) evs ->
    exists sa sb e before after,
      evs = before ++ e ++ after /\
      copy_plane u new_ubuf mp ta fa c sa = (true, sb, e).
Proof.
  revert chroma0 s evs.
  induction fuel as [|fuel IH]; intros chroma0 s evs H c prev Hin;
    cbn [copy_planes] in H.
  - discriminate.
  - unfold bind in H.
    destruct (ubuf_pic_plane_iterate_run u chroma0 s) as [r Hit].
    rewrite Hit in H. clear Hit.
    set (s1 := State _ (st_mem s)) in H.
    assert (Hend : forall l : list event, In (EvControl u (UBUF_ITERATE_PICTURE_PLANE prev)
               (Some (ANS_CHROMA (Some c))))
              ([EvControl u (UBUF_ITERATE_PICTURE_PLANE chroma0) r] ++ l) ->
            r = Some (ANS_CHROMA (Some c)) \/
            In (EvControl u (UBUF_ITERATE_PICTURE_PLANE prev)
                  (Some (ANS_CHROMA (Some c)))) l).
    { intros l [Hl | Hl]; [left; congruence | now right]. }
    destruct r as [[| [c1|] | | |]|];
      try (unfold ret in H; injection H as <- <-;
           apply Hend in Hin as [Hin | []]; discriminate).
    pose proof (copy_plane_not_iteration u new_ubuf mp ta fa c1 s1) as Hni.
    destruct (copy_plane u new_ubuf mp ta fa c1 s1) as [[ok s2] e2] eqn:Hbody.
    cbn [snd] in Hni.
    destruct ok.
    + destruct (copy_planes fuel u new_ubuf mp ta fa (Some c1) s2)
        as [[r3 s3] e3] eqn:Hrest.
      injection H as -> <- <-.
      apply Hend in Hin as [Hin | Hin].
      * injection Hin as ->.
        exists s1, s2, e2, [EvControl u (UBUF_ITERATE_PICTURE_PLANE chroma0)
                              (Some (ANS_CHROMA (Some c)))], e3.
        split; [reflexivity | assumption].
      * apply in_app_or in Hin as [Hin | Hin].
        { rewrite Forall_forall in Hni. destruct (Hni _ Hin). }
        destruct (IH _ _ _ Hrest c prev Hin)
          as (sa & sb & e & before & after & -> & Hc).
        exists sa, sb, e,
          ([EvControl u (UBUF_ITERATE_PICTURE_PLANE chroma0)
              (Some (ANS_CHROMA (Some c1)))] ++ e2 ++ before), after.
        split; [|assumption].
        now rewrite <- !app_assoc.
    + unfold ret in H. discriminate.
Qed.

(** A copy that returns a buffer went through the loop over the planes,
    with the geometry of the resize check; what it did before the loop
    involves no iteration. *)
Lemma copy_success_loop
    fuel u hskip vskip new_hsize new_vsize s g s1 e1 new_ubuf s' evs :
  ubuf_pic_check_resize u hskip vskip new_hsize new_vsize s = (Some g, s1, e1) ->
  ubuf_pic_copy fuel u hskip vskip new_hsize new_vsize s =
  (Some (Some new_ubuf), s', evs) ->
  exists s3 before loop,
    evs = before ++ loop /\ Forall not_iteration before /\
    copy_planes fuel u new_ubuf (rs_macropixel g) (copy_to_area g)
      (copy_from_area g) None s3 = (Some true, s', loop).
Proof.
  intros Hck H. unfold ubuf_pic_copy, bind in H. rewrite Hck in H.
  pose proof (check_resize_emits not_iteration u hskip vskip new_hsize
                new_vsize is_query_not_iteration s) as Hq.
  rewrite Hck in Hq. cbn [snd] in Hq.
  unfold ubuf_pic_alloc, ubuf_alloc_picture in H.
  destruct (mgr_alloc_picture (rs_new_hsize g) (rs_new_vsize g) (st_mgr s1))
    as [[nu|] w2]; [|discriminate].
  set (s2 := State w2 (st_mem s1)) in H.
  pose proof (ubuf_pic_size_emits not_iteration nu is_query_not_iteration s2)
    as Hsz.
  destruct (ubuf_pic_size nu s2) as [[[[[nh nv] new_mp]|] s3] e3];
    [|discriminate].
  cbn [snd] in Hsz.
  destruct (negb (new_mp =? rs_macropixel g)); [discriminate|].
  destruct (copy_planes fuel u nu (rs_macropixel g) (copy_to_area g)
              (copy_from_area g) None s3) as [[[[|]|] s4] e4] eqn:Hloop;
    try discriminate.
  unfold ret in H. injection H as <- <- <-.
  exists s3, (e1 ++ EvAlloc (rs_new_hsize g) (rs_new_vsize g) (Some nu) :: e3), e4.
  repeat split.
  - rewrite app_nil_r, <- app_assoc. reflexivity.
  - apply Forall_app. split; [assumption|]. constructor; [exact I|assumption].
  - assumption.
Qed.

(** A plane loop left by its condition has gone from plane to plane until
    the iteration announced no further plane, or failed. *)
Lemma copy_planes_walk fuel u new_ubuf mp ta fa chroma s s' evs :
  copy_planes fuel u new_ubuf mp ta fa chroma s = (Some true, s', evs) ->
  plane_walk u new_ubuf mp ta fa chroma s evs s'.
Proof.
  revert chroma s evs.
  induction fuel as [|fuel IH]; intros chroma s evs H; cbn [copy_planes] in H.
  - discriminate.
  - unfold bind in H.
    destruct (ubuf_pic_plane_iterate u chroma s) as [[it sa] e0] eqn:Hit.
    destruct it as [[c|]|].
    + destruct (copy_plane u new_ubuf mp ta fa c sa) as [[ok sb] e] eqn:Hbody.
      destruct ok.
      * destruct (copy_planes fuel u new_ubuf mp ta fa (Some c) sb)
          as [[r s4] rest] eqn:Hrest.
        injection H as -> <- <-.
        eapply walk_plane; [exact Hit | exact Hbody | now apply IH].
      * unfold ret in H. discriminate.
    + unfold ret in H. injection H as <- <-. rewrite app_nil_r.
      eapply walk_end; [exact Hit | intros c; discriminate].
    + unfold ret in H. injection H as <- <-. rewrite app_nil_r.
      eapply walk_end; [exact Hit | intros c; discriminate].
Qed.

(** Within a walk, the iteration is asked for the plane that follows each
    plane it announced. *)
Lemma walk_goes_on u new_ubuf mp ta fa chroma s s' evs :
  plane_walk u new_ubuf mp ta fa chroma s evs s' ->
  forall c prev,
    In (EvControl u (UBUF_ITERATE_PICTURE_PLANE prev)
          (Some (ANS_CHROMA (Some c)))) evs ->
    exists r, In (EvControl u (UBUF_ITERATE_PICTURE_PLANE (Some c)) r) evs.
Proof.
  induction 1 as [chroma s r s' e Hit Hend |
                  chroma s c0 sa e0 sb e rest s' Hit Hbody Hrest IH];
    intros c prev Hin.
  - destruct (ubuf_pic_plane_iterate_run u chroma s) as [r0 Hr0].
    rewrite Hr0 in Hit. injection Hit as <- <- <-.
    destruct Hin as [Hin | []]. injection Hin as _ ->.
    destruct (Hend c eq_refl).
  - assert (Hnext : exists r,
               In (EvControl u (UBUF_ITERATE_PICTURE_PLANE (Some c0)) r) rest).
    { inversion Hrest as [ch sx r sx' ex Hit' _ | ch sx c1 sa' ex0 sb' ex rest' sx'
                                                    Hit' _ _]; subst.
      - destruct (ubuf_pic_plane_iterate_run u (Some c0) sb) as [r0 Hr0].
        rewrite Hr0 in Hit'. injection Hit' as <- <- <-.
        exists r0. now left.
      - destruct (ubuf_pic_plane_iterate_run u (Some c0) sb) as [r0 Hr0].
        rewrite Hr0 in Hit'. injection Hit' as _ _ <-.
        exists r0. now left. }
    destruct (ubuf_pic_plane_iterate_run u chroma s) as [r0 Hr0].
    rewrite Hr0 in Hit. injection Hit as Hans _ <-.
    apply in_app_or in Hin as [Hin | Hin].
    + destruct Hin as [Hin | []]. injection Hin as _ ->.
      assert (c = c0) as -> by (cbn in Hans; congruence).
      destruct Hnext as [r Hr]. exists r.
      apply in_or_app. right. apply in_or_app. now right.
    + apply in_app_or in Hin as [Hin | Hin].
      * pose proof (copy_plane_not_iteration u new_ubuf mp ta fa c0 sa) as Hni.
        rewrite Hbody in Hni. cbn [snd] in Hni.
        rewrite Forall_forall in Hni. destruct (Hni _ Hin).
      * destruct (IH _ _ Hin) as [r Hr]. exists r.
        apply in_or_app. right. apply in_or_app. now right.
Qed.

End PlaneLoop.

(** ** The overlap *)

Lemma extract_offset_exact skip :
  INT_MIN < skip <= INT_MAX ->
  extract_offset skip = if skip <? 0 then - skip else 0.
Proof.
  intros H. unfold extract_offset, int_neg.
  destruct (skip <? 0); [|reflexivity].
  apply to_int_id. int_ranges. lia.
Qed.

(** The length copied on an axis is the smaller of what the new buffer
    has after the offset and what the old buffer has after the skip. *)
Lemma extract_size_exact skip new_size ubuf_size :
  0 <= ubuf_size <= INT_MAX -> INT_MIN < skip <= ubuf_size ->
  0 <= new_size <= INT_MAX -> - skip <= new_size ->
  extract_size skip new_size ubuf_size =
  Z.min (new_size - (if skip <? 0 then - skip else 0))
        (ubuf_size - (if skip <? 0 then 0 else skip)).
Proof.
  intros He Hs Hn Hns. unfold extract_size, int_sub, extract_skip.
  rewrite extract_offset_exact by (int_ranges; lia).
  int_ranges.
  destruct (Z.ltb_spec skip 0) as [Hneg | Hpos].
  - rewrite (to_int_id (new_size - - skip)) by (int_ranges; lia).
    rewrite (to_size_id 0) by (int_ranges; lia).
    rewrite (to_size_id (new_size - - skip)) by (int_ranges; lia).
    rewrite (to_size_id (ubuf_size - 0)) by (int_ranges; lia).
    destruct (Z.leb_spec (new_size - - skip) (ubuf_size - 0)).
    + rewrite to_int_id by (int_ranges; lia). lia.
    + rewrite to_int_id by (int_ranges; lia). lia.
  - rewrite (to_int_id (new_size - 0)) by (int_ranges; lia).
    rewrite (to_size_id skip) by (int_ranges; lia).
    rewrite (to_size_id (new_size - 0)) by (int_ranges; lia).
    rewrite (to_size_id (ubuf_size - skip)) by (int_ranges; lia).
    destruct (Z.leb_spec (new_size - 0) (ubuf_size - skip)).
    + rewrite to_int_id by (int_ranges; lia). lia.
    + rewrite to_int_id by (int_ranges; lia). lia.
Qed.

Section Overlap.

Context {W : Type} {mgr : ubuf_mgr W}.

Implicit Types (s : state W) (u : ubuf) (a : area).

(** What the resize check has verified when it returns true. *)
Lemma check_resize_accepted u hskip vskip new_hsize new_vsize s g s1 e1 :
  ubuf_pic_check_resize u hskip vskip new_hsize new_vsize s = (Some g, s1, e1) ->
  rs_hskip g = hskip /\ rs_vskip g = vskip /\
  hskip <= to_int (rs_ubuf_hsize g) /\ vskip <= to_int (rs_ubuf_vsize g) /\
  int_neg hskip <= rs_new_hsize g /\ int_neg vskip <= rs_new_vsize g.
Proof.
  intros H.
  destruct (ubuf_pic_size u s) as [[[[[eh ev] mp]|] s0] e0] eqn:Hsz.
  - rewrite (check_resize_run _ _ _ _ _ _ _ _ _ _ _ Hsz) in H.
    destruct (Z.gtb_spec hskip (to_int eh)); [discriminate|].
    destruct (Z.gtb_spec vskip (to_int ev)); [discriminate|].
    cbn [orb] in H. cbv zeta in H.
    destruct (Z.ltb_spec (resolve_new_size eh hskip new_hsize) (int_neg hskip));
      [discriminate|].
    destruct (Z.ltb_spec (resolve_new_size ev vskip new_vsize) (int_neg vskip));
      [discriminate|].
    cbn [orb] in H.
    destruct (resize_off_macropixel _ _ _); [discriminate|].
    injection H as <- <- <-. cbn. repeat split; assumption.
  - rewrite (check_resize_no_size _ _ _ _ _ _ _ _ Hsz) in H. discriminate.
Qed.

(** C2, amended.  Take a geometry [g] accepted by the resize check whose
    extents and new sizes lie between 0 and [INT_MAX].  On each axis the
    area written in the new buffer starts at [- skip] when the skip is
    negative and at 0 otherwise, the area read in the old buffer starts at
    0 when the skip is negative and at the skip otherwise, and both have
    the length [min (new size - written offset) (old extent - read offset)].
    When the copy returns a buffer, its plane loop, started after events
    that ask for no plane, has gone from plane to plane with these two
    areas until the iteration announced no further plane or failed: every
    plane announced went through the body of the loop, with success, and
    the iteration was then asked for the plane that follows it.  And
    whenever that body succeeds, it has mapped exactly these two areas of
    the plane, and has copied [height / vsub] lines of
    [width / hsub / macropixel * macropixel_size] octets and nothing else,
    line [i] from [buffer + i * stride] to [new_buffer + i * new_stride]; if
    the lines written are no longer than the new stride and none of them
    is read, line [i] of the destination then holds line [i] of the source,
    and every octet outside the lines written is unchanged. *)
Theorem copy_transfers_overlap
    fuel u hskip vskip new_hsize new_vsize s g s1 e1 :
  ubuf_pic_check_resize u hskip vskip new_hsize new_vsize s = (Some g, s1, e1) ->
  0 <= rs_ubuf_hsize g <= INT_MAX -> 0 <= rs_ubuf_vsize g <= INT_MAX ->
  0 <= rs_new_hsize g <= INT_MAX -> 0 <= rs_new_vsize g <= INT_MAX ->
  INT_MIN < hskip -> INT_MIN < vskip ->
  let to_offset k := if k <? 0 then - k else 0 in
  let from_offset k := if k <? 0 then 0 else k in
  let width := Z.min (rs_new_hsize g - to_offset hskip)
                     (rs_ubuf_hsize g - from_offset hskip) in
  let height := Z.min (rs_new_vsize g - to_offset vskip)
                      (rs_ubuf_vsize g - from_offset vskip) in
  let ta := Area (to_offset hskip) (to_offset vskip) width height in
  let fa := Area (from_offset hskip) (from_offset vskip) width height in
  copy_to_area g = ta /\ copy_from_area g = fa /\
  (forall new_ubuf s' evs,
     ubuf_pic_copy fuel u hskip vskip new_hsize new_vsize s =
     (Some (Some new_ubuf), s', evs) ->
     (exists before s3 loop,
        evs = before ++ loop /\ Forall not_iteration before /\
        plane_walk u new_ubuf (rs_macropixel g) ta fa None s3 loop s') /\
     (forall c prev,
        In (EvControl u (UBUF_ITERATE_PICTURE_PLANE prev)
              (Some (ANS_CHROMA (Some c)))) evs ->
        (exists sa sb e before after,
           evs = before ++ e ++ after /\
           copy_plane u new_ubuf (rs_macropixel g) ta fa c sa = (true, sb, e)) /\
        (exists r, In (EvControl u (UBUF_ITERATE_PICTURE_PLANE (Some c)) r)
                      evs))) /\
  (forall new_ubuf c sa sb e,
     copy_plane u new_ubuf (rs_macropixel g) ta fa c sa = (true, sb, e) ->
     exists stride new_stride hsub vsub mps new_buffer buffer,
       In (EvControl u (UBUF_SIZE_PICTURE_PLANE c)
             (Some (ANS_PLANE stride hsub vsub mps))) e /\
       In (EvControl new_ubuf (UBUF_SIZE_PICTURE_PLANE c)
             (Some (ANS_PLANE new_stride hsub vsub mps))) e /\
       In (EvControl new_ubuf (UBUF_WRITE_PICTURE_PLANE c ta)
             (Some (ANS_BUFFER new_buffer))) e /\
       In (EvControl u (UBUF_READ_PICTURE_PLANE c fa)
             (Some (ANS_BUFFER buffer))) e /\
       let len := to_size (int_mul (int_div (int_div width hsub)
                                      (rs_macropixel g)) mps) in
       let lines := Z.to_nat (int_div height vsub) in
       filter is_memcpy e =
       line_copies lines new_buffer buffer len new_stride stride /\
       (0 <= len <= new_stride ->
        (forall i j i' j',
           0 <= i < Z.of_nat lines -> 0 <= j < len ->
           0 <= i' < Z.of_nat lines -> 0 <= j' < len ->
           buffer + i * stride + j <> new_buffer + i' * new_stride + j') ->
        forall i j, 0 <= i < Z.of_nat lines -> 0 <= j < len ->
          st_mem sb (new_buffer + i * new_stride + j) =
          st_mem sa (buffer + i * stride + j)) /\
       (forall x,
          (forall i j, 0 <= i < Z.of_nat lines -> 0 <= j < len ->
             x <> new_buffer + i * new_stride + j) ->
          st_mem sb x = st_mem sa x)).
Proof.
  intros Hck Heh Hev Hnh Hnv Hhs Hvs to_offset from_offset width height
    ta fa.
  destruct (check_resize_accepted _ _ _ _ _ _ _ _ _ Hck)
    as (Hgh & Hgv & Hh & Hv & Hlh & Hlv).
  rewrite (to_int_id (rs_ubuf_hsize g)) in Hh by (int_ranges; lia).
  rewrite (to_int_id (rs_ubuf_vsize g)) in Hv by (int_ranges; lia).
  unfold int_neg in Hlh, Hlv.
  rewrite to_int_id in Hlh by (int_ranges; lia).
  rewrite to_int_id in Hlv by (int_ranges; lia).
  assert (Hw : extract_size hskip (rs_new_hsize g) (rs_ubuf_hsize g) = width)
    by (apply extract_size_exact; int_ranges; lia).
  assert (Hht : extract_size vskip (rs_new_vsize g) (rs_ubuf_vsize g) = height)
    by (apply extract_size_exact; int_ranges; lia).
  assert (Hta : copy_to_area g = ta).
  { unfold copy_to_area, ta. rewrite Hgh, Hgv, Hw, Hht.
    rewrite !extract_offset_exact by (int_ranges; lia). reflexivity. }
  assert (Hfa : copy_from_area g = fa).
  { unfold copy_from_area, fa. rewrite Hgh, Hgv, Hw, Hht. reflexivity. }
  assert (Hwpos : 0 <= width).
  { unfold width, to_offset, from_offset.
    destruct (hskip <? 0) eqn:E; [apply Z.ltb_lt in E | apply Z.ltb_ge in E];
      lia. }
  assert (Hhpos : 0 <= height).
  { unfold height, to_offset, from_offset.
    destruct (vskip <? 0) eqn:E; [apply Z.ltb_lt in E | apply Z.ltb_ge in E];
      lia. }
  assert (Hato : absolute ta).
  { unfold absolute, ta, to_offset. cbn [hoffset voffset hsize vsize].
    repeat split; try lia.
    - destruct (hskip <? 0) eqn:E; [apply Z.ltb_lt in E|]; lia.
    - destruct (vskip <? 0) eqn:E; [apply Z.ltb_lt in E|]; lia. }
  assert (Hafrom : absolute fa).
  { unfold absolute, fa, from_offset. cbn [hoffset voffset hsize vsize].
    repeat split; try lia.
    - destruct (hskip <? 0) eqn:E; [|apply Z.ltb_ge in E]; lia.
    - destruct (vskip <? 0) eqn:E; [|apply Z.ltb_ge in E]; lia. }
  split; [assumption|]. split; [assumption|]. split.
  - intros new_ubuf s' evs Hcopy.
    destruct (copy_success_loop _ _ _ _ _ _ _ _ _ _ _ _ _ Hck Hcopy)
      as (s3 & before & loop & -> & Hbefore & Hloop).
    rewrite Hta, Hfa in Hloop.
    split.
    + exists before, s3, loop.
      split; [reflexivity|]. split; [assumption|].
      now apply copy_planes_walk with fuel.
    + intros c prev Hin.
      apply in_app_or in Hin as [Hin | Hin].
      { rewrite Forall_forall in Hbefore. destruct (Hbefore _ Hin). }
      split.
      * destruct (copy_planes_each _ _ _ _ _ _ _ _ _ _ Hloop c prev Hin)
          as (sa & sb & e & b1 & after & -> & Hbody).
        exists sa, sb, e, (before ++ b1), after.
        split; [now rewrite <- app_assoc | assumption].
      * destruct (walk_goes_on _ _ _ _ _ _ _ _ _
                    (copy_planes_walk _ _ _ _ _ _ _ _ _ _ Hloop) c prev Hin)
          as [r Hr].
        exists r. apply in_or_app. now right.
  - intros new_ubuf c sa sb e Hbody.
    destruct (copy_plane_success _ _ _ _ _ _ _ _ _ Hbody Hato Hafrom)
      as (stride & new_stride & hsub & vsub & mps & nb & b & r1 & r2 &
          E1 & E2 & E3 & E4 & _ & _ & Hev' & Hmem).
    exists stride, new_stride, hsub, vsub, mps, nb, b.
    do 4 (split; [assumption|]).
    cbv zeta. unfold plane_hsize_of, plane_vsize_of in Hev', Hmem.
    unfold ta at 1 2 in Hev'. unfold ta at 1 2 in Hmem.
    cbn [hsize vsize] in Hev', Hmem.
    split; [assumption|]. split.
    + intros Hlen Hdis i j Hi Hj. rewrite Hmem.
      now apply mem_copy_lines_line.
    + intros x Hx. rewrite Hmem. now apply mem_copy_lines_frame.
Qed.

End Overlap.

Lemma copy_transfers_overlap_witness :
  let g := ResizeGeometry (- 2) 0 6 2 4 2 1 in
  let run := ubuf_pic_copy 4 0%nat (- 2) 0 6 2
               (first_picture 1 PicMem.yuv420p 4 2) in
  copy_to_area g = Area 2 0 4 2 /\ copy_from_area g = Area 0 0 4 2 /\
  (exists before s3 loop,
     snd run = before ++ loop /\ Forall not_iteration before /\
     plane_walk 0%nat 1%nat 1 (Area 2 0 4 2) (Area 0 0 4 2) None s3 loop
       (snd (fst run))) /\
  (exists sa sb e before after,
     snd run = before ++ e ++ after /\
     copy_plane 0%nat 1%nat 1 (Area 2 0 4 2) (Area 0 0 4 2) "y8" sa =
     (true, sb, e)) /\
  (exists sa sb e before after,
     snd run = before ++ e ++ after /\
     copy_plane 0%nat 1%nat 1 (Area 2 0 4 2) (Area 0 0 4 2) "u8" sa =
     (true, sb, e)) /\
  (exists sa sb e before after,
     snd run = before ++ e ++ after /\
     copy_plane 0%nat 1%nat 1 (Area 2 0 4 2) (Area 0 0 4 2) "v8" sa =
     (true, sb, e)) /\
  (exists r,
     In (EvControl 0%nat (UBUF_ITERATE_PICTURE_PLANE (Some "v8"%string)) r)
        (snd run)).
Proof.
  cbv zeta.
  pose proof (triple_eta (ubuf_pic_copy 4 0%nat (- 2) 0 6 2
                (first_picture 1 PicMem.yuv420p 4 2))) as E.
  assert (R : fst (fst (ubuf_pic_copy 4 0%nat (- 2) 0 6 2
                (first_picture 1 PicMem.yuv420p 4 2))) = Some (Some 1%nat))
    by (vm_compute; reflexivity).
  rewrite R in E.
  assert (C : ubuf_pic_check_resize 0%nat (- 2) 0 6 2
                (first_picture 1 PicMem.yuv420p 4 2) =
              (Some (ResizeGeometry (- 2) 0 6 2 4 2 1),
               first_picture 1 PicMem.yuv420p 4 2,
               [EvControl 0%nat UBUF_SIZE_PICTURE (Some (ANS_SIZE 4 2 1))]))
    by reflexivity.
  destruct (copy_transfers_overlap 4 0%nat (- 2) 0 6 2 _ _ _ _ C
              ltac:(cbn; unfold INT_MAX; lia) ltac:(cbn; unfold INT_MAX; lia)
              ltac:(cbn; unfold INT_MAX; lia) ltac:(cbn; unfold INT_MAX; lia)
              ltac:(unfold INT_MIN; lia) ltac:(unfold INT_MIN; lia))
    as (Hta & Hfa & Hrun & _).
  destruct (Hrun _ _ _ E) as [Hwalk Heach].
  split; [exact Hta|]. split; [exact Hfa|]. split; [exact Hwalk|].
  assert (Hy : In (EvControl 0%nat (UBUF_ITERATE_PICTURE_PLANE None)
                     (Some (ANS_CHROMA (Some "y8"%string))))
                  (snd (ubuf_pic_copy 4 0%nat (- 2) 0 6 2
                          (first_picture 1 PicMem.yuv420p 4 2))))
    by among_the_events.
  assert (Hu : In (EvControl 0%nat
                     (UBUF_ITERATE_PICTURE_PLANE (Some "y8"%string))
                     (Some (ANS_CHROMA (Some "u8"%string))))
                  (snd (ubuf_pic_copy 4 0%nat (- 2) 0 6 2
                          (first_picture 1 PicMem.yuv420p 4 2))))
    by among_the_events.
  assert (Hv : In (EvControl 0%nat
                     (UBUF_ITERATE_PICTURE_PLANE (Some "u8"%string))
                     (Some (ANS_CHROMA (Some "v8"%string))))
                  (snd (ubuf_pic_copy 4 0%nat (- 2) 0 6 2
                          (first_picture 1 PicMem.yuv420p 4 2))))
    by among_the_events.
  split; [exact (proj1 (Heach _ _ Hy))|].
  split; [exact (proj1 (Heach _ _ Hu))|].
  split; [exact (proj1 (Heach _ _ Hv))|].
  exact (proj2 (Heach _ _ Hv)).
Defined.

(** C2 as stated gives the octets per line as the copied width divided by
    the horizontal subsampling and multiplied by the macropixel size.  On
    a packed picture of 4 by 2 with a macropixel of 2 pixels in 4 octets,
    that is 16 octets for the full width; the copy moves 8 octets per
    line, the width being divided by the macropixel as well. *)
Lemma copy_line_octets_counterexample :
  let run := ubuf_pic_copy 4 0%nat 0 0 4 2
               (first_picture 2 PicMem.yuyv422 4 2) in
  fst (fst run) = Some (Some 1%nat) /\
  In (EvControl 0%nat (UBUF_SIZE_PICTURE_PLANE "y8u8y8v8")
        (Some (ANS_PLANE 8 1 1 4))) (snd run) /\
  In (EvControl 1%nat
        (UBUF_WRITE_PICTURE_PLANE "y8u8y8v8" (Area 0 0 4 2))
        (Some (ANS_BUFFER 4112))) (snd run) /\
  filter is_memcpy (snd run) = [EvMemcpy 4112 4096 8; EvMemcpy 4120 4104 8] /\
  spec_line_octets 4 1 4 = 16 /\
  ~ In (EvMemcpy 4112 4096 (spec_line_octets 4 1 4)) (snd run).
Proof.
  vm_compute. repeat split.
  - do 4 right. now left.
  - do 8 right. now left.
  - intros H. repeat (destruct H as [H | H]; [discriminate|]). exact H.
Qed.

(** The transfer of every plane needs the copy to return a buffer.  On a
    4:2:0 picture of 4 by 2, a skip of one pixel with a new size of 2 by 2
    is accepted by the resize check; the first plane is copied, the read
    of the second at the odd offset is refused, no octet of it is moved,
    and the copy releases the new buffer and returns [NULL]. *)
Lemma copy_gives_up_after_first_plane :
  let s := first_picture 1 PicMem.yuv420p 4 2 in
  let run := ubuf_pic_copy 4 0%nat 1 0 2 2 s in
  fst (fst (ubuf_pic_check_resize 0%nat 1 0 2 2 s)) =
  Some (ResizeGeometry 1 0 2 2 4 2 1) /\
  fst (fst run) = Some None /\
  filter is_memcpy (snd run) = [EvMemcpy 4108 4097 2; EvMemcpy 4110 4101 2] /\
  (forall a r,
     ~ In (EvControl 0%nat (UBUF_READ_PICTURE_PLANE "u8" a) r) (snd run)) /\
  last (snd run) (EvFree 0%nat) = EvFree 1%nat.
Proof.
  vm_compute. repeat split.
  intros a r H. repeat (destruct H as [H | H]; [discriminate|]). exact H.
Qed.

(** ** Fuel

    The fuel only bounds the number of planes visited: a run that ends
    with some fuel ends the same way with more. *)

Section Fuel.

Context {W : Type} {mgr : ubuf_mgr W}.

Implicit Types (s : state W) (u : ubuf) (a : area).

Lemma copy_planes_more_fuel fuel u new_ubuf mp ta fa chroma s r s' evs :
  copy_planes fuel u new_ubuf mp ta fa chroma s = (Some r, s', evs) ->
  forall fuel', (fuel <= fuel')%nat ->
    copy_planes fuel' u new_ubuf mp ta fa chroma s = (Some r, s', evs).
Proof.
  revert chroma s evs.
  induction fuel as [|fuel IH]; intros chroma s evs H fuel' Hle;
    cbn [copy_planes] in H; [discriminate|].
  destruct fuel' as [|fuel']; [lia|]. cbn [copy_planes].
  unfold bind in *.
  destruct (ubuf_pic_plane_iterate u chroma s) as [[it s1] e1].
  destruct it as [[c|]|]; try assumption.
  destruct (copy_plane u new_ubuf mp ta fa c s1) as [[ok s2] e2].
  destruct ok; [|assumption].
  destruct (copy_planes fuel u new_ubuf mp ta fa (Some c) s2)
    as [[r3 s3] e3] eqn:Hrest.
  injection H as -> <- <-.
  now rewrite (IH _ _ _ Hrest fuel') by lia.
Qed.

Lemma ubuf_pic_copy_more_fuel
    fuel u hskip vskip new_hsize new_vsize s r s' evs :
  ubuf_pic_copy fuel u hskip vskip new_hsize new_vsize s = (Some r, s', evs) ->
  forall fuel', (fuel <= fuel')%nat ->
    ubuf_pic_copy fuel' u hskip vskip new_hsize new_vsize s = (Some r, s', evs).
Proof.
  intros H fuel' Hle. unfold ubuf_pic_copy, bind in *.
  destruct (ubuf_pic_check_resize u hskip vskip new_hsize new_vsize s)
    as [[[g|] s1] e1]; [|assumption].
  destruct (ubuf_pic_alloc (rs_new_hsize g) (rs_new_vsize g) s1)
    as [[[nu|] s2] e2]; [|assumption].
  destruct (ubuf_pic_size nu s2) as [[[[[nh nv] new_mp]|] s3] e3];
    [|assumption].
  destruct (negb (new_mp =? rs_macropixel g)); [assumption|].
  destruct (copy_planes fuel u nu (rs_macropixel g) (copy_to_area g)
              (copy_from_area g) None s3) as [[[lr|] s4] e4] eqn:Hloop;
    [|discriminate].
  now rewrite (copy_planes_more_fuel _ _ _ _ _ _ _ _ _ _ _ Hloop fuel' Hle).
Qed.

Lemma ubuf_pic_replace_more_fuel
    fuel ubuf_p hskip vskip new_hsize new_vsize s r s' evs :
  ubuf_pic_replace fuel ubuf_p hskip vskip new_hsize new_vsize s =
  (Some r, s', evs) ->
  forall fuel', (fuel <= fuel')%nat ->
    ubuf_pic_replace fuel' ubuf_p hskip vskip new_hsize new_vsize s =
    (Some r, s', evs).
Proof.
  intros H fuel' Hle. unfold ubuf_pic_replace, bind in *.
  destruct (ubuf_pic_copy fuel ubuf_p hskip vskip new_hsize new_vsize s)
    as [[[cp|] s1] e1] eqn:Hcp; [|discriminate].
  now rewrite (ubuf_pic_copy_more_fuel _ _ _ _ _ _ _ _ _ _ Hcp fuel' Hle).
Qed.

End Fuel.

(** ** What the tests of the two checks do and do not cover *)

Section Coverage.

Context {W : Type} {mgr : ubuf_mgr W}.

Implicit Types (s : state W) (u : ubuf) (a : area).

(** X2.  For offsets counted from the start, the bounds test does its
    work: when the sums of offset and size are representable, an accepted
    area starts at or after 0 and ends at or before the extent, on both
    axes. *)
Lemma check_offset_from_start_in_bounds
    u chroma a s a' s' e eh ev mp s1 e1 :
  ubuf_pic_size u s = (Some (eh, ev, mp), s1, e1) ->
  0 <= eh <= INT_MAX -> 0 <= ev <= INT_MAX ->
  0 <= hoffset a -> 0 <= voffset a ->
  is_int (hoffset a + hsize a) -> is_int (voffset a + vsize a) ->
  ubuf_pic_plane_check_offset u chroma a s = (true, a', s', e) ->
  0 <= hoffset a' /\ hoffset a' + hsize a' <= eh /\
  0 <= voffset a' /\ voffset a' + vsize a' <= ev.
Proof.
  intros Hsz Heh Hev Hho Hvo Hhs Hvs H.
  rewrite (check_offset_run _ _ _ _ _ _ _ _ _ Hsz) in H.
  destruct (offset_out_of_picture eh ev a) eqn:Hout; [discriminate|].
  assert (Ha' : a' = resolve_offset eh ev a).
  { cbv zeta in H. destruct (off_macropixel mp _); [discriminate|].
    destruct (ubuf_pic_plane_size u chroma s1)
      as [[[[[[st hs] vs] mps]|] s2] e2]; now injection H. }
  clear H. subst a'.
  unfold offset_out_of_picture, int_add in Hout.
  rewrite (to_int_id eh), (to_int_id ev) in Hout by (int_ranges; lia).
  rewrite !to_int_id in Hout by assumption.
  rewrite !orb_false_iff, !Z.gtb_ltb, !Z.ltb_ge in Hout.
  destruct Hout as [[[H1 H2] H3] H4].
  unfold resolve_offset. cbn [hoffset voffset hsize vsize].
  cmp_false (hoffset a <? 0). cmp_false (voffset a <? 0).
  rewrite !int_of_size_minus.
  rewrite (to_int_id (eh - hoffset a)), (to_int_id (ev - voffset a))
    by (int_ranges; lia).
  destruct (hsize a =? -1); destruct (vsize a =? -1); lia.
Qed.

(** X5.  When the offset check refuses the area, reading, writing and
    unmapping the plane all return false; the manager has only received the
    queries of the check, and no mapping or unmapping command. *)
Lemma plane_access_refused u chroma a s a' s' e :
  ubuf_pic_plane_check_offset u chroma a s = (false, a', s', e) ->
  ubuf_pic_plane_read u chroma a s = (None, s', e) /\
  ubuf_pic_plane_write u chroma a s = (None, s', e) /\
  ubuf_pic_plane_unmap u chroma a s = (false, s', e).
Proof.
  intros H.
  unfold ubuf_pic_plane_read, ubuf_pic_plane_write, ubuf_pic_plane_unmap, bind.
  rewrite H. cbn. now rewrite app_nil_r.
Qed.

End Coverage.

(** The vertical skip and size are not held to the macropixel: on a packed
    picture of 4 by 2 with a macropixel of 2, skipping one line and
    keeping one is accepted. *)
Lemma check_resize_vertical_unaligned :
  fst (fst (ubuf_pic_check_resize 0%nat 0 1 4 1
              (first_picture 2 PicMem.yuyv422 4 2))) =
  Some (ResizeGeometry 0 1 4 1 4 2 2).
Proof. reflexivity. Qed.

(** ** The plane loop ends on the manager of [PicMem]

    With that manager the questions and mappings of the copy leave the
    world as it is, and the iteration walks the list of planes of the
    buffer: when no key occurs twice, the loop over the planes returns
    within one round per plane, plus the round that finds the end. *)

Section Termination.

Implicit Types (s : state PicMem.world) (u : ubuf) (a : area).

Lemma keeps_world_ret {A} (x : A) : keeps_world (ret x).
Proof. intros s. reflexivity. Qed.

Lemma keeps_world_bind {A B} (m : M PicMem.world A) (f : A -> M PicMem.world B) :
  keeps_world m -> (forall x, keeps_world (f x)) -> keeps_world (bind m f).
Proof.
  intros Hm Hf s. unfold bind.
  specialize (Hm s). destruct (m s) as [[x s1] e1].
  specialize (Hf x s1). destruct (f x s1) as [[y s2] e2].
  cbn in *. congruence.
Qed.

Lemma keeps_world_control u c :
  is_resize c = false -> keeps_world (ubuf_control u c).
Proof.
  intros Hc s. rewrite ubuf_control_run. cbn.
  unfold PicMem.control.
  destruct (PicMem.lookup u (PicMem.w_bufs (st_mgr s))) as [b|]; [|reflexivity].
  destruct c as [| [k|] | k | k a | k a | k a | ]; try discriminate;
    reflexivity.
Qed.

Lemma ubuf_pic_size_keeps_world u : keeps_world (ubuf_pic_size u).
Proof.
  unfold ubuf_pic_size. apply keeps_world_bind.
  - now apply keeps_world_control.
  - intros. apply keeps_world_ret.
Qed.

Lemma ubuf_pic_plane_size_keeps_world u chroma :
  keeps_world (ubuf_pic_plane_size u chroma).
Proof.
  unfold ubuf_pic_plane_size. apply keeps_world_bind.
  - now apply keeps_world_control.
  - intros. apply keeps_world_ret.
Qed.

Lemma check_offset_keeps_world u chroma a :
  keeps_world (ubuf_pic_plane_check_offset u chroma a).
Proof.
  unfold ubuf_pic_plane_check_offset.
  apply keeps_world_bind; [apply ubuf_pic_size_keeps_world|].
  intros [[[eh ev] mp]|]; [|apply keeps_world_ret].
  destruct (offset_out_of_picture eh ev a); [apply keeps_world_ret|].
  cbv zeta. destruct (off_macropixel _ _); [apply keeps_world_ret|].
  apply keeps_world_bind; [apply ubuf_pic_plane_size_keeps_world|].
  intros [[[[stride hs] vs] mps]|]; [|apply keeps_world_ret].
  destruct (off_subsampling _ _ _); apply keeps_world_ret.
Qed.

Lemma plane_write_keeps_world u chroma a :
  keeps_world (ubuf_pic_plane_write u chroma a).
Proof.
  unfold ubuf_pic_plane_write.
  apply keeps_world_bind; [apply check_offset_keeps_world|].
  intros [ok a']. destruct (negb _); [apply keeps_world_ret|].
  apply keeps_world_bind; [now apply keeps_world_control|].
  intros. apply keeps_world_ret.
Qed.

Lemma plane_read_keeps_world u chroma a :
  keeps_world (ubuf_pic_plane_read u chroma a).
Proof.
  unfold ubuf_pic_plane_read.
  apply keeps_world_bind; [apply check_offset_keeps_world|].
  intros [ok a']. destruct (negb _); [apply keeps_world_ret|].
  apply keeps_world_bind; [now apply keeps_world_control|].
  intros. apply keeps_world_ret.
Qed.

Lemma plane_unmap_keeps_world u chroma a :
  keeps_world (ubuf_pic_plane_unmap u chroma a).
Proof.
  unfold ubuf_pic_plane_unmap.
  apply keeps_world_bind; [apply check_offset_keeps_world|].
  intros [ok a']. destruct (negb _); [apply keeps_world_ret|].
  apply keeps_world_bind; [now apply keeps_world_control|].
  intros. apply keeps_world_ret.
Qed.

Lemma copy_lines_keeps_world n new_buffer buffer plane_hsize new_stride stride :
  keeps_world (copy_lines n new_buffer buffer plane_hsize new_stride stride).
Proof.
  intros s. now rewrite copy_lines_run.
Qed.

Lemma copy_plane_keeps_world u new_ubuf mp ta fa chroma :
  keeps_world (copy_plane u new_ubuf mp ta fa chroma).
Proof.
  unfold copy_plane.
  apply keeps_world_bind; [apply ubuf_pic_plane_size_keeps_world|].
  intros [[[[stride hs] vs] mps]|]; [|apply keeps_world_ret].
  apply keeps_world_bind; [apply ubuf_pic_plane_size_keeps_world|].
  intros [[[[new_stride new_hs] new_vs] new_mps]|]; [|apply keeps_world_ret].
  destruct (_ || _); [apply keeps_world_ret|].
  apply keeps_world_bind; [apply plane_write_keeps_world|].
  intros [new_buffer|]; [|apply keeps_world_ret].
  apply keeps_world_bind; [apply plane_read_keeps_world|].
  intros [buffer|].
  - cbv zeta.
    apply keeps_world_bind; [apply copy_lines_keeps_world|]. intros _.
    apply keeps_world_bind; [apply plane_unmap_keeps_world|]. intros ret1.
    apply keeps_world_bind; [apply plane_unmap_keeps_world|]. intros ret2.
    apply keeps_world_ret.
  - apply keeps_world_bind; [apply plane_unmap_keeps_world|]. intros _.
    apply keeps_world_ret.
Qed.

(** After a key that occurs once, the iteration gives the key that
    follows it in the list. *)
Lemma plane_after_middle done p rest :
  ~ In (PicMem.chroma (PicMem.bp_plane p))
       (map (fun q => PicMem.chroma (PicMem.bp_plane q)) done) ->
  PicMem.plane_after (PicMem.chroma (PicMem.bp_plane p)) (done ++ p :: rest) =
  Some match rest with
       | [] => None
       | q :: _ => Some (PicMem.chroma (PicMem.bp_plane q))
       end.
Proof.
  induction done as [|d done IH]; intros Hnot; cbn.
  - now rewrite String.eqb_refl.
  - destruct (String.eqb_spec (PicMem.chroma (PicMem.bp_plane d))
                (PicMem.chroma (PicMem.bp_plane p))) as [E | _].
    + exfalso. apply Hnot. now left.
    + apply IH. intros Hin. apply Hnot. now right.
Qed.

(** From any plane of the list on, the loop returns. *)
Lemma copy_planes_ends_from
    u new_ubuf mp ta fa (w : PicMem.world) (b : PicMem.buffer) :
  PicMem.lookup u (PicMem.w_bufs w) = Some b ->
  NoDup (plane_keys b) ->
  forall rest done p fuel (m : memory),
    PicMem.b_planes b = done ++ p :: rest ->
    (List.length rest < fuel)%nat ->
    exists r s' evs,
      copy_planes fuel u new_ubuf mp ta fa
        (Some (PicMem.chroma (PicMem.bp_plane p))) (State w m) =
      (Some r, s', evs).
Proof.
  intros Hb Hnd. unfold plane_keys in Hnd.
  induction rest as [|q rest IH]; intros done p fuel m Hsplit Hfuel;
    (destruct fuel as [|fuel]; [cbn in Hfuel; lia|]);
    cbn [copy_planes]; unfold bind at 1;
    unfold ubuf_pic_plane_iterate, bind, ret; rewrite ubuf_control_run;
    cbn [st_mgr st_mem mgr_control PicMem.manager fst snd];
    unfold PicMem.control; rewrite Hb; cbn [fst snd];
    rewrite Hsplit, plane_after_middle
      by (rewrite Hsplit, map_app in Hnd; cbn in Hnd;
          now apply NoDup_remove_2 in Hnd; rewrite in_app_iff in Hnd;
          intros Hin; apply Hnd; left).
  - cbn. do 3 eexists. reflexivity.
  - cbn [app].
    pose proof (copy_plane_keeps_world u new_ubuf mp ta fa
                  (PicMem.chroma (PicMem.bp_plane q)) (State w m)) as Hkeep.
    destruct (copy_plane u new_ubuf mp ta fa
                (PicMem.chroma (PicMem.bp_plane q)) (State w m))
      as [[ok [w2 m2]] e2].
    cbn in Hkeep. subst w2.
    destruct ok.
    + destruct (IH (done ++ [p]) q fuel m2) as (r & s' & evs & Hrun).
      * now rewrite <- app_assoc.
      * cbn in Hfuel. lia.
      * rewrite Hrun. do 3 eexists. reflexivity.
    + do 3 eexists. reflexivity.
Qed.

(** The loop over the planes of a buffer whose keys are all different
    returns when given one unit of fuel per plane and one more. *)
Lemma copy_planes_ends
    u new_ubuf mp ta fa (w : PicMem.world) (b : PicMem.buffer) (m : memory) fuel :
  PicMem.lookup u (PicMem.w_bufs w) = Some b ->
  NoDup (plane_keys b) ->
  (List.length (PicMem.b_planes b) < fuel)%nat ->
  exists r s' evs,
    copy_planes fuel u new_ubuf mp ta fa None (State w m) = (Some r, s', evs).
Proof.
  intros Hb Hnd Hfuel.
  destruct fuel as [|fuel]; [lia|].
  cbn [copy_planes]. unfold bind at 1.
  unfold ubuf_pic_plane_iterate, bind, ret. rewrite ubuf_control_run.
  cbn [st_mgr st_mem mgr_control PicMem.manager fst snd].
  unfold PicMem.control. rewrite Hb. cbn [fst snd].
  destruct (PicMem.b_planes b) as [|p rest] eqn:Hplanes.
  - cbn. do 3 eexists. reflexivity.
  - cbn [app].
    pose proof (copy_plane_keeps_world u new_ubuf mp ta fa
                  (PicMem.chroma (PicMem.bp_plane p)) (State w m)) as Hkeep.
    destruct (copy_plane u new_ubuf mp ta fa
                (PicMem.chroma (PicMem.bp_plane p)) (State w m))
      as [[ok [w2 m2]] e2].
    cbn in Hkeep. subst w2.
    destruct ok.
    + destruct (copy_planes_ends_from u new_ubuf mp ta fa w b Hb Hnd
                  rest [] p fuel m2) as (r & s' & evs & Hrun).
      * exact Hplanes.
      * cbn in Hfuel. lia.
      * rewrite Hrun. do 3 eexists. reflexivity.
    + do 3 eexists. reflexivity.
Qed.

End Termination.

Section TerminationOfTheCopy.

Implicit Types (s : state PicMem.world) (u : ubuf) (a : area).

Lemma lookup_in u b l : PicMem.lookup u l = Some b -> In (u, b) l.
Proof.
  induction l as [|[k c] l IH]; cbn; [discriminate|].
  destruct (Nat.eqb_spec k u) as [-> | _].
  - intros H. injection H as ->. now left.
  - intros H. right. now apply IH.
Qed.

(** An allocation leaves the older buffers as they are. *)
Lemma alloc_keeps_older hsize vsize (w : PicMem.world) u b r w' :
  handles_below w ->
  PicMem.lookup u (PicMem.w_bufs w) = Some b ->
  PicMem.alloc hsize vsize w = (r, w') ->
  PicMem.lookup u (PicMem.w_bufs w') = Some b.
Proof.
  intros Hw Hb. unfold PicMem.alloc.
  destruct (_ && _); [|intros H; now injection H as <- <-].
  destruct (PicMem.layout _ _ _ _ _ _ _) as [planes brk'].
  intros H. injection H as <- <-. cbn.
  destruct (Nat.eqb_spec (PicMem.w_next w) u) as [E | _]; [|assumption].
  apply lookup_in, Hw in Hb. lia.
Qed.

Lemma check_resize_keeps_world u hskip vskip new_hsize new_vsize :
  keeps_world (ubuf_pic_check_resize u hskip vskip new_hsize new_vsize).
Proof.
  unfold ubuf_pic_check_resize.
  apply keeps_world_bind; [apply ubuf_pic_size_keeps_world|].
  intros [[[eh ev] mp]|]; [|apply keeps_world_ret].
  destruct (_ || _); [apply keeps_world_ret|].
  cbv zeta. destruct (_ || _); [apply keeps_world_ret|].
  destruct (resize_off_macropixel _ _ _); apply keeps_world_ret.
Qed.

(** On the manager of [PicMem], the copy of a live buffer whose plane keys
    are all different returns, with one unit of fuel per plane and one
    more. *)
Lemma ubuf_pic_copy_ends
    (w : PicMem.world) (m : memory) u b fuel hskip vskip new_hsize new_vsize :
  handles_below w ->
  PicMem.lookup u (PicMem.w_bufs w) = Some b ->
  NoDup (plane_keys b) ->
  (List.length (PicMem.b_planes b) < fuel)%nat ->
  exists r s' evs,
    ubuf_pic_copy fuel u hskip vskip new_hsize new_vsize (State w m) =
    (Some r, s', evs).
Proof.
  intros Hw Hb Hnd Hfuel. unfold ubuf_pic_copy, bind.
  pose proof (check_resize_keeps_world u hskip vskip new_hsize new_vsize
                (State w m)) as Hk1.
  destruct (ubuf_pic_check_resize u hskip vskip new_hsize new_vsize (State w m))
    as [[[g|] [w1 m1]] e1]; [|do 3 eexists; reflexivity].
  cbn in Hk1. subst w1.
  unfold ubuf_pic_alloc, ubuf_alloc_picture.
  cbn [st_mgr st_mem mgr_alloc_picture PicMem.manager].
  destruct (PicMem.alloc (rs_new_hsize g) (rs_new_vsize g) w)
    as [[nu|] w2] eqn:Hal; [|do 3 eexists; reflexivity].
  pose proof (alloc_keeps_older _ _ _ _ _ _ _ Hw Hb Hal) as Hb2.
  pose proof (ubuf_pic_size_keeps_world nu (State w2 m1)) as Hk3.
  destruct (ubuf_pic_size nu (State w2 m1)) as [[[[[nh nv] new_mp]|] [w3 m3]] e3];
    [|do 3 eexists; reflexivity].
  cbn in Hk3. subst w3.
  destruct (negb (new_mp =? rs_macropixel g)); [do 3 eexists; reflexivity|].
  destruct (copy_planes_ends u nu (rs_macropixel g) (copy_to_area g)
              (copy_from_area g) w2 b m3 fuel Hb2 Hnd Hfuel)
    as (r & s' & evs & Hrun).
  rewrite Hrun. destruct r; do 3 eexists; reflexivity.
Qed.

End TerminationOfTheCopy.

(** An area that runs past the end of the line is not treated alike from
    both ends: on a line of 4 pixels, 3 pixels from offset -1 are accepted,
    3 pixels from offset 3 are refused. *)
Lemma from_end_past_the_end_differs :
  verdict (ubuf_pic_plane_check_offset 0%nat "y8" (Area (- 1) 0 3 1)
             (first_picture 1 PicMem.gray 4 2)) <>
  verdict (ubuf_pic_plane_check_offset 0%nat "y8" (Area (4 - 1) 0 3 1)
             (first_picture 1 PicMem.gray 4 2)).
Proof. vm_compute. discriminate. Qed.

(** * Further properties of the header *)

(** ** The offset check, continued *)

Section OffsetCheckMore.

Context {W : Type} {mgr : ubuf_mgr W}.

Implicit Types (s : state W) (u : ubuf) (a : area).

(** X1.  An area given in absolute terms (offsets from the start, sizes
    other than -1) comes back from the offset check as it went in, whether
    the check accepts it or refuses it, and whatever the manager
    answers: the check only rewrites offsets from the end and open
    sizes. *)
Theorem check_offset_keeps_absolute u chroma a s :
  absolute a ->
  snd (fst (fst (ubuf_pic_plane_check_offset u chroma a s))) = a.
Proof.
  intros Ha.
  destruct (ubuf_pic_size u s) as [[[[[eh ev] mp]|] s1] e1] eqn:Hsz.
  - rewrite (check_offset_run _ _ _ _ _ _ _ _ _ Hsz).
    rewrite (resolve_offset_absolute _ _ _ Ha).
    destruct (offset_out_of_picture eh ev a); [reflexivity|].
    cbv zeta. destruct (off_macropixel mp a); [reflexivity|].
    destruct (ubuf_pic_plane_size u chroma s1)
      as [[[[[[st hs] vs] mps]|] s2] e2]; reflexivity.
  - now rewrite (check_offset_no_size _ _ _ _ _ _ Hsz).
Qed.

(** What an accepted call has been through. *)
Lemma check_offset_accepted u chroma a s a' s' e :
  ubuf_pic_plane_check_offset u chroma a s = (true, a', s', e) ->
  exists eh ev mp s1 e1 stride hsub vsub mps e2,
    ubuf_pic_size u s = (Some (eh, ev, mp), s1, e1) /\
    ubuf_pic_plane_size u chroma s1 = (Some (stride, hsub, vsub, mps), s', e2) /\
    e = e1 ++ e2 /\
    offset_out_of_picture eh ev a = false /\
    a' = resolve_offset eh ev a /\
    off_macropixel mp a' = false /\
    off_subsampling hsub vsub a' = false.
Proof.
  intros H.
  destruct (ubuf_pic_size u s) as [[[[[eh ev] mp]|] s1] e1] eqn:Hsz.
  - rewrite (check_offset_run _ _ _ _ _ _ _ _ _ Hsz) in H.
    destruct (offset_out_of_picture eh ev a) eqn:Hout; [discriminate|].
    cbv zeta in H.
    destruct (off_macropixel mp (resolve_offset eh ev a)) eqn:Hmp;
      [discriminate|].
    destruct (ubuf_pic_plane_size u chroma s1)
      as [[[[[[st hs] vs] mps]|] s2] e2] eqn:Hps; [|discriminate].
    destruct (off_subsampling hs vs (resolve_offset eh ev a)) eqn:Hsub;
      [discriminate|].
    injection H as <- <- <-.
    exists eh, ev, mp, s1, e1, st, hs, vs, mps, e2. now repeat split.
  - rewrite (check_offset_no_size _ _ _ _ _ _ Hsz) in H. discriminate.
Qed.

(** X3.  In an accepted call, a size of -1 has become a length that is
    not negative and ends exactly at the edge of the picture: resolved
    offset plus resolved size is the extent, for an offset from the start
    as for one from the end. *)
Theorem open_size_reaches_the_edge u chroma a s a' s' e eh ev mp s1 e1 :
  ubuf_pic_size u s = (Some (eh, ev, mp), s1, e1) ->
  0 <= eh <= INT_MAX -> 0 <= ev <= INT_MAX ->
  INT_MIN < hoffset a -> INT_MIN < voffset a ->
  ubuf_pic_plane_check_offset u chroma a s = (true, a', s', e) ->
  (hsize a = -1 -> 0 <= hsize a' /\ hoffset a' + hsize a' = eh) /\
  (vsize a = -1 -> 0 <= vsize a' /\ voffset a' + vsize a' = ev).
Proof.
  intros Hsz Heh Hev Hho Hvo H.
  destruct (check_offset_accepted _ _ _ _ _ _ _ H)
    as (eh' & ev' & mp' & s1' & e1' & st & hs & vs & mps & e2 &
        Hsz' & _ & _ & Hout & -> & _).
  rewrite Hsz in Hsz'. injection Hsz' as <- <- <- <- <-.
  unfold offset_out_of_picture in Hout.
  rewrite (to_int_id eh), (to_int_id ev) in Hout by (int_ranges; lia).
  rewrite !orb_false_iff, !Z.gtb_ltb, !Z.ltb_ge in Hout.
  destruct Hout as [[[H1 H2] _] _].
  unfold resolve_offset. cbn [hoffset voffset hsize vsize]. int_ranges.
  rewrite (int_plus_size (hoffset a) eh), (int_plus_size (voffset a) ev).
  rewrite !int_of_size_minus.
  split; intros ->; change (-1 =? -1) with true; cbv iota.
  - destruct (Z.ltb_spec (hoffset a) 0).
    + rewrite (to_int_id (hoffset a + eh)) by (int_ranges; lia).
      rewrite to_int_id by (int_ranges; lia). lia.
    + rewrite to_int_id by (int_ranges; lia). lia.
  - destruct (Z.ltb_spec (voffset a) 0).
    + rewrite (to_int_id (voffset a + ev)) by (int_ranges; lia).
      rewrite to_int_id by (int_ranges; lia). lia.
    + rewrite to_int_id by (int_ranges; lia). lia.
Qed.

End OffsetCheckMore.

Lemma check_offset_keeps_absolute_witness :
  snd (fst (fst (ubuf_pic_plane_check_offset 0%nat "y8u8y8v8" (Area 1 0 2 1)
                   (first_picture 2 PicMem.yuyv422 4 2)))) = Area 1 0 2 1
  /\
  snd (fst (fst (ubuf_pic_plane_check_offset 0%nat "y8u8y8v8" (Area 2 0 2 1)
                   (first_picture 2 PicMem.yuyv422 4 2)))) = Area 2 0 2 1.
Proof.
  split.
  - apply (check_offset_keeps_absolute (mgr := PicMem.manager)).
    unfold absolute. cbn. lia.
  - apply (check_offset_keeps_absolute (mgr := PicMem.manager)).
    unfold absolute. cbn. lia.
Defined.

Lemma check_offset_from_start_in_bounds_witness :
  let a' := snd (fst (fst (ubuf_pic_plane_check_offset 0%nat "y8"
                             (Area 1 0 (- 1) 2)
                             (first_picture 1 PicMem.gray 4 2)))) in
  0 <= hoffset a' /\ hoffset a' + hsize a' <= 4 /\
  0 <= voffset a' /\ voffset a' + vsize a' <= 2.
Proof.
  cbv zeta.
  eapply (check_offset_from_start_in_bounds (mgr := PicMem.manager) 0%nat "y8"
            (Area 1 0 (- 1) 2) (first_picture 1 PicMem.gray 4 2) _ _ _ 4 2 1).
  - reflexivity.
  - unfold INT_MAX; lia.
  - unfold INT_MAX; lia.
  - cbn; lia.
  - cbn; lia.
  - cbn; unfold is_int, INT_MIN, INT_MAX; lia.
  - cbn; unfold is_int, INT_MIN, INT_MAX; lia.
  - reflexivity.
Defined.

Lemma open_size_reaches_the_edge_witness :
  let a' := snd (fst (fst (ubuf_pic_plane_check_offset 0%nat "y8"
                             (Area (- 3) 1 (- 1) (- 1))
                             (first_picture 1 PicMem.gray 4 2)))) in
  (0 <= hsize a' /\ hoffset a' + hsize a' = 4) /\
  (0 <= vsize a' /\ voffset a' + vsize a' = 2).
Proof.
  cbv zeta.
  destruct (open_size_reaches_the_edge (mgr := PicMem.manager) 0%nat "y8"
              (Area (- 3) 1 (- 1) (- 1)) (first_picture 1 PicMem.gray 4 2)
              _ _ _ 4 2 1 _ _ eq_refl
              ltac:(unfold INT_MAX; lia) ltac:(unfold INT_MAX; lia)
              ltac:(cbn; unfold INT_MIN; lia) ltac:(cbn; unfold INT_MIN; lia)
              eq_refl) as [Hh Hv].
  split; [exact (Hh eq_refl) | exact (Hv eq_refl)].
Defined.

(** ** Mapping and unmapping a plane *)

Section PlaneAccess.

Context {W : Type} {mgr : ubuf_mgr W}.

Implicit Types (s : state W) (u : ubuf) (a : area).

Lemma query_is_no_access l p c r chroma a :
  Forall is_query l -> plane_access_area c = Some (chroma, a) ->
  ~ In (EvControl p c r) l.
Proof.
  intros Hl Hc Hin. rewrite Forall_forall in Hl. apply Hl in Hin.
  destruct c; cbn in Hc, Hin; try discriminate; contradiction.
Qed.

(** A mapping or unmapping command in the events of a plane operation
    comes after an accepted check, for the buffer and the plane of the
    call, and carries the area the check handed back. *)
Lemma plane_access_events u chroma a s p c r chroma' a' :
  plane_access_area c = Some (chroma', a') ->
  In (EvControl p c r) (snd (ubuf_pic_plane_read u chroma a s)) \/
  In (EvControl p c r) (snd (ubuf_pic_plane_write u chroma a s)) \/
  In (EvControl p c r) (snd (ubuf_pic_plane_unmap u chroma a s)) ->
  p = u /\ chroma' = chroma /\
  exists s' e, ubuf_pic_plane_check_offset u chroma a s = (true, a', s', e).
Proof.
  intros Hc Hin.
  unfold ubuf_pic_plane_read, ubuf_pic_plane_write, ubuf_pic_plane_unmap,
    bind in Hin.
  pose proof (check_offset_emits is_query u chroma a (fun e H => H) s) as Hq.
  destruct (ubuf_pic_plane_check_offset u chroma a s) as [[[ok ar] s1] e1].
  cbn [snd fst] in Hq, Hin.
  destruct ok; cbn [negb] in Hin.
  - rewrite !ubuf_control_run in Hin.
    cbv beta iota zeta delta [snd ret] in Hin.
    assert (Hit : exists c0 r0,
               In (EvControl p c r) (e1 ++ [EvControl u c0 r0] ++ []) /\
               plane_access_area c0 = Some (chroma, ar)).
    { destruct Hin as [Hin | [Hin | Hin]]; eauto. }
    destruct Hit as (c0 & r0 & Hin' & Hc0).
    apply in_app_or in Hin' as [Hin' | [Hin' | []]].
    + destruct (query_is_no_access _ _ _ _ _ _ Hq Hc Hin').
    + injection Hin' as <- <- <-. rewrite Hc in Hc0.
      injection Hc0 as -> ->. eauto.
  - unfold ret in Hin. cbn [snd] in Hin. rewrite app_nil_r in Hin.
    assert (Hin' : In (EvControl p c r) e1) by tauto.
    destruct (query_is_no_access _ _ _ _ _ _ Hq Hc Hin').
Qed.

(** X4.  Whatever mapping or unmapping command [ubuf_pic_plane_read],
    [ubuf_pic_plane_write] or [ubuf_pic_plane_unmap] sends to the manager,
    it is for the buffer and the plane of the call and carries the area as
    the offset check resolved it, not the arguments as passed.  It is the
    arguments as passed that have gone through the bounds test, before
    they were resolved; the resolved area has a horizontal offset and size
    that are multiples of the macropixel and of the horizontal
    subsampling, and a vertical offset and size that are multiples of the
    vertical subsampling. *)
Theorem plane_access_sends_checked_area u chroma a s p c r chroma' a' :
  plane_access_area c = Some (chroma', a') ->
  In (EvControl p c r) (snd (ubuf_pic_plane_read u chroma a s)) \/
  In (EvControl p c r) (snd (ubuf_pic_plane_write u chroma a s)) \/
  In (EvControl p c r) (snd (ubuf_pic_plane_unmap u chroma a s)) ->
  p = u /\ chroma' = chroma /\
  exists eh ev mp s1 e1 stride hsub vsub mps s2 e2,
    ubuf_pic_size u s = (Some (eh, ev, mp), s1, e1) /\
    ubuf_pic_plane_size u chroma s1 = (Some (stride, hsub, vsub, mps), s2, e2) /\
    offset_out_of_picture eh ev a = false /\
    a' = resolve_offset eh ev a /\
    int_rem (hoffset a') mp = 0 /\ int_rem (hsize a') mp = 0 /\
    int_rem (hoffset a') hsub = 0 /\ int_rem (hsize a') hsub = 0 /\
    int_rem (voffset a') vsub = 0 /\ int_rem (vsize a') vsub = 0.
Proof.
  intros Hc Hin.
  destruct (plane_access_events _ _ _ _ _ _ _ _ _ Hc Hin)
    as (-> & -> & s' & e & Hck).
  split; [reflexivity|]. split; [reflexivity|].
  destruct (check_offset_accepted _ _ _ _ _ _ _ Hck)
    as (eh & ev & mp & s1 & e1 & st & hs & vs & mps & e2 &
        Hsz & Hps & _ & Hout & Ha' & Hmp & Hsub).
  exists eh, ev, mp, s1, e1, st, hs, vs, mps, s', e2.
  unfold off_macropixel in Hmp. unfold off_subsampling in Hsub.
  apply orb_false_iff in Hmp as [M1 M2].
  apply orb_false_iff in Hsub as [Hsub S4].
  apply orb_false_iff in Hsub as [Hsub S3].
  apply orb_false_iff in Hsub as [S1 S2].
  apply nonzero_false in M1, M2, S1, S2, S3, S4.
  repeat (split; [assumption|]). assumption.
Qed.

End PlaneAccess.

Lemma plane_access_sends_checked_area_witness :
  exists eh ev mp s1 e1 stride hsub vsub mps s2 e2,
    ubuf_pic_size 0%nat (first_picture 1 PicMem.yuv420p 4 2) =
    (Some (eh, ev, mp), s1, e1) /\
    ubuf_pic_plane_size 0%nat "u8" s1 =
    (Some (stride, hsub, vsub, mps), s2, e2) /\
    offset_out_of_picture eh ev (Area (- 2) 0 (- 1) (- 1)) = false /\
    Area 2 0 2 2 = resolve_offset eh ev (Area (- 2) 0 (- 1) (- 1)) /\
    int_rem 2 mp = 0 /\ int_rem 2 mp = 0 /\
    int_rem 2 hsub = 0 /\ int_rem 2 hsub = 0 /\
    int_rem 0 vsub = 0 /\ int_rem 2 vsub = 0.
Proof.
  refine (proj2 (proj2
    (plane_access_sends_checked_area (mgr := PicMem.manager) 0%nat "u8"
       (Area (- 2) 0 (- 1) (- 1)) (first_picture 1 PicMem.yuv420p 4 2)
       0%nat (UBUF_READ_PICTURE_PLANE "u8" (Area 2 0 2 2))
       (Some (ANS_BUFFER 4105)) "u8" (Area 2 0 2 2) eq_refl _))).
  left. vm_compute. tauto.
Defined.

Lemma plane_access_refused_witness :
  let s := first_picture 1 PicMem.yuv420p 4 2 in
  let e := [EvControl 0%nat UBUF_SIZE_PICTURE (Some (ANS_SIZE 4 2 1));
            EvControl 0%nat (UBUF_SIZE_PICTURE_PLANE "u8")
              (Some (ANS_PLANE 2 2 2 1))] in
  ubuf_pic_plane_read 0%nat "u8" (Area 1 0 2 2) s = (None, s, e) /\
  ubuf_pic_plane_write 0%nat "u8" (Area 1 0 2 2) s = (None, s, e) /\
  ubuf_pic_plane_unmap 0%nat "u8" (Area 1 0 2 2) s = (false, s, e).
Proof.
  cbv zeta.
  apply (plane_access_refused (mgr := PicMem.manager) 0%nat "u8"
           (Area 1 0 2 2) (first_picture 1 PicMem.yuv420p 4 2) (Area 1 0 2 2)).
  reflexivity.
Defined.

Lemma copy_failure_releases_the_new_buffer_witness :
  exists before,
    snd (ubuf_pic_copy 4 0%nat 0 (- 1) 4 4
           (first_picture 1 PicMem.yuv420p 4 2)) =
    before ++ [EvFree 1%nat] /\
    forall q, ~ In (EvFree q) before.
Proof.
  pose proof (triple_eta (ubuf_pic_copy 4 0%nat 0 (- 1) 4 4
                            (first_picture 1 PicMem.yuv420p 4 2))) as E.
  assert (R : fst (fst (ubuf_pic_copy 4 0%nat 0 (- 1) 4 4
                          (first_picture 1 PicMem.yuv420p 4 2))) = Some None)
    by (vm_compute; reflexivity).
  rewrite R in E.
  refine (copy_failure_releases_the_new_buffer
            4 0%nat 0 (- 1) 4 4 _ _ _ 4 4 1%nat E _).
  vm_compute. tauto.
Defined.

(** ** The resize *)

Section Resize.

Context {W : Type} {mgr : ubuf_mgr W}.

Implicit Types (s : state W) (u : ubuf).

(** X7.  A resize command reaches the manager only after the resize check
    has accepted the arguments, for the buffer of the call and with the
    skips as passed and the new sizes as resolved (a size of -1 replaced);
    so the manager never sees a skip past the extent, a new size below the
    negated skip, or a horizontal skip or new size that is not a multiple
    of the macropixel.  The call then returns what the manager
    answered. *)
Theorem resize_forwards_checked_geometry
    u hskip vskip new_hsize new_vsize s r s' evs p hs vs h v ans :
  ubuf_pic_resize u hskip vskip new_hsize new_vsize s = (r, s', evs) ->
  In (EvControl p (UBUF_RESIZE_PICTURE hs vs h v) ans) evs ->
  p = u /\ hs = hskip /\ vs = vskip /\
  (exists eh ev mp s1 e1,
     ubuf_pic_size u s = (Some (eh, ev, mp), s1, e1) /\
     h = resolve_new_size eh hskip new_hsize /\
     v = resolve_new_size ev vskip new_vsize /\
     hskip <= to_int eh /\ vskip <= to_int ev /\
     int_neg hskip <= h /\ int_neg vskip <= v /\
     (hskip < 0 -> int_rem (int_neg hskip) mp = 0) /\
     (0 < hskip -> int_rem hskip mp = 0) /\
     int_rem h mp = 0) /\
  r = match ans with Some _ => true | None => false end.
Proof.
  intros H Hin. unfold ubuf_pic_resize, bind in H.
  pose proof (check_resize_emits is_query u hskip vskip new_hsize new_vsize
                (fun e H => H) s) as Hq.
  destruct (ubuf_pic_size u s) as [[[[[eh ev] mp]|] s0] e0] eqn:Hsz.
  2:{ rewrite (check_resize_no_size _ _ _ _ _ _ _ _ Hsz) in H, Hq.
      cbn in H, Hq. injection H as <- <- <-. rewrite app_nil_r in Hin.
      rewrite Forall_forall in Hq. destruct (Hq _ Hin). }
  rewrite (check_resize_run _ _ _ _ _ _ _ _ _ _ _ Hsz) in H, Hq.
  cbn [snd] in Hq.
  assert (Hno : ~ In (EvControl p (UBUF_RESIZE_PICTURE hs vs h v) ans) e0).
  { intros Hin0. rewrite Forall_forall in Hq. exact (Hq _ Hin0). }
  destruct (Z.gtb_spec hskip (to_int eh)) as [|Hh].
  { cbn in H. injection H as <- <- <-. rewrite app_nil_r in Hin. tauto. }
  destruct (Z.gtb_spec vskip (to_int ev)) as [|Hv].
  { cbn in H. injection H as <- <- <-. rewrite app_nil_r in Hin. tauto. }
  cbn [orb] in H. cbv zeta in H.
  destruct (Z.ltb_spec (resolve_new_size eh hskip new_hsize) (int_neg hskip))
    as [|Hnh].
  { cbn in H. injection H as <- <- <-. rewrite app_nil_r in Hin. tauto. }
  destruct (Z.ltb_spec (resolve_new_size ev vskip new_vsize) (int_neg vskip))
    as [|Hnv].
  { cbn in H. injection H as <- <- <-. rewrite app_nil_r in Hin. tauto. }
  cbn [orb] in H.
  destruct (resize_off_macropixel mp hskip (resolve_new_size eh hskip new_hsize))
    eqn:Hmp.
  { cbn in H. injection H as <- <- <-. rewrite app_nil_r in Hin. tauto. }
  cbn [rs_hskip rs_vskip rs_new_hsize rs_new_vsize] in H.
  rewrite ubuf_control_run in H. cbv beta iota zeta delta [ret] in H.
  injection H as <- <- <-.
  apply in_app_or in Hin as [Hin | Hin]; [tauto|].
  destruct Hin as [Hin | []].
  injection Hin as <- <- <- <- <- <-.
  split; [reflexivity|]. split; [reflexivity|]. split; [reflexivity|].
  split; [|reflexivity].
  exists eh, ev, mp, s0, e0.
  unfold resize_off_macropixel in Hmp.
  apply orb_false_iff in Hmp as [Hmp M3].
  apply orb_false_iff in Hmp as [M1 M2].
  apply nonzero_false in M3.
  repeat (split; [first [reflexivity | assumption]|]).
  split; [|split; [|assumption]].
  - intros Hneg. apply andb_false_iff in M1 as [M1 | M1].
    + apply Z.ltb_ge in M1. lia.
    + now apply nonzero_false in M1.
  - intros Hpos. apply andb_false_iff in M2 as [M2 | M2].
    + rewrite Z.gtb_ltb in M2. apply Z.ltb_ge in M2. lia.
    + now apply nonzero_false in M2.
Qed.

End Resize.

Lemma resize_forwards_checked_geometry_witness :
  (0%nat = 0%nat /\ 2 = 2 /\ 0 = 0 /\
   (exists eh ev mp s1 e1,
      ubuf_pic_size 0%nat (first_picture 2 PicMem.yuyv422 4 2) =
      (Some (eh, ev, mp), s1, e1) /\
      2 = resolve_new_size eh 2 (- 1) /\
      2 = resolve_new_size ev 0 (- 1) /\
      2 <= to_int eh /\ 0 <= to_int ev /\
      int_neg 2 <= 2 /\ int_neg 0 <= 2 /\
      (2 < 0 -> int_rem (int_neg 2) mp = 0) /\
      (0 < 2 -> int_rem 2 mp = 0) /\
      int_rem 2 mp = 0) /\
   true = true).
Proof.
  pose proof (triple_eta (ubuf_pic_resize 0%nat 2 0 (- 1) (- 1)
                            (first_picture 2 PicMem.yuyv422 4 2))) as E.
  refine (resize_forwards_checked_geometry (mgr := PicMem.manager)
            0%nat 2 0 (- 1) (- 1) _ _ _ _ 0%nat 2 0 2 2 (Some ANS_DONE) E _).
  vm_compute. tauto.
Defined.

(** ** The buffers of a copy *)

Section CopyTrace.

Context {W : Type} {mgr : ubuf_mgr W}.

Implicit Types (s : state W) (u : ubuf) (a : area).

Lemma is_query_within u new_ubuf e : is_query e -> within u new_ubuf e.
Proof. destruct e as [| p [] r | |]; cbn; tauto. Qed.

Lemma copy_plane_within u new_ubuf mp ta fa chroma :
  emits (within u new_ubuf) (copy_plane u new_ubuf mp ta fa chroma).
Proof.
  pose proof (is_query_within u new_ubuf) as HQ.
  assert (HW : forall a' r,
             within u new_ubuf
               (EvControl new_ubuf (UBUF_WRITE_PICTURE_PLANE chroma a') r))
    by (intros; reflexivity).
  assert (HR : forall a' r,
             within u new_ubuf (EvControl u (UBUF_READ_PICTURE_PLANE chroma a') r))
    by (intros; reflexivity).
  assert (HU : forall a' r,
             within u new_ubuf (EvControl u (UBUF_UNMAP_PICTURE_PLANE chroma a') r))
    by (intros; left; reflexivity).
  assert (HN : forall a' r,
             within u new_ubuf
               (EvControl new_ubuf (UBUF_UNMAP_PICTURE_PLANE chroma a') r))
    by (intros; right; reflexivity).
  unfold copy_plane.
  apply emits_bind; [now apply ubuf_pic_plane_size_emits|].
  intros [[[[stride hs] vs] mps]|]; [|apply emits_ret].
  apply emits_bind; [now apply ubuf_pic_plane_size_emits|].
  intros [[[[new_stride new_hs] new_vs] new_mps]|]; [|apply emits_ret].
  destruct (_ || _); [apply emits_ret|].
  apply emits_bind; [now apply plane_write_emits|].
  intros [new_buffer|]; [|apply emits_ret].
  apply emits_bind; [now apply plane_read_emits|].
  intros [buffer|].
  - cbv zeta.
    apply emits_bind; [apply copy_lines_emits; intros; exact I|]. intros _.
    apply emits_bind; [now apply plane_unmap_emits|]. intros ret1.
    apply emits_bind; [now apply plane_unmap_emits|]. intros ret2.
    apply emits_ret.
  - apply emits_bind; [now apply plane_unmap_emits|]. intros _.
    apply emits_ret.
Qed.

Lemma copy_planes_within fuel u new_ubuf mp ta fa chroma :
  emits (within u new_ubuf) (copy_planes fuel u new_ubuf mp ta fa chroma).
Proof.
  revert chroma. induction fuel as [|fuel IH]; intros; cbn [copy_planes].
  - apply emits_ret.
  - apply emits_bind.
    + unfold ubuf_pic_plane_iterate.
      apply emits_bind; [|intros; apply emits_ret].
      apply emits_control. intros r. exact I.
    + intros [[c|]|]; try apply emits_ret.
      apply emits_bind; [apply copy_plane_within|].
      intros [|]; [apply IH | apply emits_ret].
Qed.

(** The course of a copy: the queries of the resize check; then, if the
    check accepts, one call of the allocator for the resolved sizes; then,
    if a buffer was handed out, events that stay within the old and the
    new buffer. *)
Lemma copy_trace fuel u hskip vskip new_hsize new_vsize s r s' evs :
  ubuf_pic_copy fuel u hskip vskip new_hsize new_vsize s = (r, s', evs) ->
  exists ck s1 e1,
    ubuf_pic_check_resize u hskip vskip new_hsize new_vsize s = (ck, s1, e1) /\
    Forall is_query e1 /\
    match ck with
    | None => r = Some None /\ evs = e1
    | Some g =>
      exists al mid,
        evs = e1 ++ EvAlloc (rs_new_hsize g) (rs_new_vsize g) al :: mid /\
        match al with
        | None => r = Some None /\ mid = []
        | Some new_ubuf =>
          Forall (within u new_ubuf) mid /\
          (r = Some None \/ r = Some (Some new_ubuf) \/ r = None)
        end
    end.
Proof.
  unfold ubuf_pic_copy, bind.
  pose proof (check_resize_emits is_query u hskip vskip new_hsize new_vsize
                (fun e H => H) s) as Hpre.
  destruct (ubuf_pic_check_resize u hskip vskip new_hsize new_vsize s)
    as [[ck s1] e1]. cbn [snd] in Hpre.
  intros H. exists ck, s1, e1. split; [reflexivity|]. split; [assumption|].
  destruct ck as [g|].
  2:{ unfold ret in H. injection H as <- <- <-.
      now rewrite app_nil_r. }
  unfold ubuf_pic_alloc, ubuf_alloc_picture in H.
  destruct (mgr_alloc_picture (rs_new_hsize g) (rs_new_vsize g) (st_mgr s1))
    as [al w2].
  exists al.
  destruct al as [new_ubuf|].
  2:{ unfold ret in H. injection H as <- <- <-.
      exists []. now rewrite ?app_nil_r. }
  set (s2 := State w2 (st_mem s1)) in H.
  pose proof (ubuf_pic_size_emits (within u new_ubuf) new_ubuf
                (is_query_within u new_ubuf) s2) as Hsz.
  destruct (ubuf_pic_size new_ubuf s2) as [[sz s3] e3]. cbn [snd] in Hsz.
  assert (Hfree : Forall (within u new_ubuf) (e3 ++ [EvFree new_ubuf])).
  { apply Forall_app. split; [assumption|].
    constructor; [reflexivity | constructor]. }
  destruct sz as [[[nh nv] new_mp]|].
  2:{ cbn in H. injection H as <- <- <-.
      exists (e3 ++ [EvFree new_ubuf]). rewrite ?app_nil_r. tauto. }
  destruct (negb (new_mp =? rs_macropixel g)).
  { cbn in H. injection H as <- <- <-.
    exists (e3 ++ [EvFree new_ubuf]). rewrite ?app_nil_r. tauto. }
  pose proof (copy_planes_within fuel u new_ubuf (rs_macropixel g)
                (copy_to_area g) (copy_from_area g) None s3) as Hloop.
  destruct (copy_planes fuel u new_ubuf (rs_macropixel g) (copy_to_area g)
              (copy_from_area g) None s3) as [[lr s4] e4].
  cbn [snd] in Hloop.
  destruct lr as [[|]|]; cbn in H; injection H as <- <- <-.
  - exists (e3 ++ e4). rewrite ?app_nil_r.
    split; [reflexivity|]. split; [apply Forall_app; now split | tauto].
  - exists (e3 ++ e4 ++ [EvFree new_ubuf]).
    split; [reflexivity|]. split; [|tauto].
    apply Forall_app. split; [assumption|].
    apply Forall_app. split; [assumption|].
    constructor; [reflexivity | constructor].
  - exists (e3 ++ e4). rewrite ?app_nil_r.
    split; [reflexivity|]. split; [apply Forall_app; now split | tauto].
Qed.

Lemma within_is_no_alloc u new_ubuf l h v r :
  Forall (within u new_ubuf) l -> ~ In (EvAlloc h v r) l.
Proof.
  intros Hl Hin. rewrite Forall_forall in Hl. exact (Hl _ Hin).
Qed.

(** X8.  The copy calls the allocator at most once, only after the resize
    check has accepted the arguments, and asks for the sizes the check
    resolved.  When the allocator hands out nothing the copy stops there
    and returns [NULL]; a buffer the copy returns is the one the allocator
    handed out. *)
Theorem copy_allocates_what_was_checked
    fuel u hskip vskip new_hsize new_vsize s r s' evs h v al :
  ubuf_pic_copy fuel u hskip vskip new_hsize new_vsize s = (r, s', evs) ->
  In (EvAlloc h v al) evs ->
  exists g s1 e1 mid,
    ubuf_pic_check_resize u hskip vskip new_hsize new_vsize s = (Some g, s1, e1) /\
    h = rs_new_hsize g /\ v = rs_new_vsize g /\
    evs = e1 ++ EvAlloc h v al :: mid /\
    (forall h' v' al',
       ~ In (EvAlloc h' v' al') e1 /\ ~ In (EvAlloc h' v' al') mid) /\
    (al = None -> r = Some None /\ mid = []) /\
    (forall new_ubuf, r = Some (Some new_ubuf) -> al = Some new_ubuf).
Proof.
  intros H Hin.
  destruct (copy_trace _ _ _ _ _ _ _ _ _ _ H)
    as (ck & s1 & e1 & Hck & Hq & Hrest).
  destruct ck as [g|].
  2:{ destruct Hrest as [_ ->]. now apply query_is_no_alloc in Hin. }
  destruct Hrest as (al0 & mid & -> & Hal).
  assert (Hmid : forall h' v' al', ~ In (EvAlloc h' v' al') mid).
  { intros h' v' al'. destruct al0 as [new_ubuf|].
    - destruct Hal as [Hw _]. now apply within_is_no_alloc with u new_ubuf.
    - destruct Hal as [_ ->]. intros []. }
  apply in_app_or in Hin as [Hin | [Hin | Hin]].
  - now apply query_is_no_alloc in Hin.
  - injection Hin as <- <- <-.
    exists g, s1, e1, mid.
    split; [assumption|]. split; [reflexivity|]. split; [reflexivity|].
    split; [reflexivity|]. split.
    { intros h' v' al'. split; [now apply query_is_no_alloc | apply Hmid]. }
    destruct al0 as [new_ubuf|].
    + split; [discriminate|]. intros nu Hr.
      destruct Hal as [_ [Hr' | [Hr' | Hr']]]; congruence.
    + split; [intros _; exact Hal|]. intros nu Hr.
      destruct Hal as [Hr' _]. congruence.
  - destruct (Hmid _ _ _ Hin).
Qed.

(** X10.  A copy stays within its two buffers: it maps for reading the
    buffer it copies from and no other, maps for writing only the buffer
    the allocator handed out to it, unmaps planes of these two only,
    releases no buffer but the new one, and never asks for a resize. *)
Theorem copy_maps_its_two_buffers
    fuel u hskip vskip new_hsize new_vsize s r s' evs :
  ubuf_pic_copy fuel u hskip vskip new_hsize new_vsize s = (r, s', evs) ->
  forall p c ans, In (EvControl p c ans) evs ->
    match c with
    | UBUF_READ_PICTURE_PLANE _ _ => p = u
    | UBUF_WRITE_PICTURE_PLANE _ _ =>
      exists h v, In (EvAlloc h v (Some p)) evs
    | UBUF_UNMAP_PICTURE_PLANE _ _ =>
      p = u \/ exists h v, In (EvAlloc h v (Some p)) evs
    | UBUF_RESIZE_PICTURE _ _ _ _ => False
    | _ => True
    end.
Proof.
  intros H p c ans Hin.
  destruct (copy_trace _ _ _ _ _ _ _ _ _ _ H)
    as (ck & s1 & e1 & Hck & Hq & Hrest).
  assert (Hpre : In (EvControl p c ans) e1 ->
                 match c with
                 | UBUF_SIZE_PICTURE | UBUF_SIZE_PICTURE_PLANE _ => True
                 | _ => False
                 end).
  { intros Hin1. rewrite Forall_forall in Hq. apply Hq in Hin1.
    destruct c; exact Hin1. }
  destruct ck as [g|].
  2:{ destruct Hrest as [_ ->]. apply Hpre in Hin. destruct c; tauto. }
  destruct Hrest as (al & mid & -> & Hal).
  apply in_app_or in Hin as [Hin | [Hin | Hin]].
  - apply Hpre in Hin. destruct c; tauto.
  - discriminate.
  - destruct al as [new_ubuf|].
    2:{ destruct Hal as [_ ->]. destruct Hin. }
    destruct Hal as [Hw _]. rewrite Forall_forall in Hw. apply Hw in Hin.
    assert (Hnew : exists h v,
               In (EvAlloc h v (Some new_ubuf))
                  (e1 ++ EvAlloc (rs_new_hsize g) (rs_new_vsize g)
                           (Some new_ubuf) :: mid)).
    { exists (rs_new_hsize g), (rs_new_vsize g).
      apply in_or_app. right. now left. }
    destruct c; cbn in Hin; try exact I; try assumption.
    + now subst p.
    + destruct Hin as [-> | ->]; [now left | now right].
Qed.

End CopyTrace.

(** ** Buffers handed out and buffers released *)

Lemma allocations_app l l' :
  allocations (l ++ l') = (allocations l + allocations l')%nat.
Proof. unfold allocations. now rewrite filter_app, length_app. Qed.

Lemma releases_app l l' :
  releases (l ++ l') = (releases l + releases l')%nat.
Proof. unfold releases. now rewrite filter_app, length_app. Qed.

Lemma query_counts l :
  Forall is_query l -> allocations l = 0%nat /\ releases l = 0%nat.
Proof.
  induction 1 as [|e l He _ [IHa IHr]]; [now split|].
  unfold allocations, releases in *.
  destruct e as [| p [] r | |]; cbn in He |- *; tauto.
Qed.

Lemma calm_counts new_ubuf l :
  Forall (calm new_ubuf) l -> allocations l = 0%nat /\ releases l = 0%nat.
Proof.
  induction 1 as [|e l He _ [IHa IHr]]; [now split|].
  unfold allocations, releases in *.
  destruct e as [| p c r | |]; cbn in He |- *; tauto.
Qed.

Section Balance.

Context {W : Type} {mgr : ubuf_mgr W}.

Implicit Types (s : state W) (u : ubuf).

(** A copy that returns has been handed at most one buffer; it has
    released it again exactly when it returns [NULL]. *)
Lemma copy_balance fuel u hskip vskip new_hsize new_vsize s r s' evs :
  ubuf_pic_copy fuel u hskip vskip new_hsize new_vsize s = (Some r, s', evs) ->
  (allocations evs <= 1)%nat /\
  allocations evs =
  (releases evs + match r with Some _ => 1 | None => 0 end)%nat.
Proof.
  intros H. apply copy_events in H.
  destruct H as [[H Hq] | [(pre & h & v & H & -> & Hq) |
    (pre & h & v & nu & mid & Hq & Hmid & [[H ->] | [[H | H] ->]])]];
    try discriminate; injection H as ->;
    apply query_counts in Hq as [Qa Qr];
    try (apply (calm_counts nu) in Hmid as [Ma Mr]).
  - lia.
  - rewrite allocations_app, releases_app, Qa, Qr. cbn. lia.
  - change (EvAlloc h v (Some nu) :: mid ++ [EvFree nu])
      with ([EvAlloc h v (Some nu)] ++ mid ++ [EvFree nu]).
    rewrite !allocations_app, !releases_app, Qa, Qr, Ma, Mr. cbn. lia.
  - change (EvAlloc h v (Some nu) :: mid)
      with ([EvAlloc h v (Some nu)] ++ mid).
    rewrite !allocations_app, !releases_app, Qa, Qr, Ma, Mr. cbn. lia.
Qed.

(** X9.  A replacement that returns, with true or with false, has
    released as many buffers as the allocator handed out to it, and at
    most one: the number of live buffers is the same before and after.
    When it returns true, exactly one buffer was handed out and one
    released. *)
Theorem replace_keeps_balance
    fuel ubuf_p hskip vskip new_hsize new_vsize s ok ubuf_p' s' evs :
  ubuf_pic_replace fuel ubuf_p hskip vskip new_hsize new_vsize s =
  (Some (ok, ubuf_p'), s', evs) ->
  allocations evs = releases evs /\
  (allocations evs <= 1)%nat /\
  (ok = true -> allocations evs = 1%nat).
Proof.
  unfold ubuf_pic_replace, bind.
  destruct (ubuf_pic_copy fuel ubuf_p hskip vskip new_hsize new_vsize s)
    as [[[cp|] s1] e1] eqn:Hcp; [|discriminate].
  apply copy_balance in Hcp as [Hle Hbal].
  destruct cp as [new_ubuf|]; cbn; intros H; injection H as <- <- <- <-.
  - rewrite allocations_app, releases_app. cbn. lia.
  - rewrite app_nil_r. split; [lia|]. split; [lia | discriminate].
Qed.

End Balance.

Lemma copy_allocates_what_was_checked_witness :
  let s := first_picture 1 PicMem.gray 4 2 in
  let run := ubuf_pic_copy 4 0%nat 1 0 2 (- 1) s in
  exists g s1 e1 mid,
    ubuf_pic_check_resize 0%nat 1 0 2 (- 1) s = (Some g, s1, e1) /\
    2 = rs_new_hsize g /\ 2 = rs_new_vsize g /\
    snd run = e1 ++ EvAlloc 2 2 (Some 1%nat) :: mid /\
    (forall h' v' al',
       ~ In (EvAlloc h' v' al') e1 /\ ~ In (EvAlloc h' v' al') mid) /\
    (Some 1%nat = None -> fst (fst run) = Some None /\ mid = []) /\
    (forall new_ubuf,
       fst (fst run) = Some (Some new_ubuf) -> Some 1%nat = Some new_ubuf).
Proof.
  cbv zeta.
  refine (copy_allocates_what_was_checked (mgr := PicMem.manager)
            4 0%nat 1 0 2 (- 1) _ _ _ _ 2 2 (Some 1%nat) (triple_eta _) _).
  vm_compute. tauto.
Defined.

Lemma copy_maps_its_two_buffers_witness :
  let run := ubuf_pic_copy 4 0%nat 1 0 2 2 (first_picture 1 PicMem.gray 4 2) in
  (exists h v, In (EvAlloc h v (Some 1%nat)) (snd run)) /\
  (0%nat = 0%nat \/ exists h v, In (EvAlloc h v (Some 0%nat)) (snd run)).
Proof.
  cbv zeta. split.
  - refine (copy_maps_its_two_buffers (mgr := PicMem.manager)
              4 0%nat 1 0 2 2 _ _ _ _ (triple_eta _) 1%nat
              (UBUF_WRITE_PICTURE_PLANE "y8" (Area 0 0 2 2))
              (Some (ANS_BUFFER 4104)) _).
    vm_compute. tauto.
  - refine (copy_maps_its_two_buffers (mgr := PicMem.manager)
              4 0%nat 1 0 2 2 _ _ _ _ (triple_eta _) 0%nat
              (UBUF_UNMAP_PICTURE_PLANE "y8" (Area 1 0 2 2))
              (Some ANS_DONE) _).
    vm_compute. tauto.
Defined.

Lemma replace_keeps_balance_witness :
  let run := ubuf_pic_replace 4 0%nat 1 0 2 2
               (first_picture 1 PicMem.gray 4 2) in
  allocations (snd run) = releases (snd run) /\
  (allocations (snd run) <= 1)%nat /\
  (true = true -> allocations (snd run) = 1%nat).
Proof.
  cbv zeta.
  pose proof (triple_eta (ubuf_pic_replace 4 0%nat 1 0 2 2
                            (first_picture 1 PicMem.gray 4 2))) as E.
  assert (R : fst (fst (ubuf_pic_replace 4 0%nat 1 0 2 2
                          (first_picture 1 PicMem.gray 4 2))) =
              Some (true, 1%nat)) by (vm_compute; reflexivity).
  rewrite R in E.
  exact (replace_keeps_balance (mgr := PicMem.manager)
           4 0%nat 1 0 2 2 _ true 1%nat _ _ E).
Defined.

(** ** The two areas of a copy *)

Section CopyAreas.

Context {W : Type} {mgr : ubuf_mgr W}.

Implicit Types (s : state W) (u : ubuf) (g : resize_geometry).

(** The two areas of a copy in closed form, with what the resize check
    has established about the skips. *)
Lemma copy_areas_exact u hskip vskip new_hsize new_vsize s g s1 e1 :
  ubuf_pic_check_resize u hskip vskip new_hsize new_vsize s = (Some g, s1, e1) ->
  0 <= rs_ubuf_hsize g <= INT_MAX -> 0 <= rs_ubuf_vsize g <= INT_MAX ->
  0 <= rs_new_hsize g <= INT_MAX -> 0 <= rs_new_vsize g <= INT_MAX ->
  INT_MIN < hskip -> INT_MIN < vskip ->
  hskip <= rs_ubuf_hsize g /\ vskip <= rs_ubuf_vsize g /\
  - hskip <= rs_new_hsize g /\ - vskip <= rs_new_vsize g /\
  copy_to_area g =
  Area (Z.max (- hskip) 0) (Z.max (- vskip) 0)
       (Z.min (rs_new_hsize g - Z.max (- hskip) 0)
              (rs_ubuf_hsize g - Z.max hskip 0))
       (Z.min (rs_new_vsize g - Z.max (- vskip) 0)
              (rs_ubuf_vsize g - Z.max vskip 0)) /\
  copy_from_area g =
  Area (Z.max hskip 0) (Z.max vskip 0)
       (Z.min (rs_new_hsize g - Z.max (- hskip) 0)
              (rs_ubuf_hsize g - Z.max hskip 0))
       (Z.min (rs_new_vsize g - Z.max (- vskip) 0)
              (rs_ubuf_vsize g - Z.max vskip 0)).
Proof.
  intros Hck Heh Hev Hnh Hnv Hhs Hvs.
  destruct (check_resize_accepted _ _ _ _ _ _ _ _ _ Hck)
    as (Hgh & Hgv & Hh & Hv & Hlh & Hlv).
  rewrite (to_int_id (rs_ubuf_hsize g)) in Hh by (int_ranges; lia).
  rewrite (to_int_id (rs_ubuf_vsize g)) in Hv by (int_ranges; lia).
  unfold int_neg in Hlh, Hlv.
  rewrite to_int_id in Hlh by (int_ranges; lia).
  rewrite to_int_id in Hlv by (int_ranges; lia).
  repeat (split; [assumption|]).
  unfold copy_to_area, copy_from_area. rewrite Hgh, Hgv.
  rewrite !extract_size_exact by (int_ranges; lia).
  rewrite !extract_offset_exact by (int_ranges; lia).
  unfold extract_skip.
  destruct (Z.ltb_spec hskip 0); destruct (Z.ltb_spec vskip 0);
    split; f_equal; lia.
Qed.




(** X13.  The two areas a copy asks to map are given in absolute terms,
    have the same sizes, and lie inside their pictures: the area written
    passes the bounds test of the offset check on a new buffer that has
    the sizes asked for, and the area read passes it on the old buffer.
    No copy is given up for the bounds of its own areas. *)
Theorem copy_areas_pass_the_bounds_test
    u hskip vskip new_hsize new_vsize s g s1 e1 :
  ubuf_pic_check_resize u hskip vskip new_hsize new_vsize s = (Some g, s1, e1) ->
  0 <= rs_ubuf_hsize g <= INT_MAX -> 0 <= rs_ubuf_vsize g <= INT_MAX ->
  0 <= rs_new_hsize g <= INT_MAX -> 0 <= rs_new_vsize g <= INT_MAX ->
  INT_MIN < hskip -> INT_MIN < vskip ->
  absolute (copy_to_area g) /\ absolute (copy_from_area g) /\
  hsize (copy_to_area g) = hsize (copy_from_area g) /\
  vsize (copy_to_area g) = vsize (copy_from_area g) /\
  0 <= hsize (copy_to_area g) /\ 0 <= vsize (copy_to_area g) /\
  offset_out_of_picture (rs_new_hsize g) (rs_new_vsize g) (copy_to_area g) =
  false /\
  offset_out_of_picture (rs_ubuf_hsize g) (rs_ubuf_vsize g) (copy_from_area g) =
  false.
Proof.
  intros Hck Heh Hev Hnh Hnv Hhs Hvs.
  destruct (copy_areas_exact _ _ _ _ _ _ _ _ _ Hck Heh Hev Hnh Hnv Hhs Hvs)
    as (Hh & Hv & Hlh & Hlv & -> & ->).
  unfold absolute, offset_out_of_picture, int_add.
  cbn [hoffset voffset hsize vsize].
  rewrite !(to_int_id (rs_new_hsize g)), !(to_int_id (rs_new_vsize g)),
    !(to_int_id (rs_ubuf_hsize g)), !(to_int_id (rs_ubuf_vsize g))
    by (int_ranges; lia).
  rewrite !to_int_id by (int_ranges; lia).
  rewrite !orb_false_iff, !Z.gtb_ltb, !Z.ltb_ge.
  repeat split; lia.
Qed.

End CopyAreas.



Lemma copy_areas_pass_the_bounds_test_witness :
  let g := ResizeGeometry (- 2) 1 4 4 4 2 1 in
  absolute (copy_to_area g) /\ absolute (copy_from_area g) /\
  hsize (copy_to_area g) = hsize (copy_from_area g) /\
  vsize (copy_to_area g) = vsize (copy_from_area g) /\
  0 <= hsize (copy_to_area g) /\ 0 <= vsize (copy_to_area g) /\
  offset_out_of_picture 4 4 (copy_to_area g) = false /\
  offset_out_of_picture 4 2 (copy_from_area g) = false.
Proof.
  cbv zeta.
  pose proof (triple_eta (ubuf_pic_check_resize 0%nat (- 2) 1 4 4
                            (first_picture 1 PicMem.gray 4 2))) as E.
  assert (R : fst (fst (ubuf_pic_check_resize 0%nat (- 2) 1 4 4
                          (first_picture 1 PicMem.gray 4 2))) =
              Some (ResizeGeometry (- 2) 1 4 4 4 2 1))
    by (vm_compute; reflexivity).
  rewrite R in E.
  apply (copy_areas_pass_the_bounds_test (mgr := PicMem.manager)
           0%nat (- 2) 1 4 4 _ _ _ _ E);
    cbn; unfold INT_MIN, INT_MAX; lia.
Defined.

(** ** A copy with nothing to copy *)

Section EmptyOverlap.

Context {W : Type} {mgr : ubuf_mgr W}.

Implicit Types (s : state W) (u : ubuf) (a : area).

Lemma keeps_memory_octets {A} (m : M W A) : keeps_memory m -> keeps_octets m.
Proof. intros H s x. now rewrite H. Qed.

Lemma keeps_octets_ret {A} (x : A) : keeps_octets (ret (W := W) x).
Proof. intros s y. reflexivity. Qed.

Lemma keeps_octets_bind {A B} (m : M W A) (f : A -> M W B) :
  keeps_octets m -> (forall x, keeps_octets (f x)) -> keeps_octets (bind m f).
Proof.
  intros Hm Hf s y. unfold bind.
  specialize (Hm s y). destruct (m s) as [[x s1] e1].
  specialize (Hf x s1 y). destruct (f x s1) as [[z s2] e2].
  cbn in *. congruence.
Qed.

Lemma keeps_octets_bind_at {A B} (m : M W A) (f : A -> M W B) s x s1 e1 :
  m s = (x, s1, e1) ->
  same_octets (st_mem s) (st_mem s1) ->
  keeps_octets (f x) ->
  same_octets (st_mem s) (st_mem (snd (fst (bind m f s)))).
Proof.
  intros Hm Hs Hf y. unfold bind. rewrite Hm.
  specialize (Hf s1 y). destruct (f x s1) as [[z s2] e2].
  cbn in *. rewrite Hf. apply Hs.
Qed.

Lemma plane_write_keeps_memory u chroma a :
  keeps_memory (ubuf_pic_plane_write u chroma a).
Proof.
  unfold ubuf_pic_plane_write.
  apply keeps_memory_bind; [apply check_offset_keeps_memory|].
  intros ck. destruct (negb (fst ck)); [apply keeps_memory_ret|].
  apply keeps_memory_bind; [apply keeps_memory_control|].
  intros. apply keeps_memory_ret.
Qed.

Lemma plane_read_keeps_memory u chroma a :
  keeps_memory (ubuf_pic_plane_read u chroma a).
Proof.
  unfold ubuf_pic_plane_read.
  apply keeps_memory_bind; [apply check_offset_keeps_memory|].
  intros ck. destruct (negb (fst ck)); [apply keeps_memory_ret|].
  apply keeps_memory_bind; [apply keeps_memory_control|].
  intros. apply keeps_memory_ret.
Qed.

Lemma plane_unmap_keeps_memory u chroma a :
  keeps_memory (ubuf_pic_plane_unmap u chroma a).
Proof.
  unfold ubuf_pic_plane_unmap.
  apply keeps_memory_bind; [apply check_offset_keeps_memory|].
  intros ck. destruct (negb (fst ck)); [apply keeps_memory_ret|].
  apply keeps_memory_bind; [apply keeps_memory_control|].
  intros. apply keeps_memory_ret.
Qed.

Lemma check_resize_keeps_memory u hskip vskip new_hsize new_vsize :
  keeps_memory (ubuf_pic_check_resize u hskip vskip new_hsize new_vsize).
Proof.
  unfold ubuf_pic_check_resize.
  apply keeps_memory_bind; [apply ubuf_pic_size_keeps_memory|].
  intros [[[eh ev] mp]|]; [|apply keeps_memory_ret].
  destruct (_ || _); [apply keeps_memory_ret|].
  cbv zeta. destruct (_ || _); [apply keeps_memory_ret|].
  destruct (resize_off_macropixel _ _ _); apply keeps_memory_ret.
Qed.

Lemma ubuf_free_keeps_memory u : keeps_memory (ubuf_free (W := W) u).
Proof. intros s. reflexivity. Qed.

Lemma ubuf_pic_alloc_keeps_memory hsize vsize :
  keeps_memory (ubuf_pic_alloc (W := W) hsize vsize).
Proof.
  intros s. unfold ubuf_pic_alloc, ubuf_alloc_picture.
  now destruct (mgr_alloc_picture hsize vsize (st_mgr s)).
Qed.

Lemma ubuf_pic_plane_iterate_keeps_memory u chroma :
  keeps_memory (ubuf_pic_plane_iterate u chroma).
Proof.
  unfold ubuf_pic_plane_iterate. apply keeps_memory_bind.
  - apply keeps_memory_control.
  - intros. apply keeps_memory_ret.
Qed.

(** Lines of no octet, or no line at all, leave the memory as it is. *)
Lemma copy_lines_keeps_octets
    n new_buffer buffer plane_hsize new_stride stride :
  n = 0%nat \/ to_size plane_hsize = 0 ->
  keeps_octets
    (copy_lines (W := W) n new_buffer buffer plane_hsize new_stride stride).
Proof.
  intros Hempty s x. rewrite copy_lines_run. cbn [fst snd st_mem].
  apply mem_copy_lines_frame. intros i j Hi Hj. lia.
Qed.

Lemma copy_plane_keeps_octets u new_ubuf mp ta fa chroma :
  hsize ta = 0 \/ vsize ta = 0 ->
  keeps_octets (copy_plane u new_ubuf mp ta fa chroma).
Proof.
  intros Hempty. unfold copy_plane.
  apply keeps_octets_bind;
    [apply keeps_memory_octets, ubuf_pic_plane_size_keeps_memory|].
  intros [[[[stride hs] vs] mps]|]; [|apply keeps_octets_ret].
  apply keeps_octets_bind;
    [apply keeps_memory_octets, ubuf_pic_plane_size_keeps_memory|].
  intros [[[[new_stride new_hs] new_vs] new_mps]|]; [|apply keeps_octets_ret].
  destruct (_ || _); [apply keeps_octets_ret|].
  apply keeps_octets_bind;
    [apply keeps_memory_octets, plane_write_keeps_memory|].
  intros [new_buffer|]; [|apply keeps_octets_ret].
  apply keeps_octets_bind;
    [apply keeps_memory_octets, plane_read_keeps_memory|].
  intros [buffer|].
  - cbv zeta. apply keeps_octets_bind.
    + apply copy_lines_keeps_octets.
      destruct Hempty as [-> | ->]; [right | left].
      * reflexivity.
      * reflexivity.
    + intros _. apply keeps_octets_bind;
        [apply keeps_memory_octets, plane_unmap_keeps_memory|].
      intros ret1. apply keeps_octets_bind;
        [apply keeps_memory_octets, plane_unmap_keeps_memory|].
      intros ret2. apply keeps_octets_ret.
  - apply keeps_octets_bind;
      [apply keeps_memory_octets, plane_unmap_keeps_memory|].
    intros _. apply keeps_octets_ret.
Qed.

Lemma copy_planes_keeps_octets fuel u new_ubuf mp ta fa chroma :
  hsize ta = 0 \/ vsize ta = 0 ->
  keeps_octets (copy_planes fuel u new_ubuf mp ta fa chroma).
Proof.
  intros Hempty. revert chroma.
  induction fuel as [|fuel IH]; intros; cbn [copy_planes].
  - apply keeps_octets_ret.
  - apply keeps_octets_bind;
      [apply keeps_memory_octets, ubuf_pic_plane_iterate_keeps_memory|].
    intros [[c|]|]; try apply keeps_octets_ret.
    apply keeps_octets_bind; [now apply copy_plane_keeps_octets|].
    intros [|]; [apply IH | apply keeps_octets_ret].
Qed.

(** X14.  When the part of the old picture that falls into the new one is
    empty (the width or the height of the copied area is 0, as for a skip
    equal to the extent), the copy moves no octet: whatever it returns,
    the memory holds after the call what it held before. *)
Theorem empty_overlap_moves_no_octet
    fuel u hskip vskip new_hsize new_vsize s g s1 e1 :
  ubuf_pic_check_resize u hskip vskip new_hsize new_vsize s = (Some g, s1, e1) ->
  hsize (copy_to_area g) = 0 \/ vsize (copy_to_area g) = 0 ->
  same_octets (st_mem s)
    (st_mem (snd (fst (ubuf_pic_copy fuel u hskip vskip new_hsize new_vsize s)))).
Proof.
  intros Hck Hempty.
  pose proof (check_resize_keeps_memory u hskip vskip new_hsize new_vsize s)
    as Hmem.
  rewrite Hck in Hmem. cbn [fst snd] in Hmem.
  unfold ubuf_pic_copy.
  apply (keeps_octets_bind_at _ _ _ _ _ _ Hck);
    [intros x; now rewrite Hmem|].
  apply keeps_octets_bind;
    [apply keeps_memory_octets, ubuf_pic_alloc_keeps_memory|].
  intros [new_ubuf|]; [|apply keeps_octets_ret].
  apply keeps_octets_bind;
    [apply keeps_memory_octets, ubuf_pic_size_keeps_memory|].
  assert (Hfree : keeps_octets
            (bind (ubuf_free (W := W) new_ubuf)
                  (fun _ => ret (Some (@None ubuf))))).
  { apply keeps_octets_bind;
      [apply keeps_memory_octets, ubuf_free_keeps_memory|].
    intros _. apply keeps_octets_ret. }
  intros [[[nh nv] new_mp]|]; [|exact Hfree].
  destruct (negb (new_mp =? rs_macropixel g)); [exact Hfree|].
  apply keeps_octets_bind; [now apply copy_planes_keeps_octets|].
  intros [[|]|]; [apply keeps_octets_ret | exact Hfree | apply keeps_octets_ret].
Qed.

End EmptyOverlap.

Lemma empty_overlap_moves_no_octet_witness :
  let s := first_picture 1 PicMem.gray 4 2 in
  hsize (copy_to_area (ResizeGeometry 4 0 2 2 4 2 1)) = 0 /\
  same_octets (st_mem s) (st_mem (snd (fst (ubuf_pic_copy 4 0%nat 4 0 2 2 s)))).
Proof.
  cbv zeta. split; [reflexivity|].
  pose proof (triple_eta (ubuf_pic_check_resize 0%nat 4 0 2 2
                            (first_picture 1 PicMem.gray 4 2))) as E.
  assert (R : fst (fst (ubuf_pic_check_resize 0%nat 4 0 2 2
                          (first_picture 1 PicMem.gray 4 2))) =
              Some (ResizeGeometry 4 0 2 2 4 2 1)) by (vm_compute; reflexivity).
  rewrite R in E.
  apply (empty_overlap_moves_no_octet (mgr := PicMem.manager)
           4 0%nat 4 0 2 2 _ _ _ _ E).
  left. reflexivity.
Defined.

(** ** The bounds test, continued *)

Section BoundsTest.

Context {W : Type} {mgr : ubuf_mgr W}.

Implicit Types (s : state W) (u : ubuf) (a : area).

(** X15.  An area whose offset, or whose sum of offset and size, as
    passed and representable as an [int], lies past the extent of its
    axis is refused, with the arguments left as they were and after the
    query for the picture sizes alone: no plane is looked at. *)
Theorem check_offset_refuses_past_the_end u chroma a s eh ev mp s1 e1 :
  ubuf_pic_size u s = (Some (eh, ev, mp), s1, e1) ->
  0 <= eh <= INT_MAX -> 0 <= ev <= INT_MAX ->
  is_int (hoffset a + hsize a) -> is_int (voffset a + vsize a) ->
  eh < hoffset a \/ ev < voffset a \/
  eh < hoffset a + hsize a \/ ev < voffset a + vsize a ->
  ubuf_pic_plane_check_offset u chroma a s = (false, a, s1, e1).
Proof.
  intros Hsz Heh Hev Hhs Hvs Hpast.
  rewrite (check_offset_run _ _ _ _ _ _ _ _ _ Hsz).
  assert (Hout : offset_out_of_picture eh ev a = true).
  { unfold offset_out_of_picture, int_add.
    rewrite (to_int_id eh), (to_int_id ev) by (int_ranges; lia).
    rewrite !to_int_id by assumption.
    rewrite !orb_true_iff, !Z.gtb_ltb, !Z.ltb_lt. tauto. }
  now rewrite Hout.
Qed.

End BoundsTest.

Lemma check_offset_refuses_past_the_end_witness :
  let s := first_picture 1 PicMem.yuv420p 4 2 in
  ubuf_pic_plane_check_offset 0%nat "u8" (Area 2 0 4 2) s =
  (false, Area 2 0 4 2, s,
   [EvControl 0%nat UBUF_SIZE_PICTURE (Some (ANS_SIZE 4 2 1))]) /\
  4 < 2 + 4.
Proof.
  cbv zeta. split; [|lia].
  apply (check_offset_refuses_past_the_end (mgr := PicMem.manager)
           0%nat "u8" (Area 2 0 4 2) (first_picture 1 PicMem.yuv420p 4 2)
           4 2 1 _ _ eq_refl);
    cbn; unfold is_int, INT_MIN, INT_MAX; lia.
Defined.

(** ** Acceptance of an absolute area *)

Section AbsoluteAcceptance.

Context {W : Type} {mgr : ubuf_mgr W}.

Implicit Types (s : state W) (u : ubuf) (a : area).

(** X16.  For an area given in absolute terms on a plane the manager
    knows, the offset check accepts exactly when, on each axis, the offset
    and the sum of offset and size are no more than the extent, the
    horizontal offset and size are multiples of the macropixel and of the
    horizontal subsampling, and the vertical offset and size are multiples
    of the vertical subsampling.  The sizes themselves are not tested: a
    negative size other than -1 is accepted when these conditions hold. *)
Theorem check_offset_absolute_accepts_iff
    u chroma a s eh ev mp s1 e1 stride hsub vsub mps s2 e2 :
  ubuf_pic_size u s = (Some (eh, ev, mp), s1, e1) ->
  ubuf_pic_plane_size u chroma s1 = (Some (stride, hsub, vsub, mps), s2, e2) ->
  0 <= eh <= INT_MAX -> 0 <= ev <= INT_MAX ->
  absolute a ->
  is_int (hoffset a + hsize a) -> is_int (voffset a + vsize a) ->
  fst (fst (fst (ubuf_pic_plane_check_offset u chroma a s))) = true <->
  hoffset a <= eh /\ voffset a <= ev /\
  hoffset a + hsize a <= eh /\ voffset a + vsize a <= ev /\
  int_rem (hoffset a) mp = 0 /\ int_rem (hsize a) mp = 0 /\
  int_rem (hoffset a) hsub = 0 /\ int_rem (hsize a) hsub = 0 /\
  int_rem (voffset a) vsub = 0 /\ int_rem (vsize a) vsub = 0.
Proof.
  intros Hsz Hps Heh Hev Ha Hhs Hvs.
  rewrite (check_offset_run _ _ _ _ _ _ _ _ _ Hsz).
  rewrite (resolve_offset_absolute _ _ _ Ha). cbv zeta. rewrite Hps.
  unfold offset_out_of_picture, int_add.
  rewrite (to_int_id eh), (to_int_id ev) by (int_ranges; lia).
  rewrite !to_int_id by assumption.
  unfold off_macropixel, off_subsampling.
  rewrite <- !nonzero_false.
  destruct (Z.gtb_spec (hoffset a) eh); cbn [orb fst];
    [split; [discriminate | lia]|].
  destruct (Z.gtb_spec (voffset a) ev); cbn [orb fst];
    [split; [discriminate | lia]|].
  destruct (Z.gtb_spec (hoffset a + hsize a) eh); cbn [orb fst];
    [split; [discriminate | lia]|].
  destruct (Z.gtb_spec (voffset a + vsize a) ev); cbn [orb fst];
    [split; [discriminate | lia]|].
  destruct (nonzero (int_rem (hoffset a) mp)); cbn [orb fst];
    [split; [discriminate | intros (_ & _ & _ & _ & Hz & _); discriminate]|].
  destruct (nonzero (int_rem (hsize a) mp)); cbn [orb fst];
    [split; [discriminate | intros (_ & _ & _ & _ & _ & Hz & _); discriminate]|].
  destruct (nonzero (int_rem (hoffset a) hsub)); cbn [orb negb fst];
    [split; [discriminate |
             intros (_ & _ & _ & _ & _ & _ & Hz & _); discriminate]|].
  destruct (nonzero (int_rem (hsize a) hsub)); cbn [orb negb fst];
    [split; [discriminate |
             intros (_ & _ & _ & _ & _ & _ & _ & Hz & _); discriminate]|].
  destruct (nonzero (int_rem (voffset a) vsub)); cbn [orb negb fst];
    [split; [discriminate |
             intros (_ & _ & _ & _ & _ & _ & _ & _ & Hz & _); discriminate]|].
  destruct (nonzero (int_rem (vsize a) vsub)); cbn [orb negb fst];
    [split; [discriminate |
             intros (_ & _ & _ & _ & _ & _ & _ & _ & _ & Hz); discriminate]|].
  split; [intros _ | reflexivity].
  repeat split; first [lia | reflexivity].
Qed.

End AbsoluteAcceptance.

Lemma check_offset_absolute_accepts_iff_witness :
  fst (fst (fst (ubuf_pic_plane_check_offset 0%nat "u8" (Area 4 0 (- 2) 2)
                   (first_picture 1 PicMem.yuv420p 4 2)))) = true /\
  ~ fst (fst (fst (ubuf_pic_plane_check_offset 0%nat "u8" (Area 0 0 3 2)
                     (first_picture 1 PicMem.yuv420p 4 2)))) = true.
Proof.
  split.
  - apply (check_offset_absolute_accepts_iff (mgr := PicMem.manager)
             0%nat "u8" (Area 4 0 (- 2) 2)
             (first_picture 1 PicMem.yuv420p 4 2) 4 2 1 _ _ 2 2 2 1 _ _
             eq_refl eq_refl);
      unfold absolute; cbn; unfold is_int, INT_MIN, INT_MAX; lia.
  - intros H.
    apply (check_offset_absolute_accepts_iff (mgr := PicMem.manager)
             0%nat "u8" (Area 0 0 3 2)
             (first_picture 1 PicMem.yuv420p 4 2) 4 2 1 _ _ 2 2 2 1 _ _
             eq_refl eq_refl) in H;
      try (unfold absolute; cbn; unfold is_int, INT_MIN, INT_MAX; lia).
    cbn in H. destruct H as (_ & _ & _ & _ & _ & _ & _ & H & _).
    discriminate.
Defined.
